(** * Snow Canyon ward page: the two scraping scripts

    A shallow embedding of [scripts/build_cfm_weekly.py] and
    [scripts/unit_history_sync.py], and the properties their description
    states about them.

    Python [str] values are lists of characters; a character is a code
    point below 256 ([ascii]), on which the classes Python uses
    ([str.isspace], the [\s], [\S] and [\d] of [re]) are the ones given
    below.  Python [int] is [Z] or [N]. *)

From Stdlib Require Import ZArith NArith Lia Ascii String List Bool Sorted Permutation DecimalString QArith.
From Stdlib Require DecimalFacts DecimalPos DecimalN DecimalZ.
From stdpp Require Import base list gmap strings.

Open Scope Z_scope.

(* ===================================================================== *)
(** * Part I: definitions                                                 *)
(* ===================================================================== *)

(** ** Python strings *)

Module Py.

Definition str := list ascii.

Definition lit (s : string) : str := list_ascii_of_string s.

Definition code (c : ascii) : N := N_of_ascii c.

Definition in_range (lo hi : N) (c : ascii) : bool :=
  ((lo <=? code c) && (code c <=? hi))%N.

(** [str.isspace] on one character, which is also [\s]: TAB to CR, FS to US,
    the space, NEL and the no-break space. *)
Definition is_space (c : ascii) : bool :=
  in_range 9 13 c || in_range 28 32 c || (code c =? 133)%N || (code c =? 160)%N.

(** [\d], the decimal digits. *)
Definition is_digit (c : ascii) : bool := in_range 48 57 c.

Definition digit_value (c : ascii) : N := (code c - 48)%N.

Definition mem (c : ascii) (cs : str) : bool :=
  existsb (Ascii.eqb c) cs.

Fixpoint span (p : ascii -> bool) (s : str) : str * str :=
  match s with
  | [] => ([], [])
  | c :: s' =>
      if p c then let '(a, b) := span p s' in (c :: a, b) else ([], s)
  end.

Fixpoint drop_while (p : ascii -> bool) (s : str) : str :=
  match s with
  | [] => []
  | c :: s' => if p c then drop_while p s' else s
  end.

Definition drop_while_end (p : ascii -> bool) (s : str) : str :=
  rev (drop_while p (rev s)).

(** [s.strip()], [s.rstrip()] and [s.strip(chars)]. *)
Definition strip (s : str) : str := drop_while_end is_space (drop_while is_space s).
Definition rstrip (s : str) : str := drop_while_end is_space s.
Definition strip_chars (cs s : str) : str :=
  drop_while_end (fun c => mem c cs) (drop_while (fun c => mem c cs) s).

(** [s.split(sep)] for a one-character separator: always at least one piece. *)
Fixpoint split_on (sep : ascii) (s : str) : list str :=
  match s with
  | [] => [[]]
  | c :: s' =>
      if Ascii.eqb c sep then [] :: split_on sep s'
      else match split_on sep s' with
           | [] => [[c]]
           | p :: ps => (c :: p) :: ps
           end
  end.

(** [s.split()]: the maximal runs of characters that are not white space.
    [cur] is the run being read, in reverse. *)
Fixpoint split_ws_aux (cur : str) (s : str) : list str :=
  match s with
  | [] => match cur with [] => [] | _ => [rev cur] end
  | c :: s' =>
      if is_space c
      then match cur with
           | [] => split_ws_aux [] s'
           | _ => rev cur :: split_ws_aux [] s'
           end
      else split_ws_aux (c :: cur) s'
  end.

Definition split_ws (s : str) : list str := split_ws_aux [] s.

(** [int(ds)] for a run of decimal digits. *)
Definition int_of_digits (ds : str) : N :=
  fold_left (fun acc c => (10 * acc + digit_value c)%N) ds 0%N.

(** [re.sub(cls+, rep, s)] for a character class [cls]: every maximal run of
    characters of the class is replaced by [rep].  [in_run] tells that the
    previous character was of the class, so that the run has been replaced
    already. *)
Fixpoint sub_runs_aux (cls : ascii -> bool) (rep : str) (in_run : bool) (s : str) : str :=
  match s with
  | [] => []
  | c :: s' =>
      if cls c
      then (if in_run then [] else rep) ++ sub_runs_aux cls rep true s'
      else c :: sub_runs_aux cls rep false s'
  end.

Definition sub_runs (cls : ascii -> bool) (rep : str) (s : str) : str :=
  sub_runs_aux cls rep false s.

End Py.


(** ** Exceptions *)

Module Exn.

(** The exceptions the scripts meet; all of them derive from [Exception], so
    an [except Exception] catches each. *)
Inductive exn :=
| ValueError
| UnicodeEncodeError
| RequestException      (* requests: connection errors, timeouts *)
| HTTPError             (* requests: [raise_for_status] *)
| PWTimeoutError        (* playwright.sync_api.TimeoutError *)
| PlaywrightError       (* any other error of the browser *)
| RuntimeError (msg : Py.str).

Inductive result (A : Type) :=
| Ok (a : A)
| Raise (e : exn).
Arguments Ok {A} a.
Arguments Raise {A} e.

Definition is_ok {A} (r : result A) : bool :=
  match r with Ok _ => true | Raise _ => false end.

End Exn.
(** ** The srcset helpers of both scripts *)

Module Srcset.
Import Py.

(** A candidate as both helpers keep it: the tuple [(width, url)]. *)
Definition candidate : Type := N * str.

(** [re.match(r"(\S+)\s+(\d+)w", part)]: the groups [(int(m.group(2)),
    m.group(1))] when the pattern matches at the start of [part].  Each of
    the three runs is followed by a character outside its class, so the
    greedy reading is the only one. *)
Definition match_width (part : str) : option candidate :=
  let '(url, r1) := span (fun c => negb (is_space c)) part in
  let '(ws, r2) := span is_space r1 in
  let '(ds, r3) := span is_digit r2 in
  match url, ws, ds, r3 with
  | _ :: _, _ :: _, _ :: _, c :: _ =>
      if Ascii.eqb c "w" then Some (int_of_digits ds, url) else None
  | _, _, _, _ => None
  end.

(** [list.sort(key=lambda x: x[0])]: a stable sort on the width.  A stable
    sort has one result only; insertion from the right computes it. *)
Fixpoint insert_by_width (x : candidate) (l : list candidate) : list candidate :=
  match l with
  | [] => [x]
  | y :: l' => if (x.1 <=? y.1)%N then x :: l else y :: insert_by_width x l'
  end.

Definition sort_by_width (l : list candidate) : list candidate :=
  foldr insert_by_width [] l.

(** [candidates[-1][1]] after the sort; the callers have checked that the
    list is not empty. *)
Definition last_url (l : list candidate) : str :=
  (List.last (sort_by_width l) (0%N, [])).2.

(** build_cfm_weekly.py, [_largest_from_srcset]. *)
Definition _largest_from_srcset (srcset : str) : str :=
  match srcset with
  | [] => []
  | _ =>
      let candidates :=
        flat_map (fun part =>
                    match match_width (strip part) with
                    | Some c => [c]
                    | None => []
                    end) (split_on "," srcset) in
      match candidates with
      | [] => []
      | _ => last_url candidates
      end
  end.

(** unit_history_sync.py, [pick_largest_from_srcset]: an entry that does not
    match is kept with width 0 and its first token. *)
Definition pick_largest_from_srcset (srcset : str) : str :=
  match srcset with
  | [] => []
  | _ =>
      let parts :=
        flat_map (fun p => match strip p with [] => [] | q => [q] end)
                 (split_on "," srcset) in
      let candidates :=
        flat_map (fun p =>
                    match match_width p with
                    | Some c => [c]
                    | None =>
                        match split_ws p with
                        | [] => []
                        | tok0 :: _ => [(0%N, tok0)]
                        end
                    end) parts in
      match candidates with
      | [] => []
      | _ => last_url candidates
      end
  end.

(** The candidates [_largest_from_srcset] collects. *)
Definition declared_list (srcset : str) : list candidate :=
  flat_map (fun part =>
              match match_width (strip part) with
              | Some c => [c]
              | None => []
              end) (split_on "," srcset).

(** The candidates [pick_largest_from_srcset] collects. *)
Definition ranked_list (srcset : str) : list candidate :=
  flat_map (fun p =>
              match match_width p with
              | Some c => [c]
              | None => match split_ws p with [] => [] | tok0 :: _ => [(0%N, tok0)] end
              end)
           (flat_map (fun p => match strip p with [] => [] | q => [q] end)
                     (split_on "," srcset)).

(** In the order of the widths. *)
Definition ascending (l : list candidate) : Prop :=
  StronglySorted (fun a b : candidate => (a.1 <= b.1)%N) l.

(** What the description calls a candidate of the form [URL Nw]: an entry
    that reads as a URL, white space, a decimal width [n] and the letter w. *)
Definition is_candidate (part : str) (n : N) (url : str) : Prop :=
  exists ws ds rest,
    part = url ++ ws ++ ds ++ "w"%char :: rest /\
    url <> [] /\ Forall (fun c => is_space c = false) url /\
    ws <> [] /\ Forall (fun c => is_space c = true) ws /\
    ds <> [] /\ Forall (fun c => is_digit c = true) ds /\
    n = int_of_digits ds.

(** The candidates a srcset declares: its comma-separated entries of that
    form, surrounding white space apart. *)
Definition declares (srcset : str) (n : N) (url : str) : Prop :=
  exists part, In part (split_on "," srcset) /\ is_candidate (strip part) n url.

(** [url] is the URL of a declared candidate of the largest declared width. *)
Definition largest_declared (srcset url : str) : Prop :=
  exists n, declares srcset n url /\ forall m v, declares srcset m v -> (m <= n)%N.

End Srcset.


(** ** build_cfm_weekly.py: the week number *)

Module IsoWeek.

(** A [datetime.date]: the constructor accepts exactly the valid dates. *)
Record date := Date { year : Z; month : Z; day : Z }.

Definition MINYEAR : Z := 1.
Definition MAXYEAR : Z := 9999.

Definition _is_leap (y : Z) : bool :=
  (y mod 4 =? 0) && (negb (y mod 100 =? 0) || (y mod 400 =? 0)).

Definition _DAYS_IN_MONTH : list Z := [-1; 31; 28; 31; 30; 31; 30; 31; 31; 30; 31; 30; 31].
Definition _DAYS_BEFORE_MONTH : list Z :=
  [-1; 0; 31; 59; 90; 120; 151; 181; 212; 243; 273; 304; 334].

Definition _days_before_year (y : Z) : Z :=
  let y := y - 1 in
  y * 365 + y / 4 - y / 100 + y / 400.

Definition _days_in_month (y m : Z) : Z :=
  if (m =? 2) && _is_leap y then 29 else nth (Z.to_nat m) _DAYS_IN_MONTH 0.

Definition _days_before_month (y m : Z) : Z :=
  nth (Z.to_nat m) _DAYS_BEFORE_MONTH 0 + (if (m >? 2) && _is_leap y then 1 else 0).

Definition _ymd2ord (y m d : Z) : Z :=
  _days_before_year y + _days_before_month y m + d.

(** [_check_date_fields]: what [date(year, month, day)] requires. *)
Definition valid_date (d : date) : bool :=
  (MINYEAR <=? year d) && (year d <=? MAXYEAR) &&
  (1 <=? month d) && (month d <=? 12) &&
  (1 <=? day d) && (day d <=? _days_in_month (year d) (month d)).

Definition _isoweek1monday (y : Z) : Z :=
  let firstday := _ymd2ord y 1 1 in
  let firstweekday := (firstday + 6) mod 7 in
  let week1monday := firstday - firstweekday in
  if firstweekday >? 3 then week1monday + 7 else week1monday.

(** [d.isocalendar().week]. *)
Definition isocalendar_week (d : date) : Z :=
  let y := year d in
  let week1monday := _isoweek1monday y in
  let today := _ymd2ord (year d) (month d) (day d) in
  let week := (today - week1monday) / 7 in
  let week :=
    if week <? 0 then (today - _isoweek1monday (y - 1)) / 7
    else if week >=? 52 then
      if today >=? _isoweek1monday (y + 1) then 0 else week
    else week in
  week + 1.

(** [iso_week_number]. *)
Definition iso_week_number (d : date) : Z :=
  Z.min (isocalendar_week d) 52.

End IsoWeek.

(** ** unit_history_sync.py: folder names *)

Module SafeName.
Import Py.

(** The class of the second substitution: backslash, slash, colon, star,
    question mark, double quote (code 34), angle brackets and bar. *)
Definition windows_unsafe : str :=
  ["\"; "/"; ":"; "*"; "?"; "034"; "<"; ">"; "|"]%char.

(** [s[:n]] for any integer [n]: a negative [n] counts from the end. *)
Definition slice_to (n : Z) (s : str) : str :=
  if n <? 0 then take (Z.to_nat (Z.of_nat (length s) + n)) s
  else take (Z.to_nat n) s.

(** [safe_name(name, max_len)]; [name or ""] is [name] for a string. *)
Definition safe_name (name : str) (max_len : Z) : str :=
  let name := strip name in
  let name := sub_runs is_space [" "%char] name in
  let name := sub_runs (fun c => mem c windows_unsafe) ["-"%char] name in
  let name := strip_chars [" "; "."]%char name in
  let name := match name with [] => lit "Untitled" | _ => name end in
  if Z.of_nat (length name) >? max_len then rstrip (slice_to max_len name)
  else name.

Definition default_max_len : Z := 90.

(** No two white-space characters in a row. *)
Fixpoint ws_runs_single (s : str) : bool :=
  match s with
  | c1 :: ((c2 :: _) as t) => negb (is_space c1 && is_space c2) && ws_runs_single t
  | _ => true
  end.

(** What the three cleaning steps leave of a name, before the default and
    the cut. *)
Definition cleaned (name : str) : str :=
  strip_chars [" "; "."]%char
    (sub_runs (fun c => mem c windows_unsafe) ["-"%char]
       (sub_runs is_space [" "%char] (strip name))).

(** The invariant of the cleaning steps: the only white space is the space,
    never twice in a row, and no character of the unsafe class. *)
Definition tidy (s : str) : Prop :=
  Forall (fun c => is_space c = true -> c = " "%char) s
  /\ ws_runs_single s = true
  /\ Forall (fun c => mem c windows_unsafe = false) s.

End SafeName.

(** ** urllib.parse

    The functions of Python's [urllib.parse] that [unit_history_sync.py]
    calls, after CPython 3.11.  URL text is a [str]; text decoded from
    percent escapes is a list of code points, since an escape can stand for
    any character. *)

Module Urllib.
Import Py Exn.

Definition ustr := list N.

Definition to_ustr (s : str) : ustr := map code s.

(** The two checks on a network location that depend on Python's
    [ipaddress] and [unicodedata] modules: [_check_bracketed_netloc] and the
    NFKC test of [_checknetloc].  Each tells whether the check passes. *)
Class NetlocChecks := {
  bracketed_netloc_ok : str -> bool;
  nfkc_netloc_ok : str -> bool
}.

Definition is_ascii (c : ascii) : bool := (code c <? 128)%N.
Definition is_upper (c : ascii) : bool := in_range 65 90 c.
Definition is_alpha_ascii (c : ascii) : bool := in_range 65 90 c || in_range 97 122 c.

(** [str.lower] on one character below 256: the ASCII capitals and the
    Latin-1 capitals (all of 192 to 222 but the multiplication sign). *)
Definition lower_char (c : ascii) : ascii :=
  if is_upper c
     || (in_range 192 222 c && negb (code c =? 215)%N)
  then ascii_of_N (code c + 32) else c.

Definition lower (s : str) : str := map lower_char s.

Definition scheme_chars : str :=
  lit "abcdefghijklmnopqrstuvwxyzABCDEFGHIJKLMNOPQRSTUVWXYZ0123456789+-.".

Definition uses_netloc : list str :=
  map lit [""; "ftp"; "http"; "gopher"; "nntp"; "telnet"; "imap"; "wais"; "file";
           "mms"; "https"; "shttp"; "snews"; "prospero"; "rtsp"; "rtspu";
           "rsync"; "svn"; "svn+ssh"; "sftp"; "nfs"; "git"; "git+ssh"; "ws";
           "wss"]%string.

Definition uses_params : list str :=
  map lit [""; "ftp"; "hdl"; "prospero"; "http"; "imap"; "https"; "shttp";
           "rtsp"; "rtspu"; "sip"; "sips"; "mms"; "sftp"; "tel"]%string.

Definition str_in (s : str) (l : list str) : bool := bool_decide (s ∈ l).

(** [s.find(c)]: the index of the first [c], if any. *)
Fixpoint find_char (c : ascii) (s : str) : option nat :=
  match s with
  | [] => None
  | x :: s' => if Ascii.eqb x c then Some 0%nat else S <$> find_char c s'
  end.

(** [s.split(c, 1)] when [c] occurs in [s], and [(s, "")] otherwise. *)
Definition split_first (c : ascii) (s : str) : str * str :=
  match find_char c s with
  | Some i => (take i s, drop (S i) s)
  | None => (s, [])
  end.

(** [_WHATWG_C0_CONTROL_OR_SPACE] and [_UNSAFE_URL_BYTES_TO_REMOVE]. *)
Definition c0_control_or_space (c : ascii) : bool := (code c <=? 32)%N.
Definition unsafe_url_byte (c : ascii) : bool :=
  (code c =? 9)%N || (code c =? 13)%N || (code c =? 10)%N.

(** [_splitnetloc(url, 2)] for a [url] that starts with two slashes: [rest]
    is what follows them. *)
Definition netloc_delim (c : ascii) : bool :=
  Ascii.eqb c "/" || Ascii.eqb c "?" || Ascii.eqb c "#".

Definition _splitnetloc (rest : str) : str * str :=
  span (fun c => negb (netloc_delim c)) rest.

Record SplitResult := {
  s_scheme : str; s_netloc : str; s_path : str; s_query : str; s_fragment : str
}.

Record ParseResult := {
  scheme : str; netloc : str; path : str; params : str; query : str; fragment : str
}.

Section Parse.
Context `{NetlocChecks}.

(** The first lines of [urlsplit]: leading C0 controls and spaces are
    stripped, then tabs and line ends removed everywhere. *)
Definition clean_url (url : str) : str :=
  List.filter (fun c => negb (unsafe_url_byte c)) (drop_while c0_control_or_space url).

(** The scheme of [urlsplit]: what precedes the first colon, if that is a
    letter followed by scheme characters; and the rest. *)
Definition split_scheme (url : str) : str * str :=
  match find_char ":" url, url with
  | Some (S i), c0 :: _ =>
      if is_ascii c0 && is_alpha_ascii c0
         && forallb (fun c => mem c scheme_chars) (take (S i) url)
      then (lower (take (S i) url), drop (S (S i)) url)
      else ([], url)
  | _, _ => ([], url)
  end.

(** The network location of [urlsplit], for a [url] that starts with two
    slashes; the rest; and whether the brackets of the location are wrong. *)
Definition split_netloc (url : str) : str * str * bool :=
  match url with
  | "/"%char :: "/"%char :: rest =>
      let '(netloc, url) := _splitnetloc rest in
      let open := mem "["%char netloc in
      let close := mem "]"%char netloc in
      (netloc, url,
       (open && negb close) || (close && negb open)
       || (open && close && negb (bracketed_netloc_ok netloc)))
  | _ => ([], url, false)
  end.

(** [urlsplit(url)]. *)
Definition urlsplit (url : str) : result SplitResult :=
  let '(scheme, url) := split_scheme (clean_url url) in
  let '(netloc, url, bad) := split_netloc url in
  if bad then Raise ValueError else
  let '(url, fragment) := split_first "#" url in
  let '(url, query) := split_first "?" url in
  if negb (forallb is_ascii netloc) && negb (nfkc_netloc_ok netloc) then Raise ValueError
  else Ok {| s_scheme := scheme; s_netloc := netloc; s_path := url;
             s_query := query; s_fragment := fragment |}.

(** The query [urlsplit] finds in a cleaned URL: between the first question
    mark and the first hash. *)
Definition query_of (url : str) : str :=
  (split_first "?" (split_first "#" url).1).2.

(** [s.rfind("/")] and [s.find(";", start)]. *)
Definition rfind_char (c : ascii) (s : str) : option nat :=
  match find_char c (rev s) with
  | Some i => Some (length s - 1 - i)%nat
  | None => None
  end.

Definition find_char_from (c : ascii) (start : nat) (s : str) : option nat :=
  (fun i => (start + i)%nat) <$> find_char c (drop start s).

Definition _splitparams (url : str) : str * str :=
  match rfind_char "/" url with
  | Some j =>
      match find_char_from ";" j url with
      | Some i => (take i url, drop (S i) url)
      | None => (url, [])
      end
  | None =>
      match find_char ";" url with
      | Some i => (take i url, drop (S i) url)
      | None => (url, [])   (* not reached: the caller has seen a semicolon *)
      end
  end.

(** [urlparse(url)]. *)
Definition urlparse (url : str) : result ParseResult :=
  match urlsplit url with
  | Raise e => Raise e
  | Ok r =>
      let '(url, params) :=
        if str_in (s_scheme r) uses_params && mem ";"%char (s_path r)
        then _splitparams (s_path r) else (s_path r, []) in
      Ok {| scheme := s_scheme r; netloc := s_netloc r; path := url;
            params := params; query := s_query r; fragment := s_fragment r |}
  end.

End Parse.

(** [urlunsplit] and [urlunparse]. *)
Definition non_empty (s : str) : bool := match s with [] => false | _ => true end.

Definition urlunsplit (scheme netloc url query fragment : str) : str :=
  let url :=
    if non_empty netloc
       || (non_empty scheme && str_in scheme uses_netloc
           && negb (bool_decide (take 2 url = lit "//")))
    then
      let url :=
        if non_empty url && negb (bool_decide (take 1 url = lit "/"))
        then "/"%char :: url else url in
      lit "//" ++ netloc ++ url
    else url in
  let url := if non_empty scheme then scheme ++ ":"%char :: url else url in
  let url := if non_empty query then url ++ "?"%char :: query else url in
  let url := if non_empty fragment then url ++ "#"%char :: fragment else url in
  url.

Definition urlunparse (p : ParseResult) : str :=
  let url := if non_empty (params p) then path p ++ ";"%char :: params p else path p in
  urlunsplit (scheme p) (netloc p) url (query p) (fragment p).

(** What [urlunsplit] appends for a query and for a fragment. *)
Definition query_part (q : str) : str := if non_empty q then "?"%char :: q else [].
Definition fragment_part (f : str) : str := if non_empty f then "#"%char :: f else [].

(** *** Percent escapes and UTF-8 *)

Definition is_hex (c : ascii) : bool :=
  in_range 48 57 c || in_range 65 70 c || in_range 97 102 c.

Definition hex_value (c : ascii) : N :=
  if in_range 48 57 c then code c - 48
  else if in_range 65 70 c then code c - 55
  else code c - 87.

(** [unquote_to_bytes] on ASCII text: a percent sign followed by two
    hexadecimal digits is one byte, any other percent sign stands for itself. *)
Fixpoint unquote_to_bytes (s : str) : list N :=
  match s with
  | [] => []
  | c :: t =>
      if Ascii.eqb c "%" then
        match t with
        | h1 :: h2 :: rest =>
            if is_hex h1 && is_hex h2
            then (16 * hex_value h1 + hex_value h2)%N :: unquote_to_bytes rest
            else code c :: unquote_to_bytes t
        | _ => code c :: unquote_to_bytes t
        end
      else code c :: unquote_to_bytes t
  end.

(** A multi-byte sequence being read: the continuation bytes still expected,
    the value so far, and the range the next byte must lie in. *)
Record pending := { need : nat; acc : N; lo : N; hi : N }.

Definition replacement : N := 0xFFFD.

(** The first byte of a sequence: what is decoded at once, and what is begun. *)
Definition utf8_start (b : N) : ustr * option pending :=
  (if b <? 0x80 then ([b], None)
   else if (0xC2 <=? b) && (b <=? 0xDF)
     then ([], Some {| need := 1; acc := b - 0xC0; lo := 0x80; hi := 0xBF |})
   else if b =? 0xE0
     then ([], Some {| need := 2; acc := 0; lo := 0xA0; hi := 0xBF |})
   else if b =? 0xED
     then ([], Some {| need := 2; acc := 0xD; lo := 0x80; hi := 0x9F |})
   else if (0xE1 <=? b) && (b <=? 0xEF)
     then ([], Some {| need := 2; acc := b - 0xE0; lo := 0x80; hi := 0xBF |})
   else if b =? 0xF0
     then ([], Some {| need := 3; acc := 0; lo := 0x90; hi := 0xBF |})
   else if (0xF1 <=? b) && (b <=? 0xF3)
     then ([], Some {| need := 3; acc := b - 0xF0; lo := 0x80; hi := 0xBF |})
   else if b =? 0xF4
     then ([], Some {| need := 3; acc := 4; lo := 0x80; hi := 0x8F |})
   else ([replacement], None))%N.

(** [bytes.decode("utf-8", "replace")]: an ill-formed sequence gives U+FFFD
    for its longest well-formed start. *)
Fixpoint utf8_decode_from (st : option pending) (bs : list N) : ustr :=
  match bs with
  | [] => match st with Some _ => [replacement] | None => [] end
  | b :: bs' =>
      let fresh :=
        let '(out, st') := utf8_start b in out ++ utf8_decode_from st' bs' in
      match st with
      | None => fresh
      | Some p =>
          if ((lo p <=? b) && (b <=? hi p))%N then
            let v := (acc p * 64 + (b - 0x80))%N in
            match need p with
            | S (S n) =>
                utf8_decode_from
                  (Some {| need := S n; acc := v; lo := 0x80; hi := 0xBF |}) bs'
            | _ => v :: utf8_decode_from None bs'
            end
          else replacement :: fresh
      end
  end.

Definition utf8_decode (bs : list N) : ustr := utf8_decode_from None bs.

(** [unquote(s)]: the ASCII runs are unescaped and decoded, the other
    characters kept.  [run] is the ASCII run being read, in reverse. *)
Fixpoint unquote_aux (run : str) (s : str) : ustr :=
  match s with
  | [] => utf8_decode (unquote_to_bytes (rev run))
  | c :: s' =>
      if is_ascii c then unquote_aux (c :: run) s'
      else utf8_decode (unquote_to_bytes (rev run)) ++ code c :: unquote_aux [] s'
  end.

Definition unquote (s : str) : ustr := unquote_aux [] s.

(** [s.replace("+", " ")] then [unquote]. *)
Definition plus_to_space (c : ascii) : ascii := if Ascii.eqb c "+" then " "%char else c.

Definition unquote_plus (s : str) : ustr := unquote (map plus_to_space s).

(** [str.encode("utf-8")] on one code point; a surrogate cannot be encoded. *)
Definition utf8_encode_char (c : N) : option (list N) :=
  (if c <? 0x80 then Some [c]
   else if c <? 0x800 then Some [0xC0 + c / 64; 0x80 + c mod 64]
   else if c <? 0x10000 then
     if (0xD800 <=? c) && (c <=? 0xDFFF) then None
     else Some [0xE0 + c / 4096; 0x80 + (c / 64) mod 64; 0x80 + c mod 64]
   else if c <? 0x110000 then
     Some [0xF0 + c / 262144; 0x80 + (c / 4096) mod 64;
           0x80 + (c / 64) mod 64; 0x80 + c mod 64]
   else None)%N.

Fixpoint utf8_encode (s : ustr) : option (list N) :=
  match s with
  | [] => Some []
  | c :: s' =>
      match utf8_encode_char c, utf8_encode s' with
      | Some b, Some bs => Some (b ++ bs)
      | _, _ => None
      end
  end.

(** [_ALWAYS_SAFE]: letters, digits and [_.-~]. *)
Definition always_safe (b : N) : bool :=
  ((65 <=? b) && (b <=? 90) || (97 <=? b) && (b <=? 122) || (48 <=? b) && (b <=? 57)
   || (b =? 95) || (b =? 46) || (b =? 45) || (b =? 126))%N.

Definition hex_digit (n : N) : ascii :=
  (if n <? 10 then ascii_of_N (48 + n) else ascii_of_N (55 + n))%N.

(** One byte as [quote_plus] writes it: kept, [+] for a space, or [%XX]. *)
Definition quote_byte (b : N) : str :=
  if always_safe b then [ascii_of_N b]
  else if (b =? 32)%N then ["+"%char]
  else ["%"%char; hex_digit (b / 16); hex_digit (b mod 16)].

(** The characters [quote_plus] writes. *)
Definition quoted_char (c : ascii) : bool :=
  always_safe (code c) || Ascii.eqb c "+" || Ascii.eqb c "%".

(** [quote_plus(s)]. *)
Definition quote_plus (s : ustr) : result str :=
  match utf8_encode s with
  | Some bs => Ok (flat_map quote_byte bs)
  | None => Raise UnicodeEncodeError
  end.

(** *** Query strings *)

(** A [dict] from names to lists of values, in insertion order. *)
Definition qdict := list (ustr * list ustr).

Definition dict_keys (d : qdict) : list ustr := map fst d.

Fixpoint dict_append (k v : ustr) (d : qdict) : qdict :=
  match d with
  | [] => [(k, [v])]
  | (k', vs) :: d' =>
      if bool_decide (k' = k) then (k', vs ++ [v]) :: d'
      else (k', vs) :: dict_append k v d'
  end.

Definition dict_pop (k : ustr) (d : qdict) : qdict :=
  List.filter (fun kv => negb (bool_decide (kv.1 = k))) d.

(** [parse_qsl(qs, keep_blank_values=True)]. *)
Definition parse_qsl (qs : str) : list (ustr * ustr) :=
  match qs with
  | [] => []
  | _ =>
      flat_map (fun name_value =>
                  match name_value with
                  | [] => []
                  | _ =>
                      let '(n, v) := split_first "=" name_value in
                      [(unquote_plus n, unquote_plus v)]
                  end) (split_on "&" qs)
  end.

(** [parse_qs(qs, keep_blank_values=True)]. *)
Definition parse_qs (qs : str) : qdict :=
  fold_left (fun d nv => dict_append nv.1 nv.2 d) (parse_qsl qs) [].

Fixpoint join (sep : str) (l : list str) : str :=
  match l with
  | [] => []
  | [s] => s
  | s :: l' => s ++ sep ++ join sep l'
  end.

Fixpoint sequence {A} (l : list (result A)) : result (list A) :=
  match l with
  | [] => Ok []
  | Ok a :: l' => match sequence l' with Ok r => Ok (a :: r) | Raise e => Raise e end
  | Raise e :: _ => Raise e
  end.

(** One [name=value] of an encoded query: it comes from a name of the
    dictionary and is read back as that name. *)
Definition encoded_pair (d : qdict) (item : str) : Prop :=
  exists k v qk qv,
    k ∈ dict_keys d /\ quote_plus k = Ok qk /\ quote_plus v = Ok qv
    /\ item = qk ++ "="%char :: qv.

(** [urlencode(d, doseq=True)]. *)
Definition urlencode (d : qdict) : result str :=
  match
    sequence
      (flat_map (fun kv =>
                   match quote_plus kv.1 with
                   | Raise e => [Raise e]
                   | Ok k =>
                       map (fun elt =>
                              match quote_plus elt with
                              | Ok v => Ok (k ++ "="%char :: v)
                              | Raise e => Raise e
                              end) kv.2
                   end) d)
  with
  | Ok l => Ok (join ["&"%char] l)
  | Raise e => Raise e
  end.

End Urllib.

(** ** unit_history_sync.py: the URL helpers *)

Module UnitUrl.
Import Py Exn Urllib.

(** [k.lower()] on decoded text.  It is exact below 256; a code point from
    256 on is left as it is, which keeps the test against [remove_keys]
    exact, since no such character lowers to letters of those keys alone. *)
Definition lower_cp (c : N) : N :=
  if (c <? 256)%N then code (lower_char (ascii_of_N c)) else c.

Definition ulower (s : ustr) : ustr := map lower_cp s.

Definition remove_keys : list ustr :=
  map (fun s => to_ustr (lit s))
      ["w"; "h"; "width"; "height"; "fit"; "crop"; "rect"; "q"; "quality";
       "auto"; "format"; "dpr"]%string.

Definition is_remove_key (k : ustr) : bool := bool_decide (ulower k ∈ remove_keys).

(** The loop over [list(qs.keys())]: the dictionary left, and [changed]. *)
Definition drop_remove_keys (qs : qdict) : qdict * bool :=
  fold_left (fun '(d, changed) k =>
               if is_remove_key k then (dict_pop k d, true) else (d, changed))
            (dict_keys qs) (qs, false).

Section WithChecks.
Context `{NetlocChecks}.

(** [strip_downscaling_params(url)]. *)
Definition strip_downscaling_params (url : str) : str :=
  match urlparse url with
  | Raise _ => url
  | Ok pu =>
      let qs := parse_qs (query pu) in
      let '(qs, changed) := drop_remove_keys qs in
      if negb changed then url
      else
        match urlencode qs with
        | Raise _ => url
        | Ok new_query =>
            urlunparse {| scheme := scheme pu; netloc := netloc pu; path := path pu;
                          params := params pu; query := new_query;
                          fragment := fragment pu |}
        end
  end.

(** [os.path.splitext(p)[1]] for POSIX paths: from the last dot of the last
    component on, unless only dots precede it there. *)
Definition splitext_ext (p : str) : str :=
  let name := match rfind_char "/" p with Some j => drop (S j) p | None => p end in
  match rfind_char "." name with
  | Some i =>
      if forallb (fun c => Ascii.eqb c ".") (take i name) then []
      else drop i name
  | None => []
  end.

Definition image_exts : list str :=
  map lit [".jpg"; ".jpeg"; ".png"; ".gif"; ".webp"; ".bmp"; ".tif"; ".tiff"; ".heic"]%string.

(** [file_ext_from_url(url)]; [urlparse] is called outside any [try]. *)
Definition file_ext_from_url (url : str) : result str :=
  match urlparse url with
  | Raise e => Raise e
  | Ok pu =>
      let ext := lower (splitext_ext (path pu)) in
      Ok (if str_in ext image_exts then ext else lit ".jpg")
  end.

End WithChecks.

(** [needle in s]. *)
Fixpoint starts_with (needle s : str) : bool :=
  match needle, s with
  | [], _ => true
  | c :: n', x :: s' => Ascii.eqb c x && starts_with n' s'
  | _ :: _, [] => false
  end.

Fixpoint contains (needle s : str) : bool :=
  starts_with needle s
  || match s with [] => false | _ :: s' => contains needle s' end.

(** [is_login_page(url)]. *)
Definition is_login_page (url : str) : bool :=
  let u := lower url in
  contains (lit "signin") u || contains (lit "login") u || contains (lit "okta") u
  || (contains (lit "auth") u && contains (lit "churchofjesuschrist.org") u).

End UnitUrl.

(** ** JSON documents and files *)

Module Json.
Import Py.

(** What [json.dump] is given: the scripts build their documents from
    strings, integers, booleans, lists and dictionaries.  A dictionary keeps
    its keys in insertion order. *)
#[local] Unset Elimination Schemes.
Inductive json :=
| JNull
| JBool (b : bool)
| JInt (n : Z)
| JStr (s : str)
| JList (items : list json)
| JDict (fields : list (str * json)).
#[local] Set Elimination Schemes.

Definition is_scalar (j : json) : bool :=
  match j with
  | JList _ | JDict _ => false
  | _ => true
  end.

(** [d[k] = v]. *)
Fixpoint dict_set (k : str) (v : json) (fields : list (str * json)) : list (str * json) :=
  match fields with
  | [] => [(k, v)]
  | (k', v') :: fields' =>
      if bool_decide (k' = k) then (k, v) :: fields'
      else (k', v') :: dict_set k v fields'
  end.

(** [d.get(k)]. *)
Fixpoint dict_get (k : str) (fields : list (str * json)) : option json :=
  match fields with
  | [] => None
  | (k', v) :: fields' => if bool_decide (k' = k) then Some v else dict_get k fields'
  end.

(** [bool(x)] of a looked-up value. *)
Definition truthy (j : option json) : bool :=
  match j with
  | None | Some JNull | Some (JBool false) | Some (JInt 0) | Some (JStr [])
  | Some (JList []) | Some (JDict []) => false
  | _ => true
  end.

End Json.

Module Files.
Import Py Json.

(** What a file holds: text, bytes, a JSON document as [json.dump] wrote it,
    or a zip archive, of which the member names are kept. *)
Inductive contents :=
| Text (s : str)
| Bytes (b : str)
| Document (j : json)
| Zip (members : list str).

(** The part of the file system the scripts touch.  Its operations are taken
    to succeed. *)
Record fs := { files : gmap str contents; dirs : gset str }.

Definition write_file (p : str) (c : contents) (f : fs) : fs :=
  {| files := <[p := c]> (files f); dirs := dirs f |}.

(** [os.makedirs(p, exist_ok=True)], [Path.mkdir(parents=True,
    exist_ok=True)]: the directory itself is recorded. *)
Definition make_dirs (p : str) (f : fs) : fs :=
  {| files := files f; dirs := {[p]} ∪ dirs f |}.

(** [Path.exists()]. *)
Definition path_exists (p : str) (f : fs) : bool :=
  bool_decide (is_Some (files f !! p)) || bool_decide (p ∈ dirs f).

(** [os.path.dirname(p)]: what precedes the last slash. *)
Definition dirname (p : str) : str :=
  match Urllib.rfind_char "/" p with
  | Some i => take i p
  | None => []
  end.

(** [a / b] for paths. *)
Definition path_join (a b : str) : str := a ++ "/"%char :: b.

(** Decimal notation of an integer, and [f"{n:0{w}d}"] for a natural [n]. *)
Definition decimal (n : Z) : str :=
  lit (DecimalString.NilZero.string_of_int (Z.to_int n)).

Definition zero_padded (width : nat) (n : Z) : str :=
  let s := decimal n in
  if (0 <=? n) then replicate (width - length s) "0"%char ++ s else s.

End Files.

(** ** build_cfm_weekly.py *)

Module Cfm.
Import Py Exn Json Files IsoWeek Srcset.

Definition BASE : str := lit "https://www.churchofjesuschrist.org".
Definition MANUAL_PATH_prefix : str :=
  lit "/study/manual/come-follow-me-for-home-and-church-old-testament-2026/".
Definition MANUAL_PATH_suffix : str := lit "?lang=eng".
Definition OUT_JSON : str := lit "data/come_follow_me_this_week.json".

(** [MANUAL_PATH.format(week=week)]. *)
Definition MANUAL_PATH (week : Z) : str :=
  MANUAL_PATH_prefix ++ zero_padded 2 week ++ MANUAL_PATH_suffix.

(** An element of the parsed page: its attributes, and the text
    [get_text(" ", strip=True)] gives. *)
Record tag := { attrs : list (str * str); text : str }.

(** [tag.get(name, "")]. *)
Definition tag_get (t : tag) (name : str) : str :=
  match List.find (fun kv => bool_decide (kv.1 = name)) (attrs t) with
  | Some kv => kv.2
  | None => []
  end.

(** A parsed page, as the script questions it. *)
Record soup := {
  select_one : str -> option tag;   (* first match of a CSS selector *)
  find : str -> option tag          (* first element of a name *)
}.

(** [requests.Response]: the status and the decoded body. *)
Record response := { status_code : Z; body : str }.

(** What one run meets outside the program. *)
Class Outside := {
  today : date;                            (* date.today() *)
  requests_get : str -> result response;   (* requests.get(url, timeout=30, headers=...) *)
  now_utc_isoformat : str;                 (* datetime.now(timezone.utc).isoformat() *)
  BeautifulSoup : str -> soup;             (* BeautifulSoup(text, "html.parser") *)
  urljoin : str -> str -> str              (* urllib.parse.urljoin *)
}.

(** What a run leaves: the files, and the lines printed. *)
Inductive line :=
| ErrorScraping (week : Z) (e : exn)        (* on stderr *)
| Wrote (week : Z) (big_heading : str).

Record world := { disk : fs; printed : list line }.

Section Run.
Context `{Outside}.

(** [Response.raise_for_status]: statuses 400 to 599 raise. *)
Definition raise_for_status (r : response) : result unit :=
  if (400 <=? status_code r) && (status_code r <? 600) then Raise HTTPError
  else Ok tt.

Definition absolute_url (u : str) : str :=
  match u with [] => [] | _ => urljoin BASE u end.

Definition get_text_or_empty (el : option tag) : str :=
  match el with Some t => text t | None => [] end.

Definition pick_best_image_from_tag (img_tag : option tag) : str :=
  match img_tag with
  | None => []
  | Some t =>
      match _largest_from_srcset (tag_get t (lit "srcset")) with
      | (_ :: _) as best => absolute_url best
      | [] =>
          match tag_get t (lit "src") with
          | (_ :: _) as src => absolute_url src
          | [] => []
          end
      end
  end.

Definition pick_first_image (s : soup) : str :=
  match pick_best_image_from_tag (select_one s (lit "img#img1")) with
  | (_ :: _) as best => best
  | [] =>
      match pick_best_image_from_tag (select_one s (lit "figure img")) with
      | (_ :: _) as best => best
      | [] =>
          match pick_best_image_from_tag (find s (lit "img")) with
          | (_ :: _) as best => best
          | [] => []
          end
      end
  end.

(** [scrape_week(week)]. *)
Definition scrape_week (week : Z) : result json :=
  let url := BASE ++ MANUAL_PATH week in
  match requests_get url with
  | Raise e => Raise e
  | Ok r =>
      match raise_for_status r with
      | Raise e => Raise e
      | Ok _ =>
          let s := BeautifulSoup (body r) in
          let small_heading := get_text_or_empty (select_one s (lit "p.title-number")) in
          let big_heading := get_text_or_empty (select_one s (lit "h1")) in
          let image_url := pick_first_image s in
          Ok (JDict [(lit "generated_at_utc", JStr now_utc_isoformat);
                     (lit "week_number", JInt week);
                     (lit "source_url", JStr url);
                     (lit "image_url", JStr image_url);
                     (lit "small_heading", JStr small_heading);
                     (lit "big_heading", JStr big_heading)])
      end
  end.

(** [payload.get("big_heading", "")] as printed. *)
Definition big_heading_of (payload : json) : str :=
  match payload with
  | JDict fields =>
      match dict_get (lit "big_heading") fields with
      | Some (JStr s) => s
      | _ => []
      end
  | _ => []
  end.

(** [main()]. *)
Definition main (w : world) : result unit * world :=
  let week := iso_week_number today in
  match scrape_week week with
  | Raise e =>
      (Raise e, {| disk := disk w; printed := printed w ++ [ErrorScraping week e] |})
  | Ok payload =>
      let d := make_dirs (dirname OUT_JSON) (disk w) in
      let d := write_file OUT_JSON (Document payload) d in
      (Ok tt, {| disk := d; printed := printed w ++ [Wrote week (big_heading_of payload)] |})
  end.

(** The fetch of the week's page fails: [requests.get] raises, or the
    status is one [raise_for_status] raises for. *)
Definition fetch_fails : Prop :=
  let url := BASE ++ MANUAL_PATH (iso_week_number today) in
  match requests_get url with
  | Raise _ => True
  | Ok r => 400 <= status_code r < 600
  end.

End Run.

End Cfm.

(** ** unit_history_sync.py: configuration, browser and files *)

Module Unit.
Import Py Exn Json Files Urllib UnitUrl Srcset SafeName.

Definition BASE : str := lit "https://unithistory.churchofjesuschrist.org".
Definition START_URL : str := lit "https://unithistory.churchofjesuschrist.org/".
Definition STORY_CARD_SELECTOR : str := lit ".sc-1m4vew7-0.bYMucc".

(** *** Configuration *)

Record config := {
  OUT_DIR : str;
  ZIP_NAME : str;
  MANIFEST_PATH : str;
  HEADLESS : bool;
  SKIP_EXISTING_FOLDERS : bool;
  STORAGE_STATE_B64 : str;
  LDS_USERNAME : str;
  LDS_PASSWORD : str
}.

(** [os.getenv(name, dflt).strip() or dflt]. *)
Definition getenv_path (environ : str -> option str) (name dflt : str) : str :=
  match strip (default dflt (environ name)) with
  | [] => dflt
  | v => v
  end.

(** [os.getenv(name, "1").strip().lower() not in ("0", "false", "no", "")]. *)
Definition getenv_flag (environ : str -> option str) (name : str) : bool :=
  negb (str_in (lower (strip (default (lit "1") (environ name))))
               (map lit ["0"; "false"; "no"; ""]%string)).

(** [os.getenv(name, "").strip()]. *)
Definition getenv_text (environ : str -> option str) (name : str) : str :=
  strip (default [] (environ name)).

(** The module-level settings, read from the environment. *)
Definition config_of_environ (environ : str -> option str) : config :=
  {| OUT_DIR := getenv_path environ (lit "OUT_DIR") (lit "unit-history/events");
     ZIP_NAME := getenv_path environ (lit "ZIP_NAME") (lit "unit-history/unit_history_export.zip");
     MANIFEST_PATH := getenv_path environ (lit "MANIFEST_PATH") (lit "unit-history/manifest.json");
     HEADLESS := getenv_flag environ (lit "HEADLESS");
     SKIP_EXISTING_FOLDERS := getenv_flag environ (lit "SKIP_EXISTING_FOLDERS");
     STORAGE_STATE_B64 := getenv_text environ (lit "UNIT_HISTORY_STORAGE_STATE_B64");
     LDS_USERNAME := getenv_text environ (lit "LDS_USERNAME");
     LDS_PASSWORD := getenv_text environ (lit "LDS_PASSWORD") |}.

(** *** The browser *)

(** A Playwright locator, as the script builds it. *)
Inductive locator :=
| Loc (selector : str)                     (* page.locator(selector) *)
| Sub (l : locator) (selector : str)       (* l.locator(selector) *)
| First (l : locator)                      (* l.first *)
| Nth (l : locator) (i : nat).             (* l.nth(i) *)

#[global] Instance locator_eq_dec : EqDecision locator.
Proof. solve_decision. Defined.

(** [context.request.get]: the response, whose body may fail to be read. *)
Record response := { resp_ok : bool; resp_body : result str }.

(** The calls the script makes on Playwright; time-outs are left out. *)
Inductive action :=
| Launch (headless : bool)                 (* p.chromium.launch(headless=...) *)
| NewContext (storage_state : option contents)
| NewPage
| StorageState                             (* context.storage_state(path=...) *)
| CloseContext
| CloseBrowser
| Goto (url : str)
| WaitForTimeout (ms : Z)
| WaitForSelector (selector : str)
| Count (l : locator)
| Fill (l : locator) (value : str)
| Click (l : locator)
| ScrollIntoView (l : locator)
| InnerText (l : locator)
| GetAttribute (l : locator) (name : str)
| BoundingBox (l : locator)
| KeyboardPress (key : str)
| MouseWheel (dx dy : Z)
| ScrollToTop                              (* page.evaluate("() => window.scrollTo(0, 0)") *)
| ImageSources                             (* the page.evaluate of extract_image_urls_from_dom *)
| Screenshot                               (* page.screenshot(path=..., full_page=True) *)
| Content                                  (* page.content() *)
| RequestGet (url : str).                  (* context.request.get(url) *)

Definition reply (a : action) : Type :=
  match a with
  | StorageState | InnerText _ | Screenshot | Content => str
  | Count _ => nat
  | GetAttribute _ _ => option str
  | BoundingBox _ => option (Q * Q)        (* width and height *)
  | ImageSources => list str
  | RequestGet _ => response
  | _ => unit
  end.

(** What the script runs against: a browser that answers every call from
    its state and moves on, the URL of the page, the clock, and the library
    functions taken as given. *)
Class Browser := {
  B : Type;
  answer : forall a : action, B -> result (reply a) * B;
  page_url : B -> str;                     (* page.url *)
  strftime : str -> B -> str;              (* time.strftime(fmt) *)
  strftime_gmtime : str -> B -> str;       (* time.strftime(fmt, time.gmtime()) *)
  b64decode : str -> result str;           (* base64.b64decode *)
  urljoin : str -> str -> result str       (* urllib.parse.urljoin *)
}.

(** One call and what came of it. *)
Inductive event :=
| Called (a : action) (r : result (reply a)).

Section Script.
Context `{Browser} `{NetlocChecks}.

(** The state of a run: the browser, the files, and the calls made so far,
    latest first. *)
Record world := { browser : B; disk : fs; trace : list event }.

(** A computation of the script: it may raise, and it changes the world. *)
Definition M (A : Type) : Type := world -> result A * world.

Definition ret {A} (a : A) : M A := fun w => (Ok a, w).

Definition bind {A C} (m : M A) (k : A -> M C) : M C :=
  fun w => match m w with
           | (Ok a, w') => k a w'
           | (Raise e, w') => (Raise e, w')
           end.

Definition raise {A} (e : exn) : M A := fun w => (Raise e, w).

(** [try: m except Exception: h]. *)
Definition catch {A} (m : M A) (h : M A) : M A :=
  fun w => match m w with
           | (Ok a, w') => (Ok a, w')
           | (Raise _, w') => h w'
           end.

(** [try: m except PWTimeoutError: h]. *)
Definition catch_timeout {A} (m : M A) (h : M A) : M A :=
  fun w => match m w with
           | (Raise PWTimeoutError, w') => h w'
           | r => r
           end.

(** [try: m except Exception: pass]. *)
Definition attempt (m : M unit) : M unit := catch m (ret tt).

Definition lift {A} (r : result A) : M A := fun w => (r, w).

End Script.

Notation "x <- m ;; k" := (bind m (fun x => k))
  (at level 100, m at next level, right associativity).
Notation "m ;;; k" := (bind m (fun _ => k))
  (at level 100, right associativity).

Section Primitives.
Context `{Browser} `{NetlocChecks}.

(** A call on the browser, recorded in the trace. *)
Definition call (a : action) : M (reply a) :=
  fun w =>
    let '(r, b) := answer a (browser w) in
    (r, {| browser := b; disk := disk w; trace := Called a r :: trace w |}).

Definition get_url : M str := fun w => (Ok (page_url (browser w)), w).

Definition on_disk (f : fs -> fs) : M unit :=
  fun w => (Ok tt, {| browser := browser w; disk := f (disk w); trace := trace w |}).

Definition exists_on_disk (p : str) : M bool :=
  fun w => (Ok (path_exists p (disk w)), w).

(** [ensure_dir(p)]. *)
Definition ensure_dir (p : str) : M unit := on_disk (make_dirs p).

(** [save_debug(page, tag)]. *)
Definition save_debug (tag : str) : M unit :=
  fun w =>
    let ts := strftime (lit "%Y%m%d-%H%M%S") (browser w) in
    let shot := tag ++ lit "_" ++ ts ++ lit ".png" in
    let html := tag ++ lit "_" ++ ts ++ lit ".html" in
    (attempt (png <- call Screenshot ;; on_disk (write_file shot (Bytes png))) ;;;
     attempt (on_disk (write_file html (Text [])) ;;;
              c <- call Content ;;
              on_disk (write_file html (Text c)))) w.

(** [is_login_page(page.url)]. *)
Definition on_login_page : M bool :=
  u <- get_url ;; ret (is_login_page u).

(** The selector loops of [attempt_headless_login]: the first selector that
    matches is acted on; a failure moves on to the next. *)
Fixpoint first_match (selectors : list str) (act : locator -> action) : M bool :=
  match selectors with
  | [] => ret false
  | sel :: rest =>
      done <- catch (n <- call (Count (Loc sel)) ;;
                     if (0 <? n)%nat
                     then call (act (First (Loc sel))) ;;; ret true
                     else ret false)
                    (ret false) ;;
      if done then ret true else first_match rest act
  end.

End Primitives.

(** *** Logging in and opening the grid *)

Section Pages.
Context `{Browser} `{NetlocChecks}.
Variable cfg : config.

(** [write_storage_state_from_b64(path, b64)]. *)
Definition write_storage_state_from_b64 (path b64 : str) : M unit :=
  data <- lift (b64decode b64) ;;
  on_disk (write_file path (Bytes data)).

Definition selectors_user : list str :=
  map lit ["input[type='email']"; "input[name='username']"; "input#username";
           "input[id*='user']"; "input[autocomplete='username']"]%string.

Definition selectors_pass : list str :=
  map lit ["input[type='password']"; "input[name='password']"; "input#password";
           "input[autocomplete='current-password']"]%string.

Definition submit_selectors : list str :=
  map lit ["button[type='submit']"; "input[type='submit']";
           "button:has-text('Sign in')"; "button:has-text('Sign In')";
           "button:has-text('Continue')"; "button:has-text('Next')"]%string.

Definition no_username_field : exn :=
  RuntimeError (lit "Could not find username/email input on login page.").
Definition no_password_field : exn :=
  RuntimeError (lit "Could not find password input on login page.").
Definition no_credentials : exn :=
  RuntimeError (lit "No storage_state provided and LDS_USERNAME/LDS_PASSWORD not set.").
Definition still_on_login : exn :=
  RuntimeError (lit "Login still appears to be required (possibly MFA/2FA). Use UNIT_HISTORY_STORAGE_STATE_B64 instead.").

(** What follows the first wait of [attempt_headless_login] when the page
    is a login page: the user name. *)
Definition login_fill_username : M bool :=
  first_match selectors_user (fun l => Fill l (LDS_USERNAME cfg)).

Definition login_fill_password : M bool :=
  first_match selectors_pass (fun l => Fill l (LDS_PASSWORD cfg)).

(** From the password on. *)
Definition login_from_password : M unit :=
  filled_p <- login_fill_password ;;
  if negb filled_p
  then save_debug (lit "login_no_password_field") ;;; raise no_password_field
  else
    submitted <- first_match submit_selectors Click ;;
    (if negb submitted
     then attempt (call (KeyboardPress (lit "Enter")))
     else ret tt) ;;;
    call (WaitForTimeout 3000) ;;;
    again <- on_login_page ;;
    if again
    then save_debug (lit "login_still_on_login_page") ;;; raise still_on_login
    else ret tt.

(** From the user name on. *)
Definition login_from_username : M unit :=
  filled <- login_fill_username ;;
  if negb filled
  then save_debug (lit "login_no_username_field") ;;; raise no_username_field
  else login_from_password.

(** [attempt_headless_login(page)]. *)
Definition attempt_headless_login : M unit :=
  match LDS_USERNAME cfg, LDS_PASSWORD cfg with
  | _ :: _, _ :: _ =>
      call (Goto START_URL) ;;;
      call (WaitForTimeout 1500) ;;;
      login <- on_login_page ;;
      if negb login then ret tt else login_from_username
  | _, _ => raise no_credentials
  end.

Definition redirected_to_login : exn :=
  RuntimeError (lit "Redirected to login. Authentication was not valid.").
Definition story_cards_not_found : exn :=
  RuntimeError (lit "Could not find story cards using selector: " ++ STORY_CARD_SELECTOR).

(** The wait for the story cards in [open_story_grid], and what follows. *)
Definition wait_for_story_cards : M unit :=
  catch_timeout (call (WaitForSelector STORY_CARD_SELECTOR))
                (save_debug (lit "story_cards_not_found") ;;; raise story_cards_not_found) ;;;
  call (WaitForTimeout 800).

(** [open_story_grid(page)]. *)
Definition open_story_grid : M unit :=
  call (Goto START_URL) ;;;
  call (WaitForTimeout 1200) ;;;
  login <- on_login_page ;;
  if login
  then save_debug (lit "redirected_to_login") ;;; raise redirected_to_login
  else wait_for_story_cards.

(** [get_story_card_count(page)]. *)
Definition get_story_card_count : M nat := call (Count (Loc STORY_CARD_SELECTOR)).

(** The loops of [get_card_title]: the first selector whose text, stripped,
    is not empty. *)
Fixpoint first_text (card : locator) (selectors : list str) : M (option str) :=
  match selectors with
  | [] => ret None
  | sel :: rest =>
      t <- catch (t <- call (InnerText (First (Sub card sel))) ;; ret (strip t)) (ret []) ;;
      match t with
      | [] => first_text card rest
      | _ => ret (Some t)
      end
  end.

(** [get_card_title(card_locator)]. *)
Definition get_card_title (card : locator) : M str :=
  t <- first_text card (map lit ["h2"; "h3"; "[role='heading']"]%string) ;;
  match t with
  | Some t => ret t
  | None =>
      t <- first_text card (map lit ["strong"; "b"]%string) ;;
      match t with
      | Some t => ret t
      | None =>
          a <- catch (a <- call (GetAttribute card (lit "aria-label")) ;;
                      ret (strip (default [] a))) (ret []) ;;
          match a with
          | _ :: _ => ret a
          | [] =>
              txt <- catch (txt <- call (InnerText card) ;;
                            ret (sub_runs is_space [" "%char] (strip txt))) (ret []) ;;
              match txt with
              | _ :: _ => ret (take 80 txt)
              | [] => ret (lit "Untitled")
              end
          end
      end
  end.

(** *** The story page *)

(** [scroll_to_load(page, max_scrolls, pause_ms)]. *)
Fixpoint scroll_steps (n : nat) (pause_ms : Z) : M unit :=
  match n with
  | O => ret tt
  | S n' => call (MouseWheel 0 1800) ;;; call (WaitForTimeout pause_ms) ;;; scroll_steps n' pause_ms
  end.

Definition scroll_to_load (max_scrolls : nat) (pause_ms : Z) : M unit :=
  scroll_steps max_scrolls pause_ms ;;;
  call ScrollToTop ;;;
  call (WaitForTimeout 250).

Definition month_selector : str :=
  lit "text=/\b(Jan|January|Feb|February|Mar|March|Apr|April|May|Jun|June|Jul|July|Aug|August|Sep|Sept|September|Oct|October|Nov|November|Dec|December)\b/i".

(** [guess_story_title_date(page)]. *)
Definition guess_story_title_date : M (str * str) :=
  title <- catch (t <- call (InnerText (First (Loc (lit "h1")))) ;;
                  ret (match strip t with [] => lit "Untitled" | t' => t' end))
                 (ret (lit "Untitled")) ;;
  date_str <- catch (d <- call (InnerText (First (Loc month_selector))) ;;
                     let d := strip d in
                     ret (if (40 <? length d)%nat then strip (take 40 d) else d))
                    (ret []) ;;
  ret (title, date_str).

(** [download_file_via_context(context, url, dest_path)]. *)
Definition download_file_via_context (url dest_path : str) : M bool :=
  catch (resp <- call (RequestGet url) ;;
         if negb (resp_ok resp) then ret false
         else
           data <- lift (resp_body resp) ;;
           on_disk (write_file dest_path (Bytes data)) ;;;
           ret true)
        (ret false).

(** [absolutize(href)]. *)
Definition absolutize (href : str) : result str :=
  match href with
  | [] => Ok []
  | _ => urljoin BASE href
  end.

(** [normalize_img_url(u)]; the characters stripped are the space and the
    two quotes. *)
Definition normalize_img_url (u : str) : result str :=
  match u with
  | [] => Ok []
  | _ =>
      let u := strip_chars [" "%char; "034"%char; "'"%char] (strip u) in
      let u := if starts_with (lit "//") u then lit "https:" ++ u else u in
      if starts_with (lit "/") u then absolutize u else Ok u
  end.

(** [_try_close_lightbox(page)]. *)
Definition close_selectors : list str :=
  map lit ["button[aria-label*='Close']"; "button[title*='Close']";
           "[role='button'][aria-label*='Close']"; "button:has-text('Close')";
           "button:has-text('close')"]%string
  ++ [lit "button:has-text('" ++ "215"%char :: lit "')"]   (* the multiplication sign *)
  ++ map lit ["button:has-text('X')"; "svg[aria-label*='Close']"]%string.

Fixpoint click_first_close (selectors : list str) : M unit :=
  match selectors with
  | [] => ret tt
  | sel :: rest =>
      done <- catch (n <- call (Count (First (Loc sel))) ;;
                     if (0 <? n)%nat
                     then call (Click (First (Loc sel))) ;;;
                          call (WaitForTimeout 250) ;;; ret true
                     else ret false)
                    (ret false) ;;
      if done then ret tt else click_first_close rest
  end.

Definition _try_close_lightbox : M unit :=
  attempt (call (KeyboardPress (lit "Escape")) ;;; call (WaitForTimeout 250)) ;;;
  click_first_close close_selectors.

(** [seen = set(); out = []; for u in l: if u and u not in seen: ...]. *)
Fixpoint dedupe_aux (seen : list str) (l : list str) : list str :=
  match l with
  | [] => []
  | u :: l' =>
      if non_empty u && negb (str_in u seen) then u :: dedupe_aux (u :: seen) l'
      else dedupe_aux seen l'
  end.

Definition dedupe (l : list str) : list str := dedupe_aux [] l.

End Pages.

(** *** Collecting the image URLs *)

Section Story.
Context `{Browser} `{NetlocChecks}.
Variable cfg : config.

Definition thumb_selectors : list str := map lit ["main img"; "article img"; "img"]%string.

Definition lightbox_img_selectors : list str :=
  map lit ["[role='dialog'] img"; ".modal img"; ".lightbox img";
           "div[aria-modal='true'] img"; "img[style*='max-width']";
           "img[style*='maxHeight']"]%string.

(** The first selector with a match, in [collect_fullsize_urls_via_lightbox]. *)
Fixpoint first_thumbs (selectors : list str) : M (option locator) :=
  match selectors with
  | [] => ret None
  | sel :: rest =>
      n <- call (Count (Loc sel)) ;;
      if (0 <? n)%nat then ret (Some (Loc sel)) else first_thumbs rest
  end.

(** The indices of the thumbnails large enough to be clicked. *)
Fixpoint candidate_indices (thumbs : locator) (indices : list nat) : M (list nat) :=
  match indices with
  | [] => ret []
  | i :: rest =>
      keep <- catch (box <- call (BoundingBox (Nth thumbs i)) ;;
                     match box with
                     | None => ret false
                     | Some (w, h) =>
                         if Qlt_le_dec w 120 then ret false
                         else if Qlt_le_dec h 90 then ret false
                         else
                           call (GetAttribute (Nth thumbs i) (lit "src")) ;;;
                           call (GetAttribute (Nth thumbs i) (lit "srcset")) ;;;
                           ret true
                     end)
                    (ret false) ;;
      more <- candidate_indices thumbs rest ;;
      ret (if keep then i :: more else more)
  end.

Fixpoint dedupe_nat (seen : list nat) (l : list nat) : list nat :=
  match l with
  | [] => []
  | i :: l' =>
      if bool_decide (i ∈ seen) then dedupe_nat seen l'
      else i :: dedupe_nat (i :: seen) l'
  end.

(** The loop over the lightbox selectors; [best] is carried from one
    selector to the next, also through a failure. *)
Fixpoint lightbox_best (selectors : list str) (best : str) : M str :=
  match selectors with
  | [] => ret best
  | sel :: rest =>
      fun w =>
        let img := First (Loc sel) in
        (* the body of the [try], with the value [best] has when it ends *)
        let body : M (str * bool) :=
          fun w0 =>
            match call (Count img) w0 with
            | (Raise _, w1) => (Ok (best, false), w1)
            | (Ok O, w1) => (Ok (best, false), w1)
            | (Ok (S _), w1) =>
                match call (GetAttribute img (lit "srcset")) w1 with
                | (Raise _, w2) => (Ok (best, false), w2)
                | (Ok srcset, w2) =>
                    let srcset := default [] srcset in
                    let step1 : result str * str :=
                      (* [best] after the srcset branch, or the failure in it *)
                      match strip srcset with
                      | [] => (Ok best, best)
                      | _ =>
                          let picked := pick_largest_from_srcset srcset in
                          match normalize_img_url picked with
                          | Ok b => (Ok b, b)
                          | Raise e => (Raise e, picked)
                          end
                      end in
                    match step1 with
                    | (Raise _, b) => (Ok (b, false), w2)
                    | (Ok _, b) =>
                        match b with
                        | _ :: _ => (Ok (b, true), w2)
                        | [] =>
                            match call (GetAttribute img (lit "src")) w2 with
                            | (Raise _, w3) => (Ok (b, false), w3)
                            | (Ok src, w3) =>
                                match normalize_img_url (default [] src) with
                                | Raise _ => (Ok (b, false), w3)
                                | Ok b' => (Ok (b', non_empty b'), w3)
                                end
                            end
                        end
                    end
                end
            end in
        match body w with
        | (Ok (b, true), w') => (Ok b, w')
        | (Ok (b, false), w') => lightbox_best rest b w'
        | (Raise e, w') => (Raise e, w')
        end
  end.

(** One thumbnail of [collect_fullsize_urls_via_lightbox]: the URL found,
    if any. *)
Definition open_thumbnail (thumbs : locator) (idx : nat) : M (option str) :=
  let thumb := Nth thumbs idx in
  fun w =>
    let opened : M bool :=
      call (ScrollIntoView thumb) ;;;
      call (WaitForTimeout 150) ;;;
      catch (call (Click thumb) ;;; ret true)
            (catch (call (Click (Sub thumb (lit "xpath=.."))) ;;; ret true) (ret false)) in
    match opened w with
    | (Raise _, w1) => (_try_close_lightbox ;;; ret None) w1
    | (Ok false, w1) => (Ok None, w1)
    | (Ok true, w1) =>
        match (call (WaitForTimeout 350) ;;; lightbox_best lightbox_img_selectors []) w1 with
        | (Raise _, w2) => (_try_close_lightbox ;;; ret None) w2
        | (Ok best, w2) =>
            let found := match best with [] => None | _ => Some best end in
            match (_try_close_lightbox ;;; call (WaitForTimeout 150)) w2 with
            | (Raise _, w3) =>
                (* the URL was appended before the failure *)
                (_try_close_lightbox ;;; ret found) w3
            | (Ok _, w3) => (Ok found, w3)
            end
        end
    end.

Fixpoint open_thumbnails (thumbs : locator) (indices : list nat) : M (list str) :=
  match indices with
  | [] => ret []
  | idx :: rest =>
      u <- open_thumbnail thumbs idx ;;
      more <- open_thumbnails thumbs rest ;;
      ret (match u with Some u => u :: more | None => more end)
  end.

(** [collect_fullsize_urls_via_lightbox(page)]. *)
Definition collect_fullsize_urls_via_lightbox : M (list str) :=
  thumbs <- first_thumbs thumb_selectors ;;
  match thumbs with
  | None => ret []
  | Some thumbs =>
      n <- call (Count thumbs) ;;
      if (n =? 0)%nat then ret []
      else
        count <- call (Count thumbs) ;;
        indices <- candidate_indices thumbs (seq 0 count) ;;
        let ordered := dedupe_nat [] indices in
        full_urls <- open_thumbnails thumbs ordered ;;
        ret (dedupe (map strip_downscaling_params full_urls))
  end.

(** [a <= b] for strings, as [list.sort] compares them. *)
Fixpoint str_leb (a b : str) : bool :=
  match a, b with
  | [], _ => true
  | _ :: _, [] => false
  | x :: a', y :: b' =>
      (code x <? code y)%N || ((code x =? code y)%N && str_leb a' b')
  end.

Fixpoint insert_sorted (u : str) (l : list str) : list str :=
  match l with
  | [] => [u]
  | v :: l' => if str_leb u v then u :: l else v :: insert_sorted u l'
  end.

Definition sorted (l : list str) : list str := foldr insert_sorted [] l.

Fixpoint unique (l : list str) : list str :=
  match l with
  | [] => []
  | u :: l' => if str_in u l' then unique l' else u :: unique l'
  end.

Fixpoint traverse {A C} (f : A -> result C) (l : list A) : result (list C) :=
  match l with
  | [] => Ok []
  | a :: l' =>
      match f a with
      | Raise e => Raise e
      | Ok c => match traverse f l' with Ok r => Ok (c :: r) | Raise e => Raise e end
      end
  end.

(** One string of the page in [extract_image_urls_from_dom]: the URL it
    adds to the set, if any. *)
Definition url_of_item (item : str) : result (list str) :=
  match item with
  | [] => Ok []
  | _ =>
      let item := strip item in
      let picked :=
        if mem ","%char item && (mem "w"%char item || mem "x"%char item)
        then pick_largest_from_srcset item else item in
      match normalize_img_url picked with
      | Raise e => Raise e
      | Ok [] => Ok []
      | Ok u => Ok [u]
      end
  end.

(** [extract_image_urls_from_dom(page)]: the set, without the [data:] and
    [blob:] URLs, sorted. *)
Definition extract_image_urls_from_dom : M (list str) :=
  raw <- call ImageSources ;;
  out <- lift (traverse url_of_item raw) ;;
  let cleaned :=
    List.filter (fun u => negb (starts_with (lit "data:") (lower u)
                            || starts_with (lit "blob:") (lower u)))
                (unique (concat out)) in
  ret (sorted cleaned).

(** *** One story *)

(** One entry of [meta["images"]]. *)
Definition image_entry (idx : nat) (img_url dest : str) (ok : bool) : json :=
  JDict [(lit "index", JInt (Z.of_nat idx)); (lit "url", JStr img_url);
         (lit "file", JStr dest); (lit "downloaded", JBool ok)].

(** The body of the download loop for the image [idx]: the entry added. *)
Definition download_image (story_folder : str) (idx : nat) (img_url : str) : M json :=
  ext <- lift (file_ext_from_url img_url) ;;
  let fname := zero_padded 3 (Z.of_nat idx) ++ ext in
  let dest := path_join story_folder fname in
  ok <- download_file_via_context img_url dest ;;
  ok <- (if negb ok
         then call (WaitForTimeout 600) ;;; download_file_via_context img_url dest
         else ret ok) ;;
  ret (image_entry idx img_url dest ok).

(** [for idx, img_url in enumerate(image_urls, start=idx)]. *)
Fixpoint download_images (story_folder : str) (idx : nat) (image_urls : list str) : M (list json) :=
  match image_urls with
  | [] => ret []
  | img_url :: rest =>
      entry <- download_image story_folder idx img_url ;;
      entries <- download_images story_folder (S idx) rest ;;
      ret (entry :: entries)
  end.

Definition story_meta (final_url title date_str story_folder : str)
    (found : nat) (images : list json) : list (str * json) :=
  [(lit "final_url", JStr final_url); (lit "title", JStr title);
   (lit "date_text", JStr date_str); (lit "folder", JStr story_folder);
   (lit "image_count_found", JInt (Z.of_nat found)); (lit "images", JList images)].

Definition skipped_meta (final_url title date_str story_folder : str) : list (str * json) :=
  [(lit "final_url", JStr final_url); (lit "title", JStr title);
   (lit "date_text", JStr date_str); (lit "skipped_existing_folder", JBool true);
   (lit "folder", JStr story_folder); (lit "image_count_found", JInt 0);
   (lit "images", JList [])].

(** The folder of the story: [out_root / folder_base]. *)
Definition story_folder_of (out_root title date_str : str) : str :=
  let folder_base := safe_name title default_max_len in
  let folder_base :=
    match date_str with
    | [] => folder_base
    | _ => safe_name (folder_base ++ lit " - " ++ date_str) default_max_len
    end in
  path_join out_root folder_base.

(** [download_current_story] from the skip rule on. *)
Definition story_from_folder (title date_str story_folder : str) : M (list (str * json)) :=
  there <- exists_on_disk story_folder ;;
  if SKIP_EXISTING_FOLDERS cfg && there
  then final_url <- get_url ;; ret (skipped_meta final_url title date_str story_folder)
  else
    ensure_dir story_folder ;;;
    image_urls <- collect_fullsize_urls_via_lightbox ;;
    image_urls <- (match image_urls with
                   | [] =>
                       dom_urls <- extract_image_urls_from_dom ;;
                       ret (dedupe (map strip_downscaling_params dom_urls))
                   | _ => ret image_urls
                   end) ;;
    final_url <- get_url ;;
    images <- download_images story_folder 1 image_urls ;;
    let meta := story_meta final_url title date_str story_folder (length image_urls) images in
    on_disk (write_file (path_join story_folder (lit "story.json")) (Document (JDict meta))) ;;;
    ret meta.

(** The start of [download_current_story]: the wait for the heading, the
    scrolling, and the title and date read off the page. *)
Definition story_heading : M (str * str) :=
  catch_timeout (call (WaitForSelector (lit "h1"))) (save_debug (lit "story_no_h1")) ;;;
  scroll_to_load 18 350 ;;;
  guess_story_title_date.

(** [download_current_story(page, context, out_root)]. *)
Definition download_current_story (out_root : str) : M (list (str * json)) :=
  td <- story_heading ;;
  story_from_folder td.1 td.2 (story_folder_of out_root td.1 td.2).

End Story.

(** *** The run *)

Section Run.
Context `{Browser} `{NetlocChecks}.
Variable cfg : config.

(** [zip_folder(root, zip_name)]: the archive lists the files below [root]
    by their path relative to it. *)
Definition members_below (root : str) (f : fs) : list str :=
  let prefix := root ++ ["/"%char] in
  omap (fun p => if starts_with prefix p then Some (drop (length prefix) p) else None)
       (map fst (map_to_list (files f))).

Definition zip_folder (root zip_name : str) : M unit :=
  ensure_dir (dirname zip_name) ;;;
  fun w => on_disk (write_file zip_name (Zip (members_below root (disk w)))) w.

Definition storage_state_path : str := lit "storage_state.json".

(** The context and page of [main]: from the stored state, or by logging in. *)
Definition open_context : M unit :=
  call (Launch (HEADLESS cfg)) ;;;
  match STORAGE_STATE_B64 cfg with
  | _ :: _ =>
      write_storage_state_from_b64 storage_state_path (STORAGE_STATE_B64 cfg) ;;;
      (fun w => call (NewContext (files (disk w) !! storage_state_path)) w) ;;;
      call NewPage
  | [] =>
      call (NewContext None) ;;;
      call NewPage ;;;
      attempt_headless_login cfg ;;;
      state <- call StorageState ;;
      on_disk (write_file storage_state_path (Text state)) ;;;
      call CloseContext ;;;
      (fun w => call (NewContext (files (disk w) !! storage_state_path)) w) ;;;
      call NewPage
  end.

Definition zero_cards : exn :=
  RuntimeError (lit "Found zero cards; selector is wrong or page didn't load.").
Definition bounced_to_login : exn :=
  RuntimeError (lit "Bounced to login mid-run. Auth is not valid.").

(** What the loop over the cards carries: [all_meta], [processed], [skipped]. *)
Record tally := { all_meta : list json; processed : Z; skipped : Z }.

(** [for i in range(total)], from card [i] on. *)
Fixpoint stories (out_root : str) (indices : list nat) (t : tally) : M tally :=
  match indices with
  | [] => ret t
  | i :: rest =>
      open_story_grid ;;;
      n <- call (Count (Loc STORY_CARD_SELECTOR)) ;;
      if (n <=? i)%nat then ret t
      else
        let card := Nth (Loc STORY_CARD_SELECTOR) i in
        card_title <- get_card_title card ;;
        clicked <- catch (call (Click card) ;;; ret true) (ret false) ;;
        clicked <- (if clicked then ret true
                    else catch (call (Click (First (Sub card (lit "a")))) ;;; ret true)
                               (ret false)) ;;
        if negb clicked
        then save_debug (lit "cannot_click_card_" ++ decimal (Z.of_nat i + 1)) ;;;
             stories out_root rest t
        else
          login <- on_login_page ;;
          if login
          then save_debug (lit "login_bounce_story_" ++ decimal (Z.of_nat i + 1)) ;;;
               raise bounced_to_login
          else
            meta <- download_current_story cfg out_root ;;
            let meta := dict_set (lit "grid_title_guess") (JStr card_title) meta in
            let t :=
              if truthy (dict_get (lit "skipped_existing_folder") meta)
              then {| all_meta := all_meta t ++ [JDict meta];
                      processed := processed t; skipped := skipped t + 1 |}
              else {| all_meta := all_meta t ++ [JDict meta];
                      processed := processed t + 1; skipped := skipped t |} in
            stories out_root rest t
  end.

(** The manifest [main] writes. *)
Definition manifest (exported_at_utc : str) (total : nat) (t : tally) : json :=
  JDict [(lit "exported_at_utc", JStr exported_at_utc);
         (lit "base", JStr BASE);
         (lit "start_url", JStr START_URL);
         (lit "headless", JBool (HEADLESS cfg));
         (lit "skip_existing_folders", JBool (SKIP_EXISTING_FOLDERS cfg));
         (lit "story_count_found_on_grid", JInt (Z.of_nat total));
         (lit "story_count_downloaded_new", JInt (processed t));
         (lit "story_count_skipped_existing", JInt (skipped t));
         (lit "stories", JList (all_meta t))].

(** The end of [main]: the manifest, the archive, and the browser closed. *)
Definition finish (out_root : str) (total : nat) (t : tally) : M unit :=
  (fun w =>
     let now := strftime_gmtime (lit "%Y-%m-%d %H:%M:%S") (browser w) in
     (ensure_dir (dirname (MANIFEST_PATH cfg)) ;;;
      on_disk (write_file (MANIFEST_PATH cfg) (Document (manifest now total t)))) w) ;;;
  zip_folder out_root (ZIP_NAME cfg) ;;;
  call CloseContext ;;;
  call CloseBrowser.

(** [main()]. *)
Definition main : M unit :=
  let out_root := OUT_DIR cfg in
  ensure_dir out_root ;;;
  open_context ;;;
  open_story_grid ;;;
  total <- get_story_card_count ;;
  if (total =? 0)%nat
  then save_debug (lit "zero_cards") ;;; raise zero_cards
  else
    t <- stories out_root (seq 0 total) {| all_meta := []; processed := 0; skipped := 0 |} ;;
    finish out_root total t.

End Run.

(** *** What a run shows *)

Section Observations.
Context `{Browser} `{NetlocChecks}.

(** Whether an answer to [context.request.get] makes a file. *)
Definition makes_file (r : result response) : bool :=
  match r with
  | Ok resp => resp_ok resp && is_ok (resp_body resp)
  | Raise _ => false
  end.

(** A download attempt in the trace: the URL asked for, and whether
    [download_file_via_context] made a file of the answer. *)
Definition download_attempt (e : event) : option (str * bool) :=
  match e with
  | Called a r =>
      match a as a0 return result (reply a0) -> option (str * bool) with
      | RequestGet url => fun r => Some (url, makes_file r)
      | _ => fun _ => None
      end r
  end.

(** The download attempts of a trace, in the order they were made. *)
Definition download_log (t : list event) : list (str * bool) :=
  omap download_attempt (rev t).

(** The debug artifacts of [save_debug(page, tag)], taken between the worlds
    [w0] and [w1]: a screenshot and the page content were asked for, in that
    order and nothing else; the HTML file is there, with the content when
    the page gave it; the screenshot file is there when the page gave one. *)
Definition debug_captured (tag : str) (w0 w1 : world) : Prop :=
  let ts := strftime (lit "%Y%m%d-%H%M%S") (browser w0) in
  let shot := tag ++ lit "_" ++ ts ++ lit ".png" in
  let html := tag ++ lit "_" ++ ts ++ lit ".html" in
  exists rs rc,
    trace w1 = Called Content rc :: Called Screenshot rs :: trace w0
    /\ is_Some (files (disk w1) !! html)
    /\ (forall c, rc = Ok c -> files (disk w1) !! html = Some (Text c))
    /\ (forall png, rs = Ok png -> files (disk w1) !! shot = Some (Bytes png)).

(** What the download loop leaves for one image URL: its attempts, one
    that succeeded or a failed one and one retry; and its entry, whose
    [downloaded] tells whether an attempt succeeded. *)
Definition image_outcome (url : str) (entry : json) (attempts : list (str * bool)) : Prop :=
  (attempts = [(url, true)] \/ exists ok, attempts = [(url, false); (url, ok)])
  /\ exists idx dest, entry = image_entry idx url dest (existsb snd attempts).

End Observations.

End Unit.

(** ** Scenarios

    Small environments to run the scripts in. *)

Module Scenarios.
Import Py Exn Json Files IsoWeek Urllib.

(** Network locations pass the two library checks. *)
Definition checks_pass : NetlocChecks :=
  {| bracketed_netloc_ok := fun _ => true; nfkc_netloc_ok := fun _ => true |}.

(** The site answers 503 on 31 December 2026. *)
Definition site_down : Cfm.Outside :=
  {| Cfm.today := Date 2026 12 31;
     Cfm.requests_get := fun _ => Ok {| Cfm.status_code := 503; Cfm.body := [] |};
     Cfm.now_utc_isoformat := lit "2026-12-31T06:00:00+00:00";
     Cfm.BeautifulSoup := fun _ => {| Cfm.select_one := fun _ => None; Cfm.find := fun _ => None |};
     Cfm.urljoin := fun base u => base ++ u |}.

(** The site answers 200 with a page that has a heading and a header image. *)
Definition site_up : Cfm.Outside :=
  {| Cfm.today := Date 2026 3 4;
     Cfm.requests_get := fun _ => Ok {| Cfm.status_code := 200; Cfm.body := lit "<html>" |};
     Cfm.now_utc_isoformat := lit "2026-03-04T06:00:00+00:00";
     Cfm.BeautifulSoup := fun _ =>
       {| Cfm.select_one := fun sel =>
            if bool_decide (sel = lit "h1")
            then Some {| Cfm.attrs := []; Cfm.text := lit "Exodus 1-6" |}
            else if bool_decide (sel = lit "img#img1")
            then Some {| Cfm.attrs := [(lit "srcset", lit "/a.jpg 60w, /b.jpg 640w")];
                         Cfm.text := [] |}
            else None;
          Cfm.find := fun _ => None |};
     Cfm.urljoin := fun base u => base ++ u |}.

(** A disk that holds last week's summary. *)
Definition last_week : json :=
  JDict [(lit "week_number", JInt 9); (lit "big_heading", JStr (lit "Genesis 42-50"))].

Definition cfm_disk : fs :=
  {| files := {[ Cfm.OUT_JSON := Document last_week ]}; dirs := {[ lit "data" ]} |}.

(** How a scripted browser behaves. *)
Record script := {
  on_login : bool;                 (* the page URL is a login page *)
  cards_appear : bool;             (* the wait for the story cards succeeds *)
  heading_appears : bool;          (* the wait for the h1 succeeds *)
  matches : Unit.locator -> nat;   (* what a locator counts *)
  sources : list str;              (* the image attributes of the page *)
  get_succeeds : str -> nat -> bool  (* a download, by URL and number of the request *)
}.

(** The state of the scripted browser: the requests made so far. *)
Definition scripted_answer (s : script) (a : Unit.action) (b : nat)
    : result (Unit.reply a) * nat :=
  match a as a0 return result (Unit.reply a0) * nat with
  | Unit.WaitForSelector sel =>
      if bool_decide (sel = lit "h1")
      then (if heading_appears s then Ok tt else Raise PWTimeoutError, b)
      else (if cards_appear s then Ok tt else Raise PWTimeoutError, b)
  | Unit.Count l => (Ok (matches s l), b)
  | Unit.InnerText l =>
      (if bool_decide (l = Unit.First (Unit.Loc (lit "h1")))
       then Ok (lit " Ward picnic ") else Raise PWTimeoutError, b)
  | Unit.GetAttribute _ _ => (Ok None, b)
  | Unit.BoundingBox _ => (Ok None, b)
  | Unit.ImageSources => (Ok (sources s), b)
  | Unit.StorageState => (Ok (lit "{}"), b)
  | Unit.Screenshot => (Ok (lit "PNG"), b)
  | Unit.Content => (Ok (lit "<html></html>"), b)
  | Unit.RequestGet url =>
      (Ok {| Unit.resp_ok := get_succeeds s url b; Unit.resp_body := Ok (lit "JPEG") |}, S b)
  | Unit.Launch _ | Unit.NewContext _ | Unit.NewPage | Unit.CloseContext
  | Unit.CloseBrowser | Unit.Goto _ | Unit.WaitForTimeout _ | Unit.Fill _ _
  | Unit.Click _ | Unit.ScrollIntoView _ | Unit.KeyboardPress _
  | Unit.MouseWheel _ _ | Unit.ScrollToTop => (Ok tt, b)
  end.

Definition scripted (s : script) : Unit.Browser :=
  {| Unit.B := nat;
     Unit.answer := scripted_answer s;
     Unit.page_url := fun _ =>
       if on_login s then lit "https://id.churchofjesuschrist.org/login" else Unit.START_URL;
     Unit.strftime := fun _ _ => lit "20260304-060000";
     Unit.strftime_gmtime := fun _ _ => lit "2026-03-04 06:00:00";
     Unit.b64decode := fun s => Ok s;
     Unit.urljoin := fun base u => Ok (base ++ u) |}.

(** The default settings, with credentials. *)
Definition settings : Unit.config :=
  Unit.config_of_environ
    (fun name =>
       if bool_decide (name = lit "LDS_USERNAME") then Some (lit "user")
       else if bool_decide (name = lit "LDS_PASSWORD") then Some (lit "secret")
       else None).

(** One story with three images: the first download fails once, the second
    succeeds, the third fails twice. *)
Definition three_images : script :=
  {| on_login := false; cards_appear := true; heading_appears := true; matches := fun _ => 1%nat;
     sources := map lit ["/img/a.jpg?w=200"; "/img/b.png"; "/img/c.gif"]%string;
     get_succeeds := fun _ n => bool_decide (n = 1%nat) || bool_decide (n = 2%nat) |}.

(** The same page, where the heading never appears. *)
Definition no_heading : script :=
  {| on_login := false; cards_appear := true; heading_appears := false; matches := fun _ => 1%nat;
     sources := map lit ["/img/a.jpg?w=200"]%string;
     get_succeeds := fun _ _ => true |}.

(** A grid whose story cards never appear. *)
Definition no_cards : script :=
  {| on_login := false; cards_appear := false; heading_appears := true; matches := fun _ => 0%nat;
     sources := []; get_succeeds := fun _ _ => true |}.

(** A login page without any input field. *)
Definition bare_login : script :=
  {| on_login := true; cards_appear := true; heading_appears := true; matches := fun _ => 0%nat;
     sources := []; get_succeeds := fun _ _ => true |}.

(** A login page with a user name field and nothing else. *)
Definition login_without_password : script :=
  {| on_login := true; cards_appear := true; heading_appears := true;
     matches := fun l => if bool_decide (l = Unit.Loc (lit "input[type='email']"))
                         then 1%nat else 0%nat;
     sources := []; get_succeeds := fun _ _ => true |}.

(** A page without thumbnails to click, whose image attributes hold a
    repeated address, a srcset without widths and an inline image. *)
Definition mixed_sources : script :=
  {| on_login := false; cards_appear := true; heading_appears := true; matches := fun _ => 0%nat;
     sources := map lit ["/img/b.png"; "DATA:image/png;base64,AAAA";
                         "/img/a.jpg 1x, /img/a2.jpg 2x"; " /img/b.png ";
                         "https://cdn.example.org/c.gif?w=10"]%string;
     get_succeeds := fun _ _ => true |}.

(** A grid that loads and shows no story card. *)
Definition empty_grid : script :=
  {| on_login := false; cards_appear := true; heading_appears := true; matches := fun _ => 0%nat;
     sources := []; get_succeeds := fun _ _ => true |}.

(** No variable of the environment is set. *)
Definition no_settings : Unit.config := Unit.config_of_environ (fun _ => None).

Definition start_world (s : script) (d : fs) : @Unit.world (scripted s) :=
  @Unit.Build_world (scripted s) 0%nat d [].

Definition empty_disk : fs := {| files := ∅; dirs := ∅ |}.

(** A disk left by an earlier run: the folder of the story and its record. *)
Definition picnic_folder : str := lit "unit-history/events/Ward picnic".
Definition old_story : json := JDict [(lit "title", JStr (lit "Ward picnic (old)"))].

Definition earlier_run_disk : fs :=
  {| files := {[ picnic_folder ++ lit "/story.json" := Document old_story ]};
     dirs := {[ picnic_folder; lit "unit-history/events" ]} |}.

End Scenarios.

(** ** Further notions used in the statements of Part II *)

Module Stated.
Import Py Exn Srcset.

(** The [parts] of [pick_largest_from_srcset]: the entries of the srcset
    between commas, stripped, the blank ones left out. *)
Definition parts (srcset : str) : list str :=
  flat_map (fun p => match strip p with [] => [] | q => [q] end) (split_on "," srcset).

(** [p.split()[0]], when there is a token. *)
Definition first_token (p : str) : str :=
  match split_ws p with [] => [] | tok0 :: _ => tok0 end.

(** The call an event of the trace records. *)
Definition called_action (e : Unit.event) : Unit.action :=
  match e with Unit.Called a _ => a end.

End Stated.

(* ===================================================================== *)
(** * Part II: properties                                                 *)
(* ===================================================================== *)

(** ** The week number *)

Module IsoWeekFacts.
Import IsoWeek.

(** Linear arithmetic with the floor divisions and remainders by constants
    that the calendar code is made of. *)
Local Ltac div_lia := Z.div_mod_to_equations; lia.

Lemma year_length y :
  _days_before_year (y + 1) - _days_before_year y = if _is_leap y then 366 else 365.
Proof.
  unfold _days_before_year, _is_leap.
  replace (y + 1 - 1) with y by lia.
  destruct (Z.eqb_spec (y mod 4) 0), (Z.eqb_spec (y mod 100) 0),
    (Z.eqb_spec (y mod 400) 0); cbn [andb orb negb]; div_lia.
Qed.

(** A valid date lies within its year. *)
Lemma ordinal_in_year d :
  valid_date d = true ->
  _days_before_year (year d) + 1 <= _ymd2ord (year d) (month d) (day d)
  /\ _ymd2ord (year d) (month d) (day d) <= _days_before_year (year d + 1).
Proof.
  destruct d as [y m dd]; unfold valid_date; cbn [year month day].
  rewrite !andb_true_iff, !Z.leb_le. intros [[[[[_ _] Hm1] Hm2] Hd1] Hd2].
  pose proof (year_length y) as HL.
  unfold _ymd2ord, _days_before_month.
  unfold _days_in_month in Hd2.
  set (n := _days_before_year y) in *. set (n1 := _days_before_year (y + 1)) in *.
  assert (Hm : m = 1 \/ m = 2 \/ m = 3 \/ m = 4 \/ m = 5 \/ m = 6 \/ m = 7 \/
               m = 8 \/ m = 9 \/ m = 10 \/ m = 11 \/ m = 12) by lia.
  clearbody n n1.
  destruct (_is_leap y);
    repeat (destruct Hm as [-> | Hm]; [cbv -[Z.le Z.add Z.sub] in *; lia |]);
    subst m; cbv -[Z.le Z.add Z.sub] in *; lia.
Qed.

(** The Monday of week 1 is a Monday, at most three days off 1 January. *)
Lemma first_of_january y : _ymd2ord y 1 1 = _days_before_year y + 1.
Proof.
  unfold _ymd2ord, _days_before_month.
  change (nth (Z.to_nat 1) _DAYS_BEFORE_MONTH 0) with 0.
  change (1 >? 2) with false. cbn [andb]. lia.
Qed.

Lemma isoweek1monday_spec y :
  let firstday := _days_before_year y + 1 in
  firstday - 3 <= _isoweek1monday y <= firstday + 3
  /\ (_isoweek1monday y + 6) mod 7 = 0.
Proof.
  unfold _isoweek1monday. rewrite first_of_january. cbn zeta.
  set (f := _days_before_year y + 1).
  destruct (Z.gtb_spec ((f + 6) mod 7) 3); div_lia.
Qed.

Lemma isocalendar_week_range d :
  valid_date d = true -> 1 <= isocalendar_week d <= 53.
Proof.
  intros Hv. pose proof (ordinal_in_year d Hv) as [Hlo Hhi].
  unfold isocalendar_week.
  set (today := _ymd2ord (year d) (month d) (day d)) in *.
  pose proof (isoweek1monday_spec (year d)) as [Hb Hm]. cbn zeta in Hb.
  pose proof (isoweek1monday_spec (year d - 1)) as [Hb0 Hm0]. cbn zeta in Hb0.
  pose proof (isoweek1monday_spec (year d + 1)) as [Hb1 Hm1]. cbn zeta in Hb1.
  pose proof (year_length (year d)) as HL.
  pose proof (year_length (year d - 1)) as HL0.
  replace (year d - 1 + 1) with (year d) in HL0 by lia.
  set (a := _isoweek1monday (year d)) in *.
  set (a0 := _isoweek1monday (year d - 1)) in *.
  set (a1 := _isoweek1monday (year d + 1)) in *.
  set (n := _days_before_year (year d)) in *.
  set (n0 := _days_before_year (year d - 1)) in *.
  set (n1 := _days_before_year (year d + 1)) in *.
  assert (365 <= n1 - n <= 366) by (destruct (_is_leap (year d)); lia).
  assert (365 <= n - n0 <= 366) by (destruct (_is_leap (year d - 1)); lia).
  clear HL HL0. clearbody today a a0 a1 n n0 n1.
  destruct (Z.ltb_spec ((today - a) / 7) 0).
  - div_lia.
  - destruct (Z.geb_spec ((today - a) / 7) 52).
    + destruct (Z.geb_spec today a1); div_lia.
    + div_lia.
Qed.

(** C8. For every date, [iso_week_number] is the smaller of the date's ISO
    week number and 52; it lies between 1 and 52, and a date of ISO week 53
    gets 52. *)
Theorem iso_week_number_clamped d :
  valid_date d = true ->
  iso_week_number d = Z.min (isocalendar_week d) 52
  /\ 1 <= iso_week_number d <= 52
  /\ (isocalendar_week d = 53 -> iso_week_number d = 52).
Proof.
  intros Hv. pose proof (isocalendar_week_range d Hv).
  unfold iso_week_number. lia.
Qed.

(** 31 December 2026 lies in ISO week 53 and gets week 52. *)
Lemma iso_week_number_clamped_witness :
  isocalendar_week (Date 2026 12 31) = 53
  /\ iso_week_number (Date 2026 12 31) = Z.min (isocalendar_week (Date 2026 12 31)) 52
  /\ 1 <= iso_week_number (Date 2026 12 31) <= 52
  /\ (isocalendar_week (Date 2026 12 31) = 53 -> iso_week_number (Date 2026 12 31) = 52).
Proof.
  split; [reflexivity |].
  apply (iso_week_number_clamped (Date 2026 12 31)). reflexivity.
Defined.

End IsoWeekFacts.

(** ** Python strings *)

Module PyFacts.
Import Py.

Lemma span_spec p s a b :
  span p s = (a, b) ->
  s = a ++ b /\ Forall (fun c => p c = true) a
  /\ match b with [] => True | c :: _ => p c = false end.
Proof.
  revert a b. induction s as [| c s IH]; intros a b; cbn.
  - intros [= <- <-]. auto.
  - destruct (p c) eqn:Hc.
    + destruct (span p s) as [a' b'] eqn:Hs. intros [= <- <-].
      destruct (IH _ _ eq_refl) as (-> & Ha & Hb). auto.
    + intros [= <- <-]. rewrite Hc. auto.
Qed.

Lemma span_unique p a b :
  Forall (fun c => p c = true) a ->
  match b with [] => True | c :: _ => p c = false end ->
  span p (a ++ b) = (a, b).
Proof.
  intros Ha Hb. induction Ha as [| c a Hc _ IH]; cbn.
  - destruct b as [| c b]; [reflexivity |]. cbn. now rewrite Hb.
  - now rewrite Hc, IH.
Qed.

Lemma digit_not_space c : is_digit c = true -> is_space c = false.
Proof.
  destruct c as [[] [] [] [] [] [] [] []]; vm_compute; congruence.
Qed.

Lemma drop_while_spec p s :
  exists a, s = a ++ drop_while p s /\ Forall (fun c => p c = true) a
  /\ match drop_while p s with [] => True | c :: _ => p c = false end.
Proof.
  induction s as [| c s (a & Hs & Ha & Hd)]; cbn.
  - exists []. auto.
  - destruct (p c) eqn:Hc.
    + exists (c :: a). cbn. rewrite <- Hs. auto.
    + exists []. rewrite Hc. auto.
Qed.

Lemma drop_while_end_spec p s :
  exists b, s = drop_while_end p s ++ b /\ Forall (fun c => p c = true) b
  /\ match rev (drop_while_end p s) with [] => True | c :: _ => p c = false end.
Proof.
  unfold drop_while_end.
  destruct (drop_while_spec p (rev s)) as (a & Hs & Ha & Hd).
  exists (rev a). rewrite rev_involutive. repeat split.
  - rewrite <- rev_app_distr, <- Hs. now rewrite rev_involutive.
  - now apply Forall_rev.
  - exact Hd.
Qed.

Lemma last_rev_head (s : str) d :
  List.last s d = match rev s with [] => d | c :: _ => c end.
Proof.
  induction s as [| c s IH] using rev_ind; [reflexivity |].
  rewrite List.last_last, rev_app_distr. reflexivity.
Qed.

End PyFacts.

(** ** The srcset helpers *)

Module SrcsetFacts.
Import Py Srcset PyFacts.

(** The function that stands for the regular expression accepts exactly the
    entries of the form URL, white space, digits, w. *)
Lemma match_width_spec part n url :
  match_width part = Some (n, url) <-> is_candidate part n url.
Proof.
  unfold match_width, is_candidate. split.
  - destruct (span _ part) as [u r1] eqn:H1.
    destruct (span is_space r1) as [ws r2] eqn:H2.
    destruct (span is_digit r2) as [ds r3] eqn:H3.
    apply span_spec in H1 as (-> & Hu & _).
    apply span_spec in H2 as (-> & Hw & _).
    apply span_spec in H3 as (-> & Hd & _).
    destruct u as [| u0 u]; [discriminate |].
    destruct ws as [| w0 ws]; [discriminate |].
    destruct ds as [| d0 ds]; [discriminate |].
    destruct r3 as [| c r3]; [discriminate |].
    destruct (Ascii.eqb_spec c "w"); [| discriminate].
    intros [= <- <-]. subst c. exists (w0 :: ws), (d0 :: ds), r3.
    repeat split; try done.
    eapply Forall_impl; [exact Hu |]. cbn. intros c Hc.
    now destruct (is_space c).
  - intros (ws & ds & rest & -> & Hu0 & Hu & Hw0 & Hw & Hd0 & Hd & ->).
    destruct ws as [| w0 ws]; [done |]. destruct ds as [| d0 ds]; [done |].
    rewrite (span_unique (fun c => negb (is_space c)) url).
    + rewrite (span_unique is_space (w0 :: ws)).
      * rewrite (span_unique is_digit (d0 :: ds)); [| done | reflexivity].
        destruct url; [done |]. reflexivity.
      * done.
      * cbn. apply digit_not_space. now inversion Hd.
    + eapply Forall_impl; [exact Hu |]. cbn. now intros c ->.
    + cbn. inversion Hw as [| ? ? Hw1 _]. now rewrite Hw1.
Qed.

Lemma declares_declared_list srcset n url :
  declares srcset n url <-> In (n, url) (declared_list srcset).
Proof.
  unfold declares, declared_list. rewrite in_flat_map. split.
  - intros (part & Hin & Hc). exists part. split; [done |].
    apply match_width_spec in Hc. rewrite Hc. now left.
  - intros (part & Hin & Hc). exists part. split; [done |].
    apply match_width_spec.
    destruct (match_width (strip part)) as [c |]; [| done].
    destruct Hc as [-> | []]. reflexivity.
Qed.

(** *** The stable sort *)

Lemma insert_by_width_perm x l : Permutation (insert_by_width x l) (x :: l).
Proof.
  induction l as [| y l IH]; cbn; [done |].
  destruct (x.1 <=? y.1)%N; [done |].
  rewrite IH. apply perm_swap.
Qed.

Lemma sort_by_width_perm l : Permutation (sort_by_width l) l.
Proof.
  induction l as [| x l IH]; cbn; [done |].
  now rewrite insert_by_width_perm, IH.
Qed.

Lemma insert_by_width_ascending x l :
  ascending l -> ascending (insert_by_width x l).
Proof.
  unfold ascending. induction 1 as [| y l Hs IH Hy]; cbn.
  - repeat constructor.
  - destruct (N.leb_spec x.1 y.1) as [Hle | Hlt].
    + constructor; [now constructor |].
      constructor; [done |].
      eapply Forall_impl; [exact Hy |]. cbn. intros; lia.
    + constructor; [done |].
      rewrite insert_by_width_perm. constructor; [lia | done].
Qed.

Lemma sort_by_width_ascending l : ascending (sort_by_width l).
Proof.
  induction l as [| x l IH]; cbn; [constructor |].
  now apply insert_by_width_ascending.
Qed.

(** The sort is stable: the candidates of one width keep their order. *)
Lemma insert_by_width_stable k x l :
  filter (fun c : candidate => c.1 = k) (insert_by_width x l)
  = filter (fun c : candidate => c.1 = k) (x :: l).
Proof.
  induction l as [| y l IH]; cbn; [done |].
  destruct (N.leb_spec x.1 y.1) as [Hle | Hlt]; [done |].
  rewrite !filter_cons in *. rewrite IH.
  repeat case_decide; try done; lia.
Qed.

Lemma sort_by_width_stable k l :
  filter (fun c : candidate => c.1 = k) (sort_by_width l)
  = filter (fun c : candidate => c.1 = k) l.
Proof.
  induction l as [| x l IH]; [done |].
  change (sort_by_width (x :: l)) with (insert_by_width x (sort_by_width l)).
  rewrite insert_by_width_stable, !filter_cons, IH. done.
Qed.

Lemma ascending_last_max l d x :
  ascending l -> In x l -> (x.1 <= (List.last l d).1)%N.
Proof.
  unfold ascending. induction 1 as [| y l Hs IH Hy]; [done |].
  intros [-> | Hin].
  - destruct l as [| z l]; [cbn; lia |].
    change (List.last (x :: z :: l) d) with (List.last (z :: l) d).
    assert (Hl : In (List.last (z :: l) d) (z :: l)).
    { destruct (exists_last (l := z :: l)) as (l' & a & ->); [done |].
      rewrite List.last_last. apply in_or_app. right. now left. }
    rewrite Forall_forall in Hy. apply Hy. now apply list_elem_of_In.
  - destruct l as [| z l]; [done |]. now apply IH.
Qed.

(** [candidates[-1]] after the sort is one of the candidates, and none is
    wider. *)
Lemma last_url_max l :
  l <> [] ->
  exists n, In (n, last_url l) l /\ forall m u, In (m, u) l -> (m <= n)%N.
Proof.
  intros Hl. unfold last_url.
  set (c := List.last (sort_by_width l) (0%N, [])).
  assert (Hc : In c l).
  { assert (Hs : sort_by_width l <> []).
    { intros E. pose proof (sort_by_width_perm l) as HP. rewrite E in HP.
      now apply Permutation_nil in HP. }
    destruct (exists_last Hs) as (l' & a & E).
    subst c. rewrite E, List.last_last.
    apply list_elem_of_In. rewrite <- (sort_by_width_perm l), E.
    apply list_elem_of_In, in_or_app. right. now left. }
  exists c.1. split; [now destruct c |].
  intros m u Hin.
  apply (ascending_last_max (sort_by_width l) (0%N, []) (m, u)).
  - apply sort_by_width_ascending.
  - apply list_elem_of_In. rewrite (sort_by_width_perm l). now apply list_elem_of_In.
Qed.

(** *** The two helpers *)

Lemma _largest_from_srcset_eq srcset :
  _largest_from_srcset srcset
  = match declared_list srcset with [] => [] | _ => last_url (declared_list srcset) end.
Proof.
  unfold _largest_from_srcset. fold (declared_list srcset).
  destruct srcset; reflexivity.
Qed.

Lemma pick_largest_from_srcset_eq srcset :
  pick_largest_from_srcset srcset
  = match ranked_list srcset with [] => [] | _ => last_url (ranked_list srcset) end.
Proof.
  unfold pick_largest_from_srcset. fold (ranked_list srcset).
  destruct srcset; reflexivity.
Qed.

Lemma declared_in_ranked srcset c :
  In c (declared_list srcset) -> In c (ranked_list srcset).
Proof.
  unfold declared_list, ranked_list. rewrite !in_flat_map.
  intros (part & Hin & Hc).
  destruct (match_width (strip part)) as [c' |] eqn:Hm; [| done].
  exists (strip part). split.
  - apply in_flat_map. exists part. split; [done |].
    destruct (strip part); [discriminate | now left].
  - now rewrite Hm.
Qed.

Lemma ranked_declared_or_zero srcset n url :
  In (n, url) (ranked_list srcset) -> In (n, url) (declared_list srcset) \/ n = 0%N.
Proof.
  unfold declared_list, ranked_list. rewrite !in_flat_map.
  intros (q & Hq & Hc). apply in_flat_map in Hq as (part & Hin & Hq).
  assert (q = strip part) as ->.
  { destruct (strip part); [done |]. now destruct Hq as [<- | []]. }
  destruct (match_width (strip part)) as [c' |] eqn:Hm.
  - left. exists part. rewrite Hm. done.
  - right. destruct (split_ws (strip part)); [done |].
    now destruct Hc as [[= <- _] | []].
Qed.

(** C1, as the code has it.  [_largest_from_srcset] returns the URL of a
    declared candidate of the largest declared width whenever the srcset
    declares one, and the empty string when it declares none (which covers
    the empty srcset).  [pick_largest_from_srcset] returns such a URL
    whenever some declared width is positive: it ranks the entries without a
    width as width 0. *)
Theorem srcset_largest_width srcset :
  ((exists n u, declares srcset n u) ->
   largest_declared srcset (_largest_from_srcset srcset))
  /\ ((exists n u, declares srcset n u /\ (1 <= n)%N) ->
      largest_declared srcset (pick_largest_from_srcset srcset))
  /\ ((forall n u, ~ declares srcset n u) -> _largest_from_srcset srcset = []).
Proof.
  repeat split.
  - intros (n0 & u0 & H0). apply declares_declared_list in H0.
    rewrite _largest_from_srcset_eq.
    destruct (last_url_max (declared_list srcset)) as (n & Hin & Hmax).
    { intros E. now rewrite E in H0. }
    destruct (declared_list srcset) eqn:E; [done |]. rewrite <- E in *.
    exists n. split; [now apply declares_declared_list |].
    intros m v Hm. apply (Hmax m v). now apply declares_declared_list.
  - intros (n0 & u0 & H0 & Hpos). apply declares_declared_list in H0.
    rewrite pick_largest_from_srcset_eq.
    pose proof (declared_in_ranked _ _ H0) as H0'.
    destruct (last_url_max (ranked_list srcset)) as (n & Hin & Hmax).
    { intros E. now rewrite E in H0'. }
    destruct (ranked_list srcset) eqn:E; [done |]. rewrite <- E in *.
    pose proof (Hmax _ _ H0') as Hn.
    exists n. split.
    + apply declares_declared_list.
      destruct (ranked_declared_or_zero _ _ _ Hin) as [Hd | ->]; [done | lia].
    + intros m v Hm. apply (Hmax m v).
      now apply declared_in_ranked, declares_declared_list.
  - intros Hnone. rewrite _largest_from_srcset_eq.
    destruct (declared_list srcset) as [| [n u] l] eqn:E; [done |].
    exfalso. apply (Hnone n u), declares_declared_list. rewrite E. now left.
Qed.

(** On the srcset of the docstring both helpers return the widest URL; an
    empty srcset gives the empty string. *)
Lemma srcset_largest_width_witness :
  largest_declared (lit "url1 60w, url2 100w, url3 640w")
    (_largest_from_srcset (lit "url1 60w, url2 100w, url3 640w"))
  /\ largest_declared (lit "url1 480w, url2 800w, url3 1200w")
       (pick_largest_from_srcset (lit "url1 480w, url2 800w, url3 1200w"))
  /\ _largest_from_srcset [] = [].
Proof.
  split; [| split].
  - apply (proj1 (srcset_largest_width (lit "url1 60w, url2 100w, url3 640w"))).
    exists 60%N, (lit "url1"). apply declares_declared_list. vm_compute. tauto.
  - apply (proj1 (proj2 (srcset_largest_width (lit "url1 480w, url2 800w, url3 1200w")))).
    exists 480%N, (lit "url1"). split; [| lia].
    apply declares_declared_list. vm_compute. tauto.
  - apply (proj2 (proj2 (srcset_largest_width []))).
    intros n u H. apply declares_declared_list in H. exact H.
Defined.

(** C1 as stated fails for [pick_largest_from_srcset]: the srcset
    [a 0w, b 2x] declares one candidate, [a] of width 0, and the helper
    returns [b], which has no declared width. *)
Lemma pick_largest_prefers_later_widthless :
  (exists n u, declares (lit "a 0w, b 2x") n u)
  /\ pick_largest_from_srcset (lit "a 0w, b 2x") = lit "b"
  /\ ~ largest_declared (lit "a 0w, b 2x")
        (pick_largest_from_srcset (lit "a 0w, b 2x")).
Proof.
  split; [| split].
  - exists 0%N, (lit "a"). apply declares_declared_list. vm_compute. tauto.
  - reflexivity.
  - intros (n & H & _). apply declares_declared_list in H.
    vm_compute in H. destruct H as [H | []]. discriminate H.
Qed.

End SrcsetFacts.

(** ** Folder names *)

Module SafeNameFacts.
Import Py SafeName PyFacts.

Lemma ws_runs_single_app_r a s : ws_runs_single (a ++ s) = true -> ws_runs_single s = true.
Proof.
  induction a as [| c a IH]; [done |]. cbn [app ws_runs_single].
  destruct (a ++ s) eqn:E.
  - destruct a; [| done]. cbn in E. now subst s.
  - intros H. apply andb_true_iff in H as [_ H]. now apply IH.
Qed.

Lemma ws_runs_single_app_l s b : ws_runs_single (s ++ b) = true -> ws_runs_single s = true.
Proof.
  induction s as [| c s IH]; [done |]. cbn [app ws_runs_single].
  destruct s as [| c2 s]; [done |]. cbn [app] in *.
  intros H. apply andb_true_iff in H as [-> H]. now rewrite IH.
Qed.

Lemma tidy_infix a s b : tidy (a ++ s ++ b) -> tidy s.
Proof.
  intros (H1 & H2 & H3). repeat split.
  - apply Forall_app in H1 as [_ H1]. now apply Forall_app in H1 as [H1 _].
  - now apply ws_runs_single_app_r, ws_runs_single_app_l in H2.
  - apply Forall_app in H3 as [_ H3]. now apply Forall_app in H3 as [H3 _].
Qed.

Lemma tidy_prefix s b : tidy (s ++ b) -> tidy s.
Proof. apply (tidy_infix [] s b). Qed.

(** The first substitution leaves single spaces only. *)
Lemma collapse_spaces_aux in_run s :
  let o := sub_runs_aux is_space [" "%char] in_run s in
  Forall (fun c => is_space c = true -> c = " "%char) o
  /\ ws_runs_single o = true
  /\ (in_run = true -> match o with c :: _ => is_space c = false | [] => True end).
Proof.
  revert in_run. induction s as [| c s IH]; intros in_run; cbn.
  - auto.
  - destruct (is_space c) eqn:Hc.
    + destruct (IH true) as (H1 & H2 & H3). specialize (H3 eq_refl).
      destruct in_run; cbn [app].
      * auto.
      * repeat split; [constructor; auto | | done].
        cbn [ws_runs_single]. destruct (sub_runs_aux _ _ true s); [done |].
        rewrite H3, andb_false_r. cbn. exact H2.
    + destruct (IH false) as (H1 & H2 & _).
      repeat split; [constructor; [congruence | done] | | now intros _].
      cbn [ws_runs_single]. destruct (sub_runs_aux _ _ false s); [done |].
      rewrite Hc. cbn. exact H2.
Qed.

Lemma unsafe_not_space c : mem c windows_unsafe = true -> is_space c = false.
Proof.
  destruct c as [[] [] [] [] [] [] [] []]; vm_compute; congruence.
Qed.

(** The second substitution keeps that and removes the unsafe class. *)
Lemma replace_unsafe_aux in_run s :
  Forall (fun c => is_space c = true -> c = " "%char) s ->
  ws_runs_single s = true ->
  let o := sub_runs_aux (fun c => mem c windows_unsafe) ["-"%char] in_run s in
  tidy o
  /\ (in_run = false ->
      match o, s with
      | c :: _, c' :: _ => is_space c = true -> is_space c' = true
      | _, _ => True
      end).
Proof.
  revert in_run. induction s as [| c s IH]; intros in_run H1 H2; cbn [sub_runs_aux].
  - repeat split; auto.
  - inversion H1 as [| ? ? Hc1 Hs1]; subst.
    assert (Hs2 : ws_runs_single s = true).
    { now apply (ws_runs_single_app_r [c]). }
    destruct (mem c windows_unsafe) eqn:Hc.
    + destruct (IH true Hs1 Hs2) as ((T1 & T2 & T3) & _).
      destruct in_run; cbn [app].
      * split; [repeat split; assumption | discriminate].
      * split; [| now intros _ ?].
        repeat split; [constructor; [done | exact T1] | | constructor; [reflexivity | exact T3]].
        cbn [ws_runs_single]. now destruct (sub_runs_aux _ _ true s).
    + destruct (IH false Hs1 Hs2) as ((T1 & T2 & T3) & Hh). specialize (Hh eq_refl).
      split; [| now intros _].
      repeat split; [now constructor | | now constructor].
      cbn [ws_runs_single]. destruct (sub_runs_aux _ _ false s) as [| c2 o] eqn:Eo; [done |].
      rewrite T2, andb_true_r.
      destruct (is_space c) eqn:Hsc; [| done].
      destruct s as [| c' s]; [discriminate Eo |].
      cbn [ws_runs_single] in H2. rewrite Hsc in H2. cbn in H2.
      apply andb_true_iff in H2 as [H2 _].
      destruct (is_space c2) eqn:Hc2; [| done].
      rewrite (Hh eq_refl) in H2. discriminate.
Qed.

Lemma drop_while_end_cons p c s :
  p c = false -> drop_while_end p (c :: s) = c :: drop_while_end p s.
Proof.
  intros Hc. unfold drop_while_end. cbn [rev].
  assert (H : forall l, drop_while p (l ++ [c]) = drop_while p l ++ [c]).
  { induction l as [| x l IHl]; cbn; [now rewrite Hc |]. now destruct (p x). }
  rewrite H, rev_app_distr. reflexivity.
Qed.

Lemma drop_while_end_length p s : (length (drop_while_end p s) <= length s)%nat.
Proof.
  destruct (drop_while_end_spec p s) as (b & Hs & _).
  rewrite Hs at 2. rewrite length_app. lia.
Qed.

Lemma cleaned_tidy name : tidy (cleaned name).
Proof.
  unfold cleaned, strip_chars, sub_runs.
  destruct (collapse_spaces_aux false (strip name)) as (H1 & H2 & _).
  destruct (replace_unsafe_aux false _ H1 H2) as (HT & _).
  set (n2 := sub_runs_aux (fun c => mem c windows_unsafe) _ false _) in *.
  destruct (drop_while_spec (fun c => mem c [" "; "."]%char) n2) as (a & Ha & _).
  destruct (drop_while_end_spec (fun c => mem c [" "; "."]%char)
              (drop_while (fun c => mem c [" "; "."]%char) n2)) as (b & Hb & _).
  rewrite Hb in Ha. rewrite Ha in HT. now apply tidy_infix in HT.
Qed.

(** After [strip(" .")] a name neither starts nor ends with a space or a
    period. *)
Lemma cleaned_ends name :
  match cleaned name with
  | c :: _ => mem c [" "; "."]%char = false
  | [] => True
  end
  /\ match rev (cleaned name) with
     | c :: _ => mem c [" "; "."]%char = false
     | [] => True
     end.
Proof.
  unfold cleaned, strip_chars.
  set (n2 := sub_runs _ _ _). set (p := fun c => mem c [" "; "."]%char).
  destruct (drop_while_spec p n2) as (a & _ & _ & Hd).
  destruct (drop_while_end_spec p (drop_while p n2)) as (b & Hb & _ & He).
  split; [| exact He].
  destruct (drop_while_end p (drop_while p n2)) as [| c s] eqn:E; [done |].
  rewrite Hb in Hd. exact Hd.
Qed.

Lemma rstrip_no_space s :
  Forall (fun c => is_space c = false) s -> rstrip s = s.
Proof.
  unfold rstrip. induction 1 as [| c s Hc _ IH]; [reflexivity |].
  now rewrite drop_while_end_cons, IH.
Qed.

Lemma not_space_or_period c :
  mem c [" "; "."]%char = false -> c <> " "%char /\ c <> "."%char.
Proof. split; intros ->; discriminate. Qed.

(** The name before the cut: the cleaned name, or the default. *)
Lemma named_good name :
  let n := match cleaned name with [] => lit "Untitled" | _ => cleaned name end in
  tidy n
  /\ (exists c t, n = c :: t /\ mem c [" "; "."]%char = false)
  /\ match rev n with c :: _ => mem c [" "; "."]%char = false | [] => True end.
Proof.
  pose proof (cleaned_tidy name) as HT. pose proof (cleaned_ends name) as [Hh Hl].
  destruct (cleaned name) as [| c t] eqn:E; cbn zeta.
  - split; [| split].
    + unfold tidy. split; [| split]; [| reflexivity |];
        repeat (constructor; [vm_compute; congruence |]); constructor.
    + now exists "U"%char, (lit "ntitled").
    + reflexivity.
  - split; [exact HT | split; [now exists c, t | exact Hl]].
Qed.

(** C9, as the code has it.  For every name and every [max_len >= 1] the
    result is not empty, at most [max_len] long, free of the nine unsafe
    characters, holds no white space but single spaces, starts with neither
    a space nor a period and does not end with a space; a name that cleans
    to nothing gives [Untitled] cut to [max_len] characters, which is
    [Untitled] itself from [max_len = 8] on. *)
Theorem safe_name_spec name max_len :
  1 <= max_len ->
  let r := safe_name name max_len in
  r <> []
  /\ Z.of_nat (length r) <= max_len
  /\ Forall (fun c => mem c windows_unsafe = false) r
  /\ Forall (fun c => is_space c = true -> c = " "%char) r
  /\ ws_runs_single r = true
  /\ (forall c, head r = Some c -> c <> " "%char /\ c <> "."%char)
  /\ (forall c, last r = Some c -> c <> " "%char)
  /\ (cleaned name = [] -> r = take (Z.to_nat max_len) (lit "Untitled"))
  /\ (cleaned name = [] -> 8 <= max_len -> r = lit "Untitled").
Proof.
  intros Hmax. cbn zeta.
  assert (E : safe_name name max_len
              = let n := match cleaned name with [] => lit "Untitled" | _ => cleaned name end in
                if Z.of_nat (length n) >? max_len then rstrip (slice_to max_len n) else n)
    by reflexivity.
  rewrite E. clear E. cbn zeta.
  destruct (named_good name) as (HT & (c & t & Hn & Hc) & Hl). cbn zeta in *.
  assert (Hcs : is_space c = false).
  { destruct (is_space c) eqn:Hs; [| done].
    destruct HT as (H1 & _). rewrite Hn in H1. inversion H1 as [| ? ? Hc1 _]; subst.
    rewrite (Hc1 Hs) in Hc. discriminate. }
  assert (HU : cleaned name = [] ->
               match cleaned name with [] => lit "Untitled" | _ => cleaned name end
               = lit "Untitled") by (now intros ->).
  set (n := match cleaned name with [] => lit "Untitled" | _ => cleaned name end) in *.
  clearbody n.
  destruct (Z.gtb_spec (Z.of_nat (length n)) max_len) as [Hgt | Hle].
  - (* cut to [max_len] characters, trailing white space removed *)
    unfold slice_to. destruct (Z.ltb_spec max_len 0) as [? | _]; [lia |].
    destruct (Z.to_nat max_len) as [| k] eqn:Ek; [lia |].
    assert (Hpre : exists b, n = rstrip (take (S k) n) ++ b).
    { destruct (drop_while_end_spec is_space (take (S k) n)) as (b & Hb & _).
      exists (b ++ drop (S k) n). rewrite app_assoc. unfold rstrip.
      rewrite <- Hb. now rewrite take_drop. }
    destruct Hpre as (b & Hpre).
    assert (HTr : tidy (rstrip (take (S k) n))).
    { apply (tidy_prefix _ b). now rewrite <- Hpre. }
    assert (Hr : rstrip (take (S k) n) = c :: drop_while_end is_space (take k t)).
    { rewrite Hn. cbn [take]. unfold rstrip. now rewrite drop_while_end_cons. }
    assert (Hlen : (length (rstrip (take (S k) n)) <= S k)%nat).
    { unfold rstrip. etransitivity; [apply drop_while_end_length |].
      rewrite length_take. lia. }
    destruct HTr as (T1 & T2 & T3).
    refine (conj _ (conj _ (conj _ (conj _ (conj _ (conj _ (conj _ (conj _ _))))))));
      try assumption.
    + now rewrite Hr.
    + lia.
    + rewrite Hr. intros c' [= <-]. now apply not_space_or_period.
    + intros c' Hlast. apply last_Some in Hlast as (l' & Hl').
      destruct (drop_while_end_spec is_space (take (S k) n)) as (_ & _ & _ & He).
      fold (rstrip (take (S k) n)) in He. rewrite Hl', rev_app_distr in He.
      cbn in He. intros ->. discriminate.
    + intros Hnone. rewrite (HU Hnone). apply rstrip_no_space.
      apply Forall_take. repeat constructor.
    + intros Hnone H8. rewrite (HU Hnone) in Hgt. cbn in Hgt. lia.
  - (* short enough: kept whole *)
    destruct HT as (T1 & T2 & T3).
    refine (conj _ (conj _ (conj _ (conj _ (conj _ (conj _ (conj _ (conj _ _))))))));
      try assumption.
    + now rewrite Hn.
    + rewrite Hn. intros c' [= <-]. now apply not_space_or_period.
    + intros c' Hlast. apply last_Some in Hlast as (l' & Hl').
      rewrite Hl', rev_app_distr in Hl. cbn in Hl.
      now apply not_space_or_period in Hl.
    + intros Hnone. rewrite (HU Hnone) in *.
      rewrite take_ge; [done |]. cbn in *. lia.
    + intros Hnone _. exact (HU Hnone).
Qed.

(** A title with unsafe characters, a line break and trailing periods, cut
    to 8 characters. *)
Lemma safe_name_spec_witness :
  safe_name (lit "  Ward: picnic
  2026 .. ") 8 = lit "Ward- pi"
  /\ safe_name [] 90 = lit "Untitled"
  /\ (forall c, last (safe_name (lit "ab  cd") 3) = Some c -> c <> " "%char).
Proof.
  split; [reflexivity | split].
  - apply (safe_name_spec [] 90); [lia | reflexivity | lia].
  - apply (safe_name_spec (lit "ab  cd") 3). lia.
Defined.

(** C9 as stated fails in its last part: with [max_len = 3] the empty name
    gives [Unt], not [Untitled]. *)
Lemma safe_name_default_is_cut :
  1 <= 3 /\ cleaned [] = [] /\ safe_name [] 3 = lit "Unt"
  /\ safe_name [] 3 <> lit "Untitled".
Proof. repeat split; [lia | discriminate]. Qed.

End SafeNameFacts.

(** ** build_cfm_weekly.py *)

Module CfmFacts.
Import Py Exn Json Files IsoWeek Cfm.

Section Run.
Context `{Outside}.

Lemma scrape_week_fetch_fails week :
  match requests_get (BASE ++ MANUAL_PATH week) with
  | Raise _ => True
  | Ok r => 400 <= status_code r < 600
  end ->
  exists e, scrape_week week = Raise e.
Proof.
  unfold scrape_week, raise_for_status.
  destruct (requests_get _) as [r | e]; [| now exists e].
  intros [Hlo Hhi]. exists HTTPError.
  apply Z.leb_le in Hlo. apply Z.ltb_lt in Hhi. now rewrite Hlo, Hhi.
Qed.

(** The payload of a successful [scrape_week]. *)
Lemma scrape_week_payload week payload :
  scrape_week week = Ok payload ->
  exists now url image small big,
    payload = JDict [(lit "generated_at_utc", JStr now); (lit "week_number", JInt week);
                     (lit "source_url", JStr url); (lit "image_url", JStr image);
                     (lit "small_heading", JStr small); (lit "big_heading", JStr big)].
Proof.
  unfold scrape_week.
  destruct (requests_get _) as [r | e]; [| discriminate].
  destruct (raise_for_status r); [| discriminate].
  intros [= <-]. repeat eexists.
Qed.

(** C5. When the fetch of the week's page fails, by an exception of
    [requests.get] or by a status from 400 to 599, [main] ends with that
    exception and leaves every file as it was; the output file is not
    written. *)
Theorem fetch_failure_aborts_main (w : world) :
  fetch_fails ->
  exists e w',
    main w = (Raise e, w')
    /\ disk w' = disk w
    /\ files (disk w') !! OUT_JSON = files (disk w) !! OUT_JSON.
Proof.
  intros Hf. destruct (scrape_week_fetch_fails _ Hf) as (e & He).
  unfold main. rewrite He. eexists _, _. split; [reflexivity |]. split; reflexivity.
Qed.

(** A run of [main] that completes has written the payload of this run to
    the output file, whatever the file held before, and every field of the
    payload is a scalar. *)
Lemma main_writes_payload (w w' : world) :
  main w = (Ok tt, w') ->
  exists fields,
    scrape_week (iso_week_number today) = Ok (JDict fields)
    /\ files (disk w') !! OUT_JSON = Some (Document (JDict fields))
    /\ Forall (fun kv => is_scalar kv.2 = true) fields.
Proof.
  unfold main. destruct (scrape_week _) as [payload | e] eqn:Hs; [| discriminate].
  intros [= <-]. destruct (scrape_week_payload _ _ Hs) as (n & u & i & s & b & ->).
  eexists. split; [reflexivity |]. split.
  - cbn. apply lookup_insert_eq.
  - repeat constructor.
Qed.

End Run.

End CfmFacts.

(** ** urllib.parse *)

Module UrllibFacts.
Import Py Exn Urllib PyFacts.

(** *** UTF-8 *)

Local Ltac div_lia := zify; Z.to_euclidean_division_equations; lia.

(** Settles the tests on byte values, one after the other. *)
Local Ltac decide_tests :=
  repeat match goal with
    | |- context [(?a <? ?b)%N] => destruct (N.ltb_spec a b); try lia
    | |- context [(?a <=? ?b)%N] => destruct (N.leb_spec a b); try lia
    | |- context [(?a =? ?b)%N] => destruct (N.eqb_spec a b); try lia
    end; cbn [andb orb negb].

Lemma utf8_start_ascii b : (b < 0x80)%N -> utf8_start b = ([b], None).
Proof. intros Hb. unfold utf8_start. now decide_tests. Qed.

Lemma utf8_start_two b :
  (0xC2 <= b <= 0xDF)%N ->
  utf8_start b = ([], Some {| need := 1; acc := b - 0xC0; lo := 0x80; hi := 0xBF |}).
Proof. intros Hb. unfold utf8_start. now decide_tests. Qed.

Lemma utf8_start_three k :
  (k <= 15)%N ->
  utf8_start (0xE0 + k)
  = ([], Some {| need := 2; acc := k;
                 lo := if (k =? 0)%N then 0xA0 else 0x80;
                 hi := if (k =? 13)%N then 0x9F else 0xBF |}).
Proof.
  intros Hk. unfold utf8_start.
  destruct (N.eqb_spec k 0) as [-> | H0]; [reflexivity |].
  destruct (N.eqb_spec k 13) as [-> | H13]; [reflexivity |].
  decide_tests. repeat f_equal. lia.
Qed.

Lemma utf8_start_four k :
  (k <= 4)%N ->
  utf8_start (0xF0 + k)
  = ([], Some {| need := 3; acc := k;
                 lo := if (k =? 0)%N then 0x90 else 0x80;
                 hi := if (k =? 4)%N then 0x8F else 0xBF |}).
Proof.
  intros Hk. unfold utf8_start.
  destruct (N.eqb_spec k 0) as [-> | H0]; [reflexivity |].
  destruct (N.eqb_spec k 4) as [-> | H4]; [reflexivity |].
  decide_tests. repeat f_equal. lia.
Qed.

(** A continuation byte in range is taken. *)
Lemma utf8_continue p b bs :
  (lo p <= b <= hi p)%N ->
  utf8_decode_from (Some p) (b :: bs)
  = match need p with
    | S (S n) =>
        utf8_decode_from
          (Some {| need := S n; acc := acc p * 64 + (b - 0x80); lo := 0x80; hi := 0xBF |}) bs
    | _ => (acc p * 64 + (b - 0x80))%N :: utf8_decode_from None bs
    end.
Proof.
  intros [Hl Hh]. cbn [utf8_decode_from].
  apply N.leb_le in Hl, Hh. now rewrite Hl, Hh.
Qed.

Lemma utf8_begin b bs :
  utf8_decode_from None (b :: bs)
  = (utf8_start b).1 ++ utf8_decode_from (utf8_start b).2 bs.
Proof. cbn [utf8_decode_from]. now destruct (utf8_start b). Qed.

(** Decoding what encodes one code point gives it back. *)
Lemma utf8_decode_encode_char c bs rest :
  utf8_encode_char c = Some bs ->
  utf8_decode_from None (bs ++ rest) = c :: utf8_decode_from None rest.
Proof.
  unfold utf8_encode_char.
  destruct (N.ltb_spec c 0x80) as [H1 | H1].
  { intros [= <-]. cbn [app]. now rewrite utf8_begin, utf8_start_ascii. }
  destruct (N.ltb_spec c 0x800) as [H2 | H2].
  { intros [= <-]. cbn [app].
    rewrite utf8_begin, utf8_start_two by div_lia. cbn [fst snd app].
    rewrite utf8_continue by (cbn [lo hi]; div_lia). cbn [need acc].
    f_equal. div_lia. }
  destruct (N.ltb_spec c 0x10000) as [H3 | H3].
  { destruct ((0xD800 <=? c)%N && (c <=? 0xDFFF)%N) eqn:Hs; [discriminate |].
    intros [= <-]. cbn [app].
    assert (Hns : (c < 0xD800 \/ 0xDFFF < c)%N).
    { apply andb_false_iff in Hs as [Hs | Hs]; apply N.leb_gt in Hs; lia. }
    rewrite utf8_begin, utf8_start_three by div_lia. cbn [fst snd app].
    rewrite utf8_continue.
    2:{ cbn [lo hi]. destruct (N.eqb_spec (c / 4096) 0), (N.eqb_spec (c / 4096) 13); div_lia. }
    cbn [need acc]. rewrite utf8_continue by (cbn [lo hi]; div_lia). cbn [need acc].
    f_equal. div_lia. }
  destruct (N.ltb_spec c 0x110000) as [H4 | H4]; [| discriminate].
  intros [= <-]. cbn [app].
  rewrite utf8_begin, utf8_start_four by div_lia. cbn [fst snd app].
  rewrite utf8_continue.
  2:{ cbn [lo hi]. destruct (N.eqb_spec (c / 262144) 0), (N.eqb_spec (c / 262144) 4); div_lia. }
  cbn [need acc]. rewrite utf8_continue by (cbn [lo hi]; div_lia). cbn [need acc].
  rewrite utf8_continue by (cbn [lo hi]; div_lia). cbn [need acc].
  f_equal. div_lia.
Qed.

Lemma utf8_decode_encode s bs :
  utf8_encode s = Some bs -> utf8_decode bs = s.
Proof.
  unfold utf8_decode. revert bs. induction s as [| c s IH]; intros bs; cbn [utf8_encode].
  - now intros [= <-].
  - destruct (utf8_encode_char c) as [b |] eqn:Hc; [| discriminate].
    destruct (utf8_encode s) as [bs' |]; [| discriminate].
    intros [= <-]. rewrite (utf8_decode_encode_char c b bs' Hc). f_equal. now apply IH.
Qed.

(** *** Percent escapes *)

Lemma utf8_encode_char_bytes c bs :
  utf8_encode_char c = Some bs -> Forall (fun b => (b < 256)%N) bs.
Proof.
  unfold utf8_encode_char.
  repeat match goal with
         | |- context [if ?t then _ else _] => destruct t eqn:?
         end; intros [= <-]; repeat constructor;
    repeat match goal with
           | H : (_ <? _)%N = true |- _ => apply N.ltb_lt in H
           | H : (_ <? _)%N = false |- _ => apply N.ltb_ge in H
           end; div_lia.
Qed.

Lemma utf8_encode_bytes s bs :
  utf8_encode s = Some bs -> Forall (fun b => (b < 256)%N) bs.
Proof.
  revert bs. induction s as [| c s IH]; intros bs; cbn [utf8_encode].
  - intros [= <-]. constructor.
  - destruct (utf8_encode_char c) as [b |] eqn:Hc; [| discriminate].
    destruct (utf8_encode s) as [bs' |]; [| discriminate].
    intros [= <-]. apply Forall_app. split; [now apply utf8_encode_char_bytes in Hc | now apply IH].
Qed.

Lemma byte_is_code b : (b < 256)%N -> exists a : ascii, b = code a.
Proof.
  intros Hb. exists (ascii_of_N b). unfold code. now rewrite N_ascii_embedding.
Qed.

(** One quoted byte is read back as that byte, whatever follows. *)
Lemma unquote_quote_byte b rest :
  (b < 256)%N ->
  unquote_to_bytes (map plus_to_space (quote_byte b ++ rest))
  = b :: unquote_to_bytes (map plus_to_space rest).
Proof.
  intros Hb. destruct (byte_is_code b Hb) as (a & ->). clear Hb. revert rest.
  destruct a as [[] [] [] [] [] [] [] []]; intros rest; reflexivity.
Qed.

Lemma quote_byte_chars b :
  (b < 256)%N ->
  forallb (fun c => quoted_char c && is_ascii c) (quote_byte b) = true.
Proof.
  intros Hb. destruct (byte_is_code b Hb) as (a & ->). clear Hb.
  destruct a as [[] [] [] [] [] [] [] []]; reflexivity.
Qed.

Lemma unquote_quote_bytes bs :
  Forall (fun b => (b < 256)%N) bs ->
  unquote_to_bytes (map plus_to_space (flat_map quote_byte bs)) = bs.
Proof.
  induction 1 as [| b bs Hb _ IH]; [reflexivity |].
  cbn [flat_map]. now rewrite unquote_quote_byte, IH.
Qed.

Lemma quote_bytes_chars bs :
  Forall (fun b => (b < 256)%N) bs ->
  Forall (fun c => quoted_char c = true /\ is_ascii c = true) (flat_map quote_byte bs).
Proof.
  induction 1 as [| b bs Hb _ IH]; [constructor |].
  cbn [flat_map]. apply Forall_app. split; [| exact IH].
  pose proof (quote_byte_chars b Hb) as Hq. rewrite forallb_forall in Hq.
  apply Forall_forall. intros c Hc. apply list_elem_of_In, Hq in Hc.
  now apply andb_true_iff in Hc.
Qed.

(** On ASCII text [unquote] is: unescape, then decode. *)
Lemma unquote_aux_ascii run s :
  Forall (fun c => is_ascii c = true) s ->
  unquote_aux run s = utf8_decode (unquote_to_bytes (rev run ++ s)).
Proof.
  intros Hs. revert run. induction Hs as [| c s Hc _ IH]; intros run; cbn [unquote_aux].
  - now rewrite app_nil_r.
  - rewrite Hc, IH. cbn [rev]. now rewrite <- app_assoc.
Qed.

(** [quote_plus] is undone by [unquote_plus]. *)
Lemma unquote_plus_quote_plus k qk :
  quote_plus k = Ok qk -> unquote_plus qk = k.
Proof.
  unfold quote_plus. destruct (utf8_encode k) as [bs |] eqn:He; [| discriminate].
  intros [= <-]. pose proof (utf8_encode_bytes _ _ He) as Hb.
  unfold unquote_plus, unquote. rewrite unquote_aux_ascii.
  - cbn [rev app]. rewrite unquote_quote_bytes by exact Hb. now apply utf8_decode_encode.
  - apply Forall_map. eapply Forall_impl; [apply quote_bytes_chars, Hb |].
    cbn. intros c [Hq Ha]. unfold plus_to_space.
    destruct (Ascii.eqb_spec c "+"); [reflexivity | exact Ha].
Qed.

Lemma quote_plus_chars k qk :
  quote_plus k = Ok qk -> Forall (fun c => quoted_char c = true) qk.
Proof.
  unfold quote_plus. destruct (utf8_encode k) as [bs |] eqn:He; [| discriminate].
  intros [= <-]. eapply Forall_impl; [apply quote_bytes_chars, (utf8_encode_bytes _ _ He) |].
  now intros c [Hq _].
Qed.

(** *** Finding and splitting *)

Lemma find_char_None c s : find_char c s = None <-> c ∉ s.
Proof.
  induction s as [| x s IH]; cbn [find_char].
  - split; [intros _; apply not_elem_of_nil | done].
  - destruct (Ascii.eqb_spec x c) as [-> | Hne].
    + split; [done | intros Hn; exfalso; apply Hn; left].
    + rewrite not_elem_of_cons, <- IH.
      destruct (find_char c s); cbn; split; try done; intuition congruence.
Qed.

Lemma find_char_Some c s i :
  find_char c s = Some i ->
  s = take i s ++ c :: drop (S i) s /\ (c ∉ take i s) /\ (i < length s)%nat.
Proof.
  revert i. induction s as [| x s IH]; intros i; cbn [find_char]; [discriminate |].
  destruct (Ascii.eqb_spec x c) as [-> | Hne].
  - intros [= <-]. cbn. repeat split; [apply not_elem_of_nil | lia].
  - destruct (find_char c s) as [j |]; [| discriminate]. intros [= <-].
    destruct (IH j eq_refl) as (Hs & Hn & Hl). cbn [take drop app length].
    repeat split; [now f_equal | | lia].
    apply not_elem_of_cons. split; [congruence | done].
Qed.

Lemma find_char_app c p s :
  c ∉ p -> find_char c (p ++ s) = (fun i => (length p + i)%nat) <$> find_char c s.
Proof.
  induction p as [| x p IH]; intros Hn; cbn [app find_char length].
  - now destruct (find_char c s).
  - apply not_elem_of_cons in Hn as [Hx Hp].
    destruct (Ascii.eqb_spec x c) as [-> | _]; [done |].
    rewrite (IH Hp). now destruct (find_char c s).
Qed.

Lemma split_first_absent c s : c ∉ s -> split_first c s = (s, []).
Proof. intros Hn. unfold split_first. apply find_char_None in Hn. now rewrite Hn. Qed.

Lemma split_first_at c p s : c ∉ p -> split_first c (p ++ c :: s) = (p, s).
Proof.
  intros Hn. unfold split_first. rewrite (find_char_app c p _ Hn). cbn [find_char].
  rewrite Ascii.eqb_refl. cbn. rewrite Nat.add_0_r.
  rewrite take_app_length. f_equal.
  change (p ++ c :: s) with (p ++ [c] ++ s). rewrite app_assoc.
  rewrite drop_app_length'; [done |]. rewrite length_app. cbn. lia.
Qed.

Lemma split_first_head c s : split_first c (c :: s) = ([], s).
Proof. apply (split_first_at c [] s), not_elem_of_nil. Qed.

Lemma split_first_spec c s :
  ((c ∉ s) /\ split_first c s = (s, []))
  \/ (exists p q, s = p ++ c :: q /\ (c ∉ p) /\ split_first c s = (p, q)).
Proof.
  destruct (find_char c s) as [i |] eqn:Hf.
  - right. apply find_char_Some in Hf as (Hs & Hn & _).
    exists (take i s), (drop (S i) s). repeat split; [exact Hs | exact Hn |].
    rewrite Hs at 1. now apply split_first_at.
  - left. apply find_char_None in Hf. split; [exact Hf | now apply split_first_absent].
Qed.

(** A prefix without the separator stays in front. *)
Lemma split_first_app c p s :
  c ∉ p -> split_first c (p ++ s) = (p ++ (split_first c s).1, (split_first c s).2).
Proof.
  intros Hn. destruct (split_first_spec c s) as [[Hs ->] | (a & b & -> & Ha & ->)]; cbn [fst snd].
  - apply split_first_absent. apply not_elem_of_app. done.
  - rewrite app_assoc. apply split_first_at. apply not_elem_of_app. done.
Qed.

Lemma split_on_absent c s : c ∉ s -> split_on c s = [s].
Proof.
  induction s as [| x s IH]; intros Hn; cbn [split_on]; [done |].
  apply not_elem_of_cons in Hn as [Hx Hs].
  destruct (Ascii.eqb_spec x c); [done |]. now rewrite (IH Hs).
Qed.

Lemma split_on_at c p s : c ∉ p -> split_on c (p ++ c :: s) = p :: split_on c s.
Proof.
  induction p as [| x p IH]; intros Hn; cbn [app split_on].
  - now rewrite Ascii.eqb_refl.
  - apply not_elem_of_cons in Hn as [Hx Hp].
    destruct (Ascii.eqb_spec x c); [done |]. now rewrite (IH Hp).
Qed.

Lemma split_on_join c l :
  l <> [] -> Forall (fun s => c ∉ s) l -> split_on c (join [c] l) = l.
Proof.
  intros Hl Hf. induction Hf as [| s l Hs Hf IH]; [done |].
  destruct l as [| s' l]; cbn [join].
  - now apply split_on_absent.
  - cbn [app]. rewrite split_on_at by exact Hs. f_equal. now apply IH.
Qed.

(** *** Query strings *)

Lemma sequence_Ok {A} (l : list (result A)) r : sequence l = Ok r -> l = map Ok r.
Proof.
  revert r. induction l as [| [a | e] l IH]; intros r; cbn [sequence].
  - now intros [= <-].
  - destruct (sequence l) as [r' |]; [| discriminate]. intros [= <-].
    cbn. f_equal. now apply IH.
  - discriminate.
Qed.

Lemma urlencode_items d nq :
  urlencode d = Ok nq ->
  exists items, nq = join ["&"%char] items /\ Forall (encoded_pair d) items.
Proof.
  unfold urlencode. destruct (sequence _) as [items |] eqn:Hs; [| discriminate].
  intros [= <-]. exists items. split; [reflexivity |].
  apply sequence_Ok in Hs. apply Forall_forall. intros item Hin.
  assert (Hin' : Ok item ∈ map Ok items) by (apply list_elem_of_fmap; eauto).
  rewrite <- Hs in Hin'. apply list_elem_of_In, in_flat_map in Hin' as ([k vs] & Hd & Hi).
  cbn [fst snd] in Hi. destruct (quote_plus k) as [qk | e] eqn:Hk.
  - apply in_map_iff in Hi as (v & Hv & _).
    destruct (quote_plus v) as [qv | e] eqn:Hqv; [| discriminate].
    injection Hv as <-. exists k, v, qk, qv. repeat split; try done.
    apply list_elem_of_fmap. exists (k, vs). split; [done | now apply list_elem_of_In].
  - destruct Hi as [Hi | []]. discriminate.
Qed.

Lemma quoted_char_not c sep :
  quoted_char sep = false -> Forall (fun x => quoted_char x = true) c -> sep ∉ c.
Proof.
  intros Hsep Hc Hin. rewrite Forall_forall in Hc. apply Hc in Hin. congruence.
Qed.

Lemma encoded_pair_parsed d item :
  encoded_pair d item ->
  ("&"%char ∉ item) /\ item <> []
  /\ exists n v, split_first "=" item = (n, v) /\ unquote_plus n ∈ dict_keys d.
Proof.
  intros (k & v & qk & qv & Hk & Hqk & Hqv & ->).
  pose proof (quote_plus_chars _ _ Hqk) as Ck. pose proof (quote_plus_chars _ _ Hqv) as Cv.
  repeat split.
  - apply not_elem_of_app. split; [now apply (quoted_char_not qk) |].
    apply not_elem_of_cons. split; [discriminate | now apply (quoted_char_not qv)].
  - now destruct qk.
  - exists qk, qv. rewrite split_first_at by (now apply (quoted_char_not qk)).
    now rewrite (unquote_plus_quote_plus _ _ Hqk).
Qed.

(** The names read from an encoded dictionary are names of the dictionary. *)
Lemma parse_qsl_urlencode d nq :
  urlencode d = Ok nq ->
  Forall (fun nv => nv.1 ∈ dict_keys d) (parse_qsl nq).
Proof.
  intros He. destruct (urlencode_items d nq He) as (items & -> & Hitems).
  unfold parse_qsl. destruct (join ["&"%char] items) eqn:Hj; [constructor |].
  rewrite <- Hj. clear Hj.
  destruct items as [| i0 items']; [constructor |].
  rewrite split_on_join; [| done |].
  - apply Forall_forall. intros nv Hin.
    apply list_elem_of_In, in_flat_map in Hin as (item & Hi & Hnv).
    apply list_elem_of_In in Hi. rewrite Forall_forall in Hitems.
    destruct (encoded_pair_parsed d item (Hitems _ Hi)) as (_ & Hne & n & v & Hv & Hk).
    destruct item; [done |]. rewrite Hv in Hnv. destruct Hnv as [<- | []]. exact Hk.
  - eapply Forall_impl; [exact Hitems |]. intros item Hi.
    now destruct (encoded_pair_parsed d item Hi).
Qed.

Lemma dict_append_keys k v d x :
  x ∈ dict_keys (dict_append k v d) -> x = k \/ x ∈ dict_keys d.
Proof.
  unfold dict_keys. induction d as [| [k' vs] d IH]; cbn [dict_append map fst].
  - intros Hx. apply list_elem_of_singleton in Hx. now left.
  - case_bool_decide; cbn [map fst]; intros Hx.
    + now right.
    + apply elem_of_cons in Hx as [-> | Hx]; [right; left |].
      destruct (IH Hx) as [-> | Hd]; [now left | right; now right].
Qed.

Lemma parse_qs_keys qs x :
  x ∈ dict_keys (parse_qs qs) -> x ∈ map fst (parse_qsl qs).
Proof.
  unfold parse_qs.
  assert (G : forall l d, x ∈ dict_keys (fold_left (fun d nv => dict_append nv.1 nv.2 d) l d) ->
                          x ∈ dict_keys d \/ x ∈ map fst l).
  { induction l as [| nv l IH]; intros d; cbn [fold_left map]; [now left |].
    intros Hx. destruct (IH _ Hx) as [Hd | Hl]; [| right; now right].
    destruct (dict_append_keys _ _ _ _ Hd) as [-> | Hd']; [right; left | now left]. }
  intros Hx. destruct (G _ _ Hx) as [Hd | Hl]; [| exact Hl].
  cbn in Hd. now apply not_elem_of_nil in Hd.
Qed.

(** Reading back an encoded dictionary gives no new name. *)
Lemma parse_qs_urlencode_keys d nq x :
  urlencode d = Ok nq -> x ∈ dict_keys (parse_qs nq) -> x ∈ dict_keys d.
Proof.
  intros He Hx. apply parse_qs_keys, list_elem_of_fmap in Hx as (nv & -> & Hnv).
  pose proof (parse_qsl_urlencode d nq He) as Hf. rewrite Forall_forall in Hf. now apply Hf.
Qed.

(** *** Splitting a URL *)

Section Parse.
Context `{NetlocChecks}.

Lemma scheme_char_plain c :
  mem c scheme_chars = true ->
  lower_char c <> "#"%char /\ lower_char c <> "?"%char /\ lower_char c <> ":"%char
  /\ c <> "#"%char /\ c <> "?"%char /\ c <> ":"%char.
Proof.
  destruct c as [[] [] [] [] [] [] [] []]; vm_compute; intros; try discriminate;
    repeat split; discriminate.
Qed.

(** Either no scheme is found, or the URL is a scheme, a colon and the rest. *)
Lemma split_scheme_spec url sc rest :
  split_scheme url = (sc, rest) ->
  (sc = [] /\ rest = url)
  \/ (exists raw, url = raw ++ ":"%char :: rest /\ sc = lower raw
                  /\ Forall (fun c => mem c scheme_chars = true) raw
                  /\ exists c0 t, raw = c0 :: t /\ is_ascii c0 && is_alpha_ascii c0 = true).
Proof.
  unfold split_scheme.
  destruct (find_char ":" url) as [[| i] |] eqn:Hf; try (intros [= <- <-]; now left).
  destruct url as [| c0 url']; [intros [= <- <-]; now left |].
  destruct (is_ascii c0 && is_alpha_ascii c0) eqn:Hc0; cbn [andb]; [| intros [= <- <-]; now left].
  destruct (forallb _ (take (S i) (c0 :: url'))) eqn:Hs; intros [= <- <-]; [| now left].
  right. apply find_char_Some in Hf as (Hu & _ & _).
  exists (take (S i) (c0 :: url')). repeat split.
  - exact Hu.
  - apply Forall_forall. intros c Hc. rewrite forallb_forall in Hs.
    now apply Hs, list_elem_of_In.
  - exists c0, (take i url'). done.
Qed.

Lemma split_netloc_spec url nl rest bad :
  split_netloc url = (nl, rest, bad) ->
  (nl = [] /\ rest = url /\ bad = false)
  \/ (url = "/"%char :: "/"%char :: nl ++ rest
      /\ Forall (fun c => netloc_delim c = false) nl
      /\ match rest with [] => True | c :: _ => netloc_delim c = true end).
Proof.
  unfold split_netloc.
  destruct url as [| a url1]; [intros [= <- <- <-]; now left |].
  destruct (Ascii.eqb_spec a "/") as [-> | Ha].
  2:{ destruct a as [[] [] [] [] [] [] [] []]; try (intros [= <- <- <-]; now left); done. }
  destruct url1 as [| b url']; [intros [= <- <- <-]; now left |].
  destruct (Ascii.eqb_spec b "/") as [-> | Hb].
  2:{ destruct b as [[] [] [] [] [] [] [] []]; try (intros [= <- <- <-]; now left); done. }
  unfold _splitnetloc. destruct (span _ url') as [n r] eqn:Hs. intros [= <- <- <-].
  right. apply span_spec in Hs as (-> & Hn & Hr). repeat split.
  - eapply Forall_impl; [exact Hn |]. cbn. intros c Hc. now destruct (netloc_delim c).
  - destruct r; [done |]. now destruct (netloc_delim a).
Qed.

Lemma delim_free nl :
  Forall (fun c => netloc_delim c = false) nl ->
  ("#"%char ∉ nl) /\ ("?"%char ∉ nl) /\ ("/"%char ∉ nl).
Proof.
  intros Hn. rewrite Forall_forall in Hn.
  repeat split; intros Hin; apply Hn in Hin; discriminate.
Qed.

Lemma scheme_free raw :
  Forall (fun c => mem c scheme_chars = true) raw ->
  ("#"%char ∉ raw) /\ ("?"%char ∉ raw) /\ (":"%char ∉ raw)
  /\ ("#"%char ∉ lower raw) /\ ("?"%char ∉ lower raw) /\ (":"%char ∉ lower raw).
Proof.
  intros Hr. rewrite Forall_forall in Hr.
  repeat split; intros Hin;
    try (apply Hr, scheme_char_plain in Hin; intuition congruence);
    apply list_elem_of_fmap in Hin as (c & Hc & Hin);
    apply Hr, scheme_char_plain in Hin; intuition congruence.
Qed.

Lemma query_of_app p t :
  "#"%char ∉ p -> "?"%char ∉ p -> query_of (p ++ t) = query_of t.
Proof.
  intros Hh Hq. unfold query_of. rewrite (split_first_app "#" p t Hh). cbn [fst].
  now rewrite (split_first_app "?" p _ Hq).
Qed.

(** The query [urlsplit] returns is the one between the first question mark
    and the first hash of the cleaned URL. *)
Lemma urlsplit_query url r :
  urlsplit url = Ok r -> s_query r = query_of (clean_url url).
Proof.
  unfold urlsplit.
  destruct (split_scheme (clean_url url)) as [sc u1] eqn:H1.
  destruct (split_netloc u1) as [[nl u2] bad] eqn:H2.
  destruct bad; [discriminate |].
  destruct (split_first "#" u2) as [u3 fr] eqn:H3.
  destruct (split_first "?" u3) as [u4 q] eqn:H4.
  destruct (negb _ && negb _); [discriminate |]. intros [= <-]. cbn [s_query].
  assert (Hq : q = query_of u2) by (unfold query_of; rewrite H3; cbn [fst]; now rewrite H4).
  rewrite Hq. clear H3 H4 Hq.
  assert (E2 : query_of u1 = query_of u2).
  { apply split_netloc_spec in H2 as [(_ & -> & _) | (-> & Hn & _)]; [done |].
    apply delim_free in Hn as (Hh & Hq & _).
    change ("/"%char :: "/"%char :: nl ++ u2) with (("/"%char :: "/"%char :: nl) ++ u2).
    apply query_of_app; rewrite !not_elem_of_cons; done. }
  rewrite <- E2.
  apply split_scheme_spec in H1 as [(_ & ->) | (raw & -> & _ & Hr & _)]; [done |].
  apply scheme_free in Hr as (Hh & Hq & _).
  change (raw ++ ":"%char :: u1) with (raw ++ [":"%char] ++ u1). rewrite app_assoc.
  symmetry. apply query_of_app; rewrite not_elem_of_app, list_elem_of_singleton; done.
Qed.

Lemma split_first_fst c s :
  (c ∉ (split_first c s).1) /\ exists t, s = (split_first c s).1 ++ t.
Proof.
  destruct (split_first_spec c s) as [[Hs ->] | (a & b & -> & Ha & ->)]; cbn [fst].
  - split; [exact Hs | exists []; now rewrite app_nil_r].
  - split; [exact Ha | now exists (c :: b)].
Qed.

Lemma in_take (c : ascii) i (s : str) : c ∈ take i s -> c ∈ s.
Proof. intros Hc. rewrite <- (take_drop i s). apply elem_of_app. now left. Qed.

Lemma in_drop (c : ascii) i (s : str) : c ∈ drop i s -> c ∈ s.
Proof. intros Hc. rewrite <- (take_drop i s). apply elem_of_app. now right. Qed.

Lemma _splitparams_parts c url :
  c ∉ url -> (c ∉ (_splitparams url).1) /\ (c ∉ (_splitparams url).2).
Proof.
  intros Hc. unfold _splitparams.
  destruct (rfind_char "/" url); [destruct (find_char_from ";" _ url) | destruct (find_char ";" url)];
    cbn [fst snd]; split; try exact Hc; try apply not_elem_of_nil;
    intros Hin; [apply in_take in Hin | apply in_drop in Hin
                 | apply in_take in Hin | apply in_drop in Hin]; done.
Qed.

(** What [urlsplit] returns, step by step. *)
Lemma urlsplit_steps url r :
  urlsplit url = Ok r ->
  exists u1 u2,
    split_scheme (clean_url url) = (s_scheme r, u1)
    /\ split_netloc u1 = (s_netloc r, u2, false)
    /\ split_first "#" u2 = ((split_first "#" u2).1, s_fragment r)
    /\ split_first "?" (split_first "#" u2).1 = (s_path r, s_query r)
    /\ negb (forallb is_ascii (s_netloc r)) && negb (nfkc_netloc_ok (s_netloc r)) = false.
Proof.
  unfold urlsplit.
  destruct (split_scheme (clean_url url)) as [sc u1] eqn:H1.
  destruct (split_netloc u1) as [[nl u2] bad] eqn:H2.
  destruct bad; [discriminate |].
  destruct (split_first "#" u2) as [u3 fr] eqn:H3.
  destruct (split_first "?" u3) as [u4 q] eqn:H4.
  destruct (negb _ && negb _) eqn:H5; [discriminate |]. intros [= <-]. cbn.
  exists u1, u2. rewrite H3. cbn [fst]. rewrite H4. done.
Qed.

(** No component before the query holds a question mark or a hash. *)
Lemma urlsplit_plain url r :
  urlsplit url = Ok r ->
  Forall (fun c => c <> "#"%char /\ c <> "?"%char) (s_scheme r ++ s_netloc r ++ s_path r).
Proof.
  intros Hu. apply urlsplit_steps in Hu as (u1 & u2 & H1 & H2 & H3 & H4 & _).
  assert (G : forall l : str, ("#"%char ∉ l) -> ("?"%char ∉ l) ->
                Forall (fun c => c <> "#"%char /\ c <> "?"%char) l).
  { intros l Hh Hq. apply Forall_forall. intros c Hc. split; intros ->; done. }
  rewrite !Forall_app. repeat split.
  - apply split_scheme_spec in H1 as [(-> & _) | (raw & _ & -> & Hr & _)]; [constructor |].
    apply scheme_free in Hr as (_ & _ & _ & Hh & Hq & _). now apply G.
  - apply split_netloc_spec in H2 as [(-> & _) | (_ & Hn & _)]; [constructor |].
    apply delim_free in Hn as (Hh & Hq & _). now apply G.
  - destruct (split_first_fst "#" u2) as (Hh & _).
    destruct (split_first_fst "?" (split_first "#" u2).1) as (Hq & t & Ht).
    rewrite H4 in Hq, Ht. cbn [fst] in Hq, Ht. apply G; [| exact Hq].
    intros Hin. apply Hh. rewrite Ht. apply elem_of_app. now left.
Qed.

Lemma urlparse_steps url pu :
  urlparse url = Ok pu ->
  exists r, urlsplit url = Ok r
    /\ scheme pu = s_scheme r /\ netloc pu = s_netloc r
    /\ query pu = s_query r /\ fragment pu = s_fragment r
    /\ (path pu, params pu) =
       (if str_in (s_scheme r) uses_params && mem ";"%char (s_path r)
        then _splitparams (s_path r) else (s_path r, [])).
Proof.
  unfold urlparse. destruct (urlsplit url) as [r | e]; [| discriminate].
  destruct (if str_in _ _ && _ then _ else _) as [u p] eqn:Hp.
  intros [= <-]. cbn. now exists r.
Qed.

Lemma urlparse_query url pu :
  urlparse url = Ok pu -> query pu = query_of (clean_url url).
Proof.
  intros Hu. apply urlparse_steps in Hu as (r & Hr & _ & _ & -> & _). now apply urlsplit_query.
Qed.

Lemma urlparse_plain url pu :
  urlparse url = Ok pu ->
  Forall (fun c => c <> "#"%char /\ c <> "?"%char)
         (scheme pu ++ netloc pu ++ path pu ++ params pu).
Proof.
  intros Hu. apply urlparse_steps in Hu as (r & Hr & -> & -> & _ & _ & Hp).
  apply urlsplit_plain in Hr. rewrite !Forall_app in Hr. destruct Hr as (Hs & Hn & Hu).
  rewrite !Forall_app. split; [exact Hs |]. split; [exact Hn |].
  destruct (_ && _).
  - assert (Hh : "#"%char ∉ s_path r).
    { intros Hin. rewrite Forall_forall in Hu. now destruct (Hu _ Hin). }
    assert (Hq : "?"%char ∉ s_path r).
    { intros Hin. rewrite Forall_forall in Hu. now destruct (Hu _ Hin). }
    destruct (_splitparams_parts _ _ Hh) as [Hh1 Hh2].
    destruct (_splitparams_parts _ _ Hq) as [Hq1 Hq2].
    rewrite <- Hp in Hh1, Hh2, Hq1, Hq2. cbn [fst snd] in *.
    split; apply Forall_forall; intros c Hc; split; intros ->; done.
  - injection Hp as -> ->. split; [exact Hu | constructor].
Qed.

End Parse.

(** *** Putting a URL together *)


(** *** Putting a URL together *)

Lemma urlunsplit_parts sc nl url q f :
  urlunsplit sc nl url q f = urlunsplit sc nl url [] [] ++ query_part q ++ fragment_part f.
Proof.
  unfold urlunsplit, query_part, fragment_part. cbn [non_empty].
  destruct (non_empty q), (non_empty f); rewrite ?app_nil_r, <- ?app_assoc; reflexivity.
Qed.

Lemma urlunsplit_head_plain sc nl url :
  Forall (fun c => c <> "#"%char /\ c <> "?"%char) (sc ++ nl ++ url) ->
  Forall (fun c => c <> "#"%char /\ c <> "?"%char) (urlunsplit sc nl url [] []).
Proof.
  rewrite !Forall_app. intros (Hs & Hn & Hu).
  unfold urlunsplit. cbn [non_empty].
  change (lit "//") with ["/"%char; "/"%char].
  repeat match goal with |- context [if ?b then _ else _] => destruct b end;
    repeat first [assumption | apply Forall_app_2 | apply Forall_cons_2 | apply Forall_nil_2];
    split; discriminate.
Qed.

Lemma drop_while_app_stop p x y :
  match y with [] => True | c :: _ => p c = false end ->
  drop_while p (x ++ y) = drop_while p x ++ y.
Proof.
  intros Hy. induction x as [| c x IH]; cbn [app drop_while].
  - destruct y as [| c y]; [reflexivity |]. cbn [drop_while]. now rewrite Hy.
  - now destruct (p c).
Qed.

Lemma filter_keeps (p : ascii -> bool) (l : str) :
  Forall (fun c => p c = true) l -> List.filter p l = l.
Proof.
  induction 1 as [| c l Hc _ IH]; cbn [List.filter]; [reflexivity |]. now rewrite Hc, IH.
Qed.

Lemma clean_url_plain (P : ascii -> Prop) url : Forall P url -> Forall P (clean_url url).
Proof.
  intros Hu. unfold clean_url. apply Forall_forall. intros c Hc.
  apply list_elem_of_In, filter_In in Hc as [Hc _].
  destruct (drop_while_spec c0_control_or_space url) as (a & Ha & _).
  rewrite Forall_forall in Hu. apply Hu. rewrite Ha. apply elem_of_app. right.
  now apply list_elem_of_In.
Qed.

(** The query read from a rebuilt URL is the query it was built with. *)
Lemma rebuilt_query a nq fr :
  Forall (fun c => c <> "#"%char /\ c <> "?"%char) a ->
  Forall (fun c => c <> "#"%char /\ unsafe_url_byte c = false) nq ->
  query_of (clean_url (a ++ query_part nq ++ fragment_part fr)) = nq.
Proof.
  intros Ha Hq. unfold clean_url.
  rewrite drop_while_app_stop.
  2:{ unfold query_part, fragment_part.
      destruct nq; cbn [non_empty app]; [| reflexivity]. now destruct fr. }
  rewrite !List.filter_app.
  assert (Hq' : List.filter (fun c => negb (unsafe_url_byte c)) (query_part nq) = query_part nq).
  { apply filter_keeps. unfold query_part. destruct nq; cbn [non_empty]; constructor; [reflexivity |].
    eapply Forall_impl; [exact Hq |]. cbn. now intros c [_ ->]. }
  rewrite Hq'.
  assert (Hf : List.filter (fun c => negb (unsafe_url_byte c)) (fragment_part fr) = []
               \/ exists fr', List.filter (fun c => negb (unsafe_url_byte c)) (fragment_part fr)
                              = "#"%char :: fr').
  { unfold fragment_part. destruct fr as [| c fr]; cbn [non_empty]; [now left |].
    right. now eexists. }
  rewrite query_of_app.
  2,3: pose proof (clean_url_plain _ _ Ha) as Hc; unfold clean_url in Hc;
       rewrite Forall_forall in Hc; intros Hin; apply Hc in Hin; now destruct Hin.
  unfold query_of, query_part.
  assert (Hh : "#"%char ∉ nq).
  { intros Hin. rewrite Forall_forall in Hq. now destruct (Hq _ Hin). }
  destruct nq as [| c nq]; cbn [non_empty app].
  - destruct Hf as [-> | (fr' & ->)]; [reflexivity |].
    now rewrite split_first_head.
  - assert (Hh' : "#"%char ∉ "?"%char :: c :: nq)
      by (apply not_elem_of_cons; split; [discriminate | exact Hh]).
    destruct Hf as [-> | (fr' & ->)].
    + rewrite app_nil_r, (split_first_absent "#") by exact Hh'. cbn [fst].
      now rewrite split_first_head.
    + change ("?"%char :: c :: nq ++ "#"%char :: fr')
        with (("?"%char :: c :: nq) ++ "#"%char :: fr').
      rewrite (split_first_at "#") by exact Hh'. cbn [fst].
      now rewrite split_first_head.
Qed.

Lemma quoted_char_plain c :
  quoted_char c = true \/ c = "&"%char \/ c = "="%char ->
  c <> "#"%char /\ unsafe_url_byte c = false.
Proof.
  intros [Hc | [-> | ->]]; [| split; [discriminate | reflexivity] ..].
  destruct c as [[] [] [] [] [] [] [] []]; vm_compute in Hc; try discriminate Hc;
    (split; [discriminate | reflexivity]).
Qed.

Lemma join_chars (P : ascii -> Prop) sep items :
  Forall P sep -> Forall (Forall P) items -> Forall P (join sep items).
Proof.
  intros Hsep. induction 1 as [| s l Hs Hl IH]; cbn [join]; [constructor |].
  destruct l as [| s' l]; [exact Hs |]. rewrite !Forall_app. auto.
Qed.

(** An encoded query holds no hash, tab or line break. *)
Lemma urlencode_plain d nq :
  urlencode d = Ok nq -> Forall (fun c => c <> "#"%char /\ unsafe_url_byte c = false) nq.
Proof.
  intros He. destruct (urlencode_items d nq He) as (items & -> & Hitems).
  apply join_chars.
  - constructor; [split; [discriminate | reflexivity] | constructor].
  - eapply Forall_impl; [exact Hitems |]. cbn.
    intros item (k & v & qk & qv & _ & Hqk & Hqv & ->).
    apply quote_plus_chars in Hqk, Hqv.
    rewrite Forall_app, Forall_cons. repeat split.
    + eapply Forall_impl; [exact Hqk |]. cbn. intros c Hc. apply quoted_char_plain. now left.
    + discriminate.
    + eapply Forall_impl; [exact Hqv |]. cbn. intros c Hc. apply quoted_char_plain. now left.
Qed.

(** *** Reading a rebuilt URL again *)

Lemma lower_char_scheme c :
  mem c scheme_chars = true ->
  mem (lower_char c) scheme_chars = true /\ lower_char (lower_char c) = lower_char c
  /\ unsafe_url_byte (lower_char c) = false.
Proof.
  destruct c as [[] [] [] [] [] [] [] []]; vm_compute; intros Hc; try discriminate Hc;
    repeat split.
Qed.

Lemma lower_char_alpha c :
  is_ascii c && is_alpha_ascii c = true ->
  is_ascii (lower_char c) && is_alpha_ascii (lower_char c) = true
  /\ c0_control_or_space (lower_char c) = false.
Proof.
  destruct c as [[] [] [] [] [] [] [] []]; vm_compute; intros Hc; try discriminate Hc;
    repeat split.
Qed.

Lemma split_first_pieces c s a b :
  split_first c s = (a, b) -> (c ∉ a) /\ exists m, s = a ++ m ++ b.
Proof.
  destruct (split_first_spec c s) as [[Hs ->] | (p & q & -> & Hp & ->)]; intros [= <- <-].
  - split; [exact Hs | exists []; cbn; now rewrite app_nil_r].
  - split; [exact Hp | now exists [c]].
Qed.

Lemma clean_url_safe url : Forall (fun c => unsafe_url_byte c = false) (clean_url url).
Proof.
  apply Forall_forall. intros c Hc. unfold clean_url in Hc.
  apply list_elem_of_In, filter_In in Hc as [_ Hc]. now apply negb_true_iff in Hc.
Qed.

Lemma clean_url_fixed v :
  match v with [] => True | c :: _ => c0_control_or_space c = false end ->
  Forall (fun c => unsafe_url_byte c = false) v ->
  clean_url v = v.
Proof.
  intros Hh Hv. unfold clean_url.
  assert (E : drop_while c0_control_or_space v = v).
  { destruct v as [| c v]; [reflexivity |]. cbn [drop_while]. now rewrite Hh. }
  rewrite E. apply filter_keeps. eapply Forall_impl; [exact Hv |]. cbn. now intros c ->.
Qed.

Lemma split_query_fragment url nq fr :
  Forall (fun c => c <> "#"%char /\ c <> "?"%char) url ->
  Forall (fun c => c <> "#"%char /\ unsafe_url_byte c = false) nq ->
  split_first "#" (url ++ query_part nq ++ fragment_part fr) = (url ++ query_part nq, fr)
  /\ split_first "?" (url ++ query_part nq) = (url, nq).
Proof.
  intros Hu Hq.
  assert (Hh : "#"%char ∉ url) by (intros Hin; rewrite Forall_forall in Hu; now destruct (Hu _ Hin)).
  assert (Hm : "?"%char ∉ url) by (intros Hin; rewrite Forall_forall in Hu; now destruct (Hu _ Hin)).
  assert (Hn : "#"%char ∉ nq) by (intros Hin; rewrite Forall_forall in Hq; now destruct (Hq _ Hin)).
  assert (Hhq : "#"%char ∉ url ++ query_part nq).
  { apply not_elem_of_app. split; [exact Hh |]. unfold query_part.
    destruct nq; cbn [non_empty]; [apply not_elem_of_nil |].
    apply not_elem_of_cons. split; [discriminate | exact Hn]. }
  split.
  - rewrite app_assoc. unfold fragment_part at 1. destruct fr; cbn [non_empty].
    + rewrite app_nil_r. now apply split_first_absent.
    + now apply split_first_at.
  - unfold query_part. destruct nq; cbn [non_empty].
    + rewrite app_nil_r. now apply split_first_absent.
    + now apply split_first_at.
Qed.

Section Again.
Context `{NetlocChecks}.

Lemma split_netloc_again u1 nl u2 rest :
  split_netloc u1 = (nl, u2, false) -> nl <> [] ->
  match rest with [] => True | c :: _ => netloc_delim c = true end ->
  split_netloc ("/"%char :: "/"%char :: nl ++ rest) = (nl, rest, false).
Proof.
  intros H1 Hne Hrest.
  destruct (split_netloc_spec _ _ _ _ H1) as [(-> & _) | (-> & Hn & Hu2)]; [done |].
  assert (Hp : Forall (fun c => negb (netloc_delim c) = true) nl).
  { eapply Forall_impl; [exact Hn |]. cbn. now intros c ->. }
  cbn [split_netloc] in *. unfold _splitnetloc in *.
  rewrite span_unique in H1; [| exact Hp | destruct u2; [done | now rewrite Hu2]].
  rewrite span_unique; [| exact Hp | destruct rest; [done | now rewrite Hrest]].
  injection H1 as ->. reflexivity.
Qed.

Lemma split_scheme_again url sc u1 rest :
  split_scheme url = (sc, u1) ->
  split_scheme ((if non_empty sc then sc ++ [":"%char] else []) ++ "/"%char :: rest)
  = (sc, "/"%char :: rest).
Proof.
  intros H1.
  destruct (split_scheme_spec _ _ _ H1) as [(-> & _) | (raw & _ & -> & Hr & c0 & t & -> & Hc0)].
  - cbn [non_empty app]. unfold split_scheme.
    destruct (find_char ":" _) as [[| i] |]; reflexivity.
  - cbn [lower map non_empty]. unfold split_scheme.
    assert (Hl : ":"%char ∉ lower (c0 :: t)) by (now apply scheme_free in Hr).
    change (map lower_char t) with (lower t).
    change (lower_char c0 :: lower t) with (lower (c0 :: t)) in *.
    rewrite <- app_assoc. cbn [app].
    rewrite (find_char_app _ _ _ Hl). cbn [find_char]. rewrite Ascii.eqb_refl. cbn [fmap option_fmap option_map].
    rewrite Nat.add_0_r. unfold lower at 1. rewrite length_map. cbn [length].
    change (lower_char c0 :: lower t) with (lower (c0 :: t)) in *.
    assert (Hlen : S (length t) = length (lower (c0 :: t))) by (unfold lower; now rewrite length_map).
    cbn [lower map app].
    destruct (lower_char_alpha _ Hc0) as [-> _]. cbn [andb].
    change (lower_char c0 :: map lower_char t ++ ":"%char :: "/"%char :: rest)
      with (lower (c0 :: t) ++ ":"%char :: "/"%char :: rest).
    rewrite Hlen, take_app_length.
    assert (Hs : forallb (fun c => mem c scheme_chars) (lower (c0 :: t)) = true).
    { apply forallb_forall. intros c Hc. apply list_elem_of_In, list_elem_of_fmap in Hc as (x & -> & Hx).
      rewrite Forall_forall in Hr. now apply lower_char_scheme, Hr. }
    rewrite Hs. f_equal.
    + unfold lower. rewrite map_map.
      change (lower_char c0 :: map lower_char t) with (map lower_char (c0 :: t)).
      apply map_ext_in. intros c Hc.
      rewrite Forall_forall in Hr. now apply lower_char_scheme, Hr, list_elem_of_In.
    + change (lower (c0 :: t) ++ ":"%char :: "/"%char :: rest)
        with (lower (c0 :: t) ++ [":"%char] ++ "/"%char :: rest).
      rewrite app_assoc. apply drop_app_length'. rewrite length_app. cbn. lia.
Qed.

End Again.

Lemma urlunsplit_with_netloc sc nl url q f :
  nl <> [] -> (url = [] \/ exists t, url = "/"%char :: t) ->
  urlunsplit sc nl url q f
  = (if non_empty sc then sc ++ [":"%char] else [])
      ++ "/"%char :: "/"%char :: nl ++ url ++ query_part q ++ fragment_part f.
Proof.
  intros Hn Hu. unfold urlunsplit, query_part, fragment_part.
  destruct nl as [| n nl]; [done |]. cbn [non_empty orb].
  assert (E : (if non_empty url && negb (bool_decide (take 1 url = lit "/"))
               then "/"%char :: url else url) = url).
  { destruct Hu as [-> | (t & ->)]; [reflexivity |]. cbn [non_empty take andb].
    now rewrite bool_decide_eq_true_2. }
  rewrite E. change (lit "//") with ["/"%char; "/"%char].
  destruct (non_empty sc), (non_empty q), (non_empty f);
    cbn [app]; rewrite ?app_nil_r, <- ?app_assoc; cbn [app]; rewrite <- ?app_assoc; reflexivity.
Qed.

(** *** Path parameters *)

Lemma rfind_char_spec c s :
  ((c ∉ s) /\ rfind_char c s = None)
  \/ (exists a b, s = a ++ c :: b /\ (c ∉ b) /\ rfind_char c s = Some (length a)).
Proof.
  unfold rfind_char. destruct (find_char c (rev s)) as [i |] eqn:Hf.
  - right. apply find_char_Some in Hf as (Hs & Hn & Hl).
    exists (rev (drop (S i) (rev s))), (rev (take i (rev s))). repeat split.
    + rewrite <- (rev_involutive s) at 1. rewrite Hs at 1.
      rewrite rev_app_distr. cbn [rev]. now rewrite <- app_assoc.
    + intros Hin. apply Hn. now apply list_elem_of_In, in_rev, list_elem_of_In.
    + f_equal. rewrite length_rev, length_drop, length_rev. rewrite length_rev in Hl. lia.
  - left. split; [| reflexivity]. apply find_char_None in Hf.
    intros Hin. apply Hf. now apply list_elem_of_In, in_rev, list_elem_of_In in Hin.
Qed.

Lemma rfind_char_at c a b : c ∉ b -> rfind_char c (a ++ c :: b) = Some (length a).
Proof.
  intros Hb. destruct (rfind_char_spec c (a ++ c :: b)) as [[Hn _] | (a' & b' & E & Hb' & ->)].
  - exfalso. apply Hn. apply elem_of_app. right. left.
  - f_equal. clear -E Hb Hb'. revert a' E.
    induction a as [| x a IH]; intros [| y a'] E; cbn in *.
    + reflexivity.
    + injection E as <- E. exfalso. apply Hb. rewrite E. apply elem_of_app. right. left.
    + injection E as -> E. exfalso. apply Hb'. rewrite <- E. apply elem_of_app. right. left.
    + injection E as _ E. f_equal. now apply IH.
Qed.

(** After the last slash, the parameters start at the first semicolon. *)
Lemma _splitparams_slash a b :
  "/"%char ∉ b ->
  _splitparams (a ++ "/"%char :: b)
  = (a ++ "/"%char :: (split_first ";" b).1, (split_first ";" b).2).
Proof.
  intros Hb. unfold _splitparams. rewrite (rfind_char_at _ _ _ Hb).
  unfold find_char_from. rewrite drop_app_length. cbn [find_char].
  change (Ascii.eqb "/" ";") with false. cbn iota.
  unfold split_first. destruct (find_char ";" b) as [i |] eqn:Hf; cbn [fmap option_fmap option_map fst snd].
  - f_equal.
    + rewrite take_app_add'; [| reflexivity]. reflexivity.
    + change (a ++ "/"%char :: b) with (a ++ ["/"%char] ++ b). rewrite app_assoc.
      replace (S (length a + S i)) with (length (a ++ ["/"%char]) + S i)%nat
        by (rewrite length_app; cbn; lia).
      apply drop_app_add.
  - reflexivity.
Qed.

Lemma _splitparams_noslash s : "/"%char ∉ s -> _splitparams s = split_first ";" s.
Proof.
  intros Hs. unfold _splitparams.
  destruct (rfind_char_spec "/" s) as [[_ ->] | (a & b & -> & _ & _)]; [reflexivity |].
  exfalso. apply Hs. apply elem_of_app. right. left.
Qed.

(** Either nothing is split off, or the path is what precedes a semicolon
    and is itself left whole when split again. *)
Lemma _splitparams_spec s a b :
  _splitparams s = (a, b) ->
  (a = s /\ b = []) \/ (s = a ++ ";"%char :: b /\ _splitparams a = (a, [])).
Proof.
  destruct (rfind_char_spec "/" s) as [[Hs _] | (x & y & -> & Hy & _)].
  - rewrite (_splitparams_noslash _ Hs).
    destruct (split_first_spec ";" s) as [[Hn ->] | (p & q & -> & Hp & ->)]; intros [= <- <-].
    + now left.
    + right. split; [reflexivity |].
      rewrite _splitparams_noslash; [now apply split_first_absent |].
      intros Hin. apply Hs. apply elem_of_app. now left.
  - rewrite (_splitparams_slash _ _ Hy).
    destruct (split_first_spec ";" y) as [[Hn ->] | (p & q & -> & Hp & ->)]; intros [= <- <-].
    + now left.
    + right. split; [now rewrite <- app_assoc |].
      assert (Hp' : "/"%char ∉ p) by (intros Hin; apply Hy; apply elem_of_app; now left).
      rewrite (_splitparams_slash _ _ Hp'). now rewrite split_first_absent.
Qed.

(** The path and parameters [urlparse] reads from [path;params] are the
    ones it was put together from. *)
Lemma params_again sc s pa pm :
  (pa, pm) = (if str_in sc uses_params && mem ";"%char s then _splitparams s else (s, [])) ->
  let url := if non_empty pm then pa ++ ";"%char :: pm else pa in
  (exists t, s = url ++ t)
  /\ (if str_in sc uses_params && mem ";"%char url then _splitparams url else (url, []))
     = (pa, pm).
Proof.
  destruct (str_in sc uses_params && mem ";"%char s) eqn:Hc.
  - intros Hs. symmetry in Hs. destruct (_splitparams_spec _ _ _ Hs) as [[-> ->] | [-> Ha]].
    + cbn [non_empty]. split; [exists []; now rewrite app_nil_r |]. now rewrite Hc.
    + destruct pm as [| c pm]; cbn [non_empty].
      * split; [now eexists |]. rewrite Ha.
        now destruct (str_in sc uses_params && mem ";"%char pa).
      * split; [exists []; now rewrite app_nil_r |]. now rewrite Hc.
  - intros [= -> ->]. cbn [non_empty]. split; [exists []; now rewrite app_nil_r |]. now rewrite Hc.
Qed.

Section Rebuilt.
Context `{NetlocChecks}.

(** After a network location the path is empty or starts with a slash. *)
Lemma path_after_netloc url r :
  urlsplit url = Ok r -> s_netloc r <> [] ->
  s_path r = [] \/ exists t, s_path r = "/"%char :: t.
Proof.
  intros Hu Hne. pose proof (urlsplit_plain _ _ Hu) as Hp.
  apply urlsplit_steps in Hu as (u1 & u2 & _ & H2 & H3 & H4 & _).
  apply split_netloc_spec in H2 as [(Hnil & _) | (_ & _ & Hd)]; [done |].
  apply split_first_pieces in H3 as (_ & m3 & E3), H4 as (_ & m4 & E4).
  destruct (s_path r) as [| c p] eqn:Ep; [now left |]. right. exists p. f_equal.
  rewrite E4 in E3. rewrite E3 in Hd. cbn in Hd.
  rewrite !Forall_app in Hp. destruct Hp as (_ & _ & Hp).
  apply Forall_cons in Hp as [[Hc1 Hc2] _].
  unfold netloc_delim in Hd.
  destruct (Ascii.eqb_spec c "/") as [-> | _]; [reflexivity |].
  destruct (Ascii.eqb_spec c "?") as [-> | _]; [done |].
  destruct (Ascii.eqb_spec c "#") as [-> | _]; [done | discriminate].
Qed.

(** The components come from the cleaned URL: none holds a tab or a line
    break. *)
Lemma urlsplit_safe url r :
  urlsplit url = Ok r ->
  Forall (fun c => unsafe_url_byte c = false) (s_netloc r ++ s_path r ++ s_fragment r).
Proof.
  intros Hu. apply urlsplit_steps in Hu as (u1 & u2 & H1 & H2 & H3 & H4 & _).
  pose proof (clean_url_safe url) as Hc.
  assert (H1' : Forall (fun c => unsafe_url_byte c = false) u1).
  { apply split_scheme_spec in H1 as [(_ & ->) | (raw & E & _)]; [exact Hc |].
    rewrite E, Forall_app, Forall_cons in Hc. tauto. }
  assert (H2' : Forall (fun c => unsafe_url_byte c = false) (s_netloc r ++ u2)).
  { apply split_netloc_spec in H2 as [(-> & -> & _) | (E & _)]; [exact H1' |].
    rewrite E, !Forall_cons in H1'. tauto. }
  apply split_first_pieces in H3 as (_ & m3 & E3), H4 as (_ & m4 & E4).
  rewrite E3, E4, !Forall_app in H2'. rewrite !Forall_app. tauto.
Qed.

(** A URL with a network location, put together again around a new query,
    splits into the components it was built from. *)
Lemma urlsplit_rebuilt u r nq url t :
  urlsplit u = Ok r -> s_netloc r <> [] -> s_path r = url ++ t ->
  Forall (fun c => c <> "#"%char /\ unsafe_url_byte c = false) nq ->
  urlsplit (urlunsplit (s_scheme r) (s_netloc r) url nq (s_fragment r))
  = Ok {| s_scheme := s_scheme r; s_netloc := s_netloc r; s_path := url;
          s_query := nq; s_fragment := s_fragment r |}.
Proof.
  intros Hu Hne Hurl Hq.
  pose proof (path_after_netloc _ _ Hu Hne) as Hpath.
  pose proof (urlsplit_plain _ _ Hu) as Hplain.
  pose proof (urlsplit_safe _ _ Hu) as Hsafe.
  apply urlsplit_steps in Hu as (u1 & u2 & H1 & H2 & H3 & H4 & H5).
  rewrite Hurl in Hpath, Hplain, Hsafe.
  rewrite !Forall_app in Hplain, Hsafe.
  destruct Hplain as (Hp1 & Hp2 & Hp3 & _). destruct Hsafe as (Hs1 & (Hs2 & _) & Hs3).
  assert (Hurl' : url = [] \/ exists t', url = "/"%char :: t').
  { destruct url as [| c url']; [now left |]. right.
    destruct Hpath as [Hp | (t' & Hp)]; [discriminate |]. injection Hp as -> _. now eexists. }
  rewrite (urlunsplit_with_netloc _ _ _ _ _ Hne Hurl').
  set (rest := s_netloc r ++ url ++ query_part nq ++ fragment_part (s_fragment r)).
  assert (Hrest : Forall (fun c => unsafe_url_byte c = false) rest).
  { unfold rest, query_part, fragment_part. rewrite !Forall_app. repeat split; try assumption.
    - destruct (non_empty nq); constructor; [reflexivity |].
      eapply Forall_impl; [exact Hq |]. cbn. tauto.
    - destruct (non_empty (s_fragment r)); constructor; [reflexivity | assumption]. }
  unfold urlsplit. rewrite clean_url_fixed.
  2:{ apply split_scheme_spec in H1 as [(-> & _) | (raw & _ & -> & Hr & c0 & t0 & -> & Hc0)];
        cbn [lower map non_empty app]; [reflexivity |].
      now apply lower_char_alpha. }
  2:{ rewrite Forall_app, !Forall_cons. repeat split; try assumption.
      apply split_scheme_spec in H1 as [(-> & _) | (raw & _ & -> & Hr & _)];
        cbn [non_empty]; [constructor |].
      destruct (non_empty (lower raw)); [| constructor].
      rewrite Forall_app, Forall_cons. repeat split; [| constructor].
      apply Forall_forall. intros c Hc. apply list_elem_of_fmap in Hc as (x & -> & Hx).
      rewrite Forall_forall in Hr. now apply lower_char_scheme, Hr. }
  rewrite (split_scheme_again _ _ _ _ H1).
  unfold rest.
  rewrite (split_netloc_again _ _ _ _ H2 Hne).
  2:{ unfold query_part, fragment_part. destruct Hurl' as [-> | (t' & ->)]; [| reflexivity].
      cbn [app]. destruct nq; cbn [non_empty app]; [| reflexivity].
      now destruct (s_fragment r). }
  destruct (split_query_fragment url nq (s_fragment r) Hp3 Hq) as [-> ->].
  now rewrite H5.
Qed.

(** Likewise for [urlparse] and [urlunparse]. *)
Lemma urlparse_rebuilt u pu nq :
  urlparse u = Ok pu -> netloc pu <> [] ->
  Forall (fun c => c <> "#"%char /\ unsafe_url_byte c = false) nq ->
  urlparse (urlunparse {| scheme := scheme pu; netloc := netloc pu; path := path pu;
                          params := params pu; query := nq; fragment := fragment pu |})
  = Ok {| scheme := scheme pu; netloc := netloc pu; path := path pu;
          params := params pu; query := nq; fragment := fragment pu |}.
Proof.
  intros Hu Hne Hq.
  apply urlparse_steps in Hu as (r & Hr & -> & Hn & _ & -> & Hp). rewrite Hn in *.
  destruct (params_again _ _ _ _ Hp) as [(t & Ht) Hagain].
  unfold urlunparse. cbn [scheme netloc path params query fragment].
  unfold urlparse. rewrite (urlsplit_rebuilt u r nq _ t Hr Hne Ht Hq).
  cbn [s_scheme s_netloc s_path s_query s_fragment].
  match goal with
  | |- context [match ?e with pair _ _ => _ end] =>
      assert (E : e = (path pu, params pu)) by exact Hagain; rewrite E
  end.
  reflexivity.
Qed.

End Rebuilt.

End UrllibFacts.

(** ** unit_history_sync.py: stripping the downscaling parameters *)

Module UnitUrlFacts.
Import Py Exn Urllib UnitUrl UrllibFacts.

(** *** The loop over the names of the query *)

Lemma drop_loop_kept l d0 c0 d c :
  fold_left (fun '(d, changed) k =>
               if is_remove_key k then (dict_pop k d, true) else (d, changed))
            l (d0, c0) = (d, c) ->
  forall kv, kv ∈ d -> kv ∈ d0 /\ (kv.1 ∈ l -> is_remove_key kv.1 = false).
Proof.
  revert d0 c0. induction l as [| k l IH]; intros d0 c0; cbn [fold_left].
  - intros [= <- <-] kv Hkv. split; [exact Hkv |]. intros Hin. now apply not_elem_of_nil in Hin.
  - intros Hf kv Hkv. destruct (is_remove_key k) eqn:Hk;
      destruct (IH _ _ Hf kv Hkv) as [Hin Hl].
    + unfold dict_pop in Hin. apply list_elem_of_In, filter_In in Hin as [Hin Hne].
      apply negb_true_iff, bool_decide_eq_false in Hne.
      split; [now apply list_elem_of_In |].
      intros [E | Hin']%elem_of_cons; [now destruct Hne | now apply Hl].
    + split; [exact Hin |]. intros [-> | Hin']%elem_of_cons; [exact Hk | now apply Hl].
Qed.

Lemma drop_loop_same l d0 c0 :
  (forall k, k ∈ l -> is_remove_key k = false) ->
  fold_left (fun '(d, changed) k =>
               if is_remove_key k then (dict_pop k d, true) else (d, changed))
            l (d0, c0) = (d0, c0).
Proof.
  induction l as [| k l IH]; intros Hl; cbn [fold_left]; [reflexivity |].
  rewrite (Hl k) by left. apply IH. intros k' Hk'. apply Hl. now right.
Qed.

Lemma drop_loop_changed l d0 d :
  fold_left (fun '(d, changed) k =>
               if is_remove_key k then (dict_pop k d, true) else (d, changed))
            l (d0, false) = (d, false) ->
  forall k, k ∈ l -> is_remove_key k = false.
Proof.
  assert (G : forall l d0 d,
             fold_left (fun '(d, changed) k =>
                          if is_remove_key k then (dict_pop k d, true) else (d, changed))
                       l (d0, true) = (d, false) -> False).
  { clear. induction l as [| k l IH]; intros d0 d; cbn [fold_left]; [discriminate |].
    destruct (is_remove_key k); apply IH. }
  revert d0. induction l as [| k l IH]; intros d0; cbn [fold_left].
  - intros _ k Hk. now apply not_elem_of_nil in Hk.
  - destruct (is_remove_key k) eqn:Hk; intros Hf; [now apply G in Hf |].
    intros k' [-> | Hk']%elem_of_cons; [exact Hk | now apply (IH d0)].
Qed.

(** No name the loop leaves is one of the names to remove. *)
Lemma drop_remove_keys_kept qs d c :
  drop_remove_keys qs = (d, c) -> forall k, k ∈ dict_keys d -> is_remove_key k = false.
Proof.
  intros Hd k Hk. unfold dict_keys in Hk. apply list_elem_of_fmap in Hk as (kv & -> & Hkv).
  destruct (drop_loop_kept _ _ _ _ _ Hd kv Hkv) as [Hin Hl]. apply Hl.
  unfold dict_keys. apply list_elem_of_fmap. now exists kv.
Qed.

(** The loop reports a change exactly when some name is one to remove. *)
Lemma drop_remove_keys_same qs :
  (forall k, k ∈ dict_keys qs -> is_remove_key k = false) ->
  drop_remove_keys qs = (qs, false).
Proof. apply drop_loop_same. Qed.

Lemma drop_remove_keys_unchanged qs d :
  drop_remove_keys qs = (d, false) -> forall k, k ∈ dict_keys qs -> is_remove_key k = false.
Proof. apply drop_loop_changed. Qed.

Section WithChecks.
Context `{NetlocChecks}.

(** The two ways [strip_downscaling_params] returns: the input, or the URL
    put together again around the encoded remaining query. *)
Lemma strip_cases u :
  strip_downscaling_params u = u
  \/ exists pu d nq,
       urlparse u = Ok pu
       /\ drop_remove_keys (parse_qs (query pu)) = (d, true)
       /\ urlencode d = Ok nq
       /\ strip_downscaling_params u =
          urlunparse {| scheme := scheme pu; netloc := netloc pu; path := path pu;
                        params := params pu; query := nq; fragment := fragment pu |}.
Proof.
  unfold strip_downscaling_params.
  destruct (urlparse u) as [pu | e]; [| now left].
  destruct (drop_remove_keys (parse_qs (query pu))) as [d changed] eqn:Hd.
  destruct changed; cbn [negb]; [| now left].
  destruct (urlencode d) as [nq | e] eqn:He; [| now left].
  right. now exists pu, d, nq.
Qed.

(** The rebuilt URL, read again, has the encoded query as its query. *)
Lemma rebuilt_url_query u pu nq pv :
  urlparse u = Ok pu ->
  Forall (fun c => c <> "#"%char /\ unsafe_url_byte c = false) nq ->
  urlparse (urlunparse {| scheme := scheme pu; netloc := netloc pu; path := path pu;
                          params := params pu; query := nq; fragment := fragment pu |})
  = Ok pv ->
  query pv = nq.
Proof.
  intros Hu Hq Hv. rewrite (urlparse_query _ _ Hv).
  unfold urlunparse. cbn [scheme netloc path params query fragment].
  rewrite urlunsplit_parts. apply rebuilt_query; [| exact Hq].
  apply urlunsplit_head_plain. apply urlparse_plain in Hu.
  rewrite !Forall_app in Hu. destruct Hu as (Hs & Hn & Hp & Hm).
  rewrite !Forall_app. repeat split; try assumption.
  destruct (non_empty (params pu)); [| exact Hp].
  rewrite Forall_app, Forall_cons. repeat split; try assumption; discriminate.
Qed.

(** C10. [strip_downscaling_params] is idempotent: for every input string
    [u], stripping the result of stripping [u] gives the result of stripping
    [u].  Either the first call returns its input, or it returns a rebuilt
    URL; read again, the query of that URL is the encoded remaining query,
    whose names are names the loop has kept, so the second call finds
    nothing to remove and returns its input. *)
Theorem strip_downscaling_params_idempotent u :
  strip_downscaling_params (strip_downscaling_params u) = strip_downscaling_params u.
Proof.
  destruct (strip_cases u) as [E | (pu & d & nq & Hu & Hd & He & E)]; rewrite E; [exact E |].
  set (v := urlunparse _). unfold strip_downscaling_params.
  destruct (urlparse v) as [pv | e] eqn:Hv; [| reflexivity].
  rewrite (rebuilt_url_query u pu nq pv Hu (urlencode_plain _ _ He) Hv).
  rewrite drop_remove_keys_same; [reflexivity |].
  intros k Hk. apply (drop_remove_keys_kept _ _ _ Hd).
  now apply (parse_qs_urlencode_keys d nq).
Qed.

(** C3, with the condition under which scheme, host and path are kept.  For
    every URL on which [urlparse] and [urlencode] succeed: if no name of the
    query is one of the names to remove (compared in lower case), the input
    is returned unchanged; however the result is read again, its query holds
    none of those names; and if the input has a network location, the result
    parses and its scheme, network location and path are those of the
    input. *)
Theorem strip_downscaling_params_spec u pu :
  urlparse u = Ok pu ->
  is_ok (urlencode (drop_remove_keys (parse_qs (query pu))).1) = true ->
  let v := strip_downscaling_params u in
  ((forall k, k ∈ dict_keys (parse_qs (query pu)) -> is_remove_key k = false) -> v = u)
  /\ (forall pv, urlparse v = Ok pv ->
       forall k, k ∈ dict_keys (parse_qs (query pv)) -> is_remove_key k = false)
  /\ (netloc pu <> [] ->
      exists pv, urlparse v = Ok pv
                 /\ scheme pv = scheme pu /\ netloc pv = netloc pu /\ path pv = path pu).
Proof.
  intros Hu Henc v.
  destruct (drop_remove_keys (parse_qs (query pu))) as [d c] eqn:Hd. cbn [fst] in Henc.
  destruct (urlencode d) as [nq | e] eqn:He; [clear Henc | discriminate].
  assert (Hv : v = if c then urlunparse {| scheme := scheme pu; netloc := netloc pu;
                                           path := path pu; params := params pu;
                                           query := nq; fragment := fragment pu |}
                   else u).
  { unfold v, strip_downscaling_params. rewrite Hu, Hd. destruct c; cbn [negb]; [| reflexivity].
    now rewrite He. }
  clearbody v. subst v. split; [| split].
  - intros Hnone. rewrite (drop_remove_keys_same _ Hnone) in Hd. now injection Hd as <- <-.
  - intros pv Hpv k Hk. destruct c.
    + rewrite (rebuilt_url_query u pu nq pv Hu (urlencode_plain _ _ He) Hpv) in Hk.
      apply (drop_remove_keys_kept _ _ _ Hd). now apply (parse_qs_urlencode_keys d nq).
    + rewrite Hu in Hpv. injection Hpv as <-. now apply (drop_remove_keys_unchanged _ _ Hd).
  - intros Hne. destruct c; [| now exists pu].
    eexists. split; [apply (urlparse_rebuilt u pu nq Hu Hne (urlencode_plain _ _ He)) |].
    now cbn.
Qed.

End WithChecks.

(** The theorem at a thumbnail URL: the width is dropped, the other
    parameter stays, and scheme, host and path are unchanged. *)
Lemma strip_downscaling_params_spec_witness :
  let u := lit "https://cdn.example.org/img/a.jpg?w=200&id=7" in
  @strip_downscaling_params Scenarios.checks_pass u
  = lit "https://cdn.example.org/img/a.jpg?id=7"
  /\ exists pv,
       @urlparse Scenarios.checks_pass (@strip_downscaling_params Scenarios.checks_pass u) = Ok pv
       /\ scheme pv = lit "https" /\ netloc pv = lit "cdn.example.org"
       /\ path pv = lit "/img/a.jpg".
Proof.
  split; [vm_compute; reflexivity |].
  apply (proj2 (proj2 (@strip_downscaling_params_spec Scenarios.checks_pass
    (lit "https://cdn.example.org/img/a.jpg?w=200&id=7")
    {| scheme := lit "https"; netloc := lit "cdn.example.org"; path := lit "/img/a.jpg";
       params := []; query := lit "w=200&id=7"; fragment := [] |}
    ltac:(vm_compute; reflexivity) ltac:(vm_compute; reflexivity)))).
  discriminate.
Defined.

(** C3 as stated fails without a network location: on [http:foo?w=1] both
    [urlparse] and [urlencode] succeed and the input has the path [foo]; the
    result is [http:///foo], whose path is [/foo]. *)
Lemma strip_changes_path_without_host :
  let u := lit "http:foo?w=1" in
  exists pu pv,
    @urlparse Scenarios.checks_pass u = Ok pu
    /\ is_ok (urlencode (drop_remove_keys (parse_qs (query pu))).1) = true
    /\ @strip_downscaling_params Scenarios.checks_pass u = lit "http:///foo"
    /\ @urlparse Scenarios.checks_pass (@strip_downscaling_params Scenarios.checks_pass u) = Ok pv
    /\ path pu = lit "foo" /\ path pv = lit "/foo" /\ path pv <> path pu.
Proof.
  exists {| scheme := lit "http"; netloc := []; path := lit "foo"; params := [];
            query := lit "w=1"; fragment := [] |},
         {| scheme := lit "http"; netloc := []; path := lit "/foo"; params := [];
            query := []; fragment := [] |}.
  repeat split; try (vm_compute; reflexivity). discriminate.
Qed.

End UnitUrlFacts.

(** ** unit_history_sync.py *)

Module UnitFacts.
Import Py Exn Json Files Urllib UnitUrl Unit.

Section Run.
Context `{Browser} `{NetlocChecks}.

(** *** Computations *)

Lemma bind_ok_inv {A C} (m : M A) (k : A -> M C) w c w' :
  bind m k w = (Ok c, w') ->
  exists a w1, m w = (Ok a, w1) /\ k a w1 = (Ok c, w').
Proof.
  unfold bind. destruct (m w) as [[a | e] w1]; [| discriminate].
  intros Hk. now exists a, w1.
Qed.

Lemma bind_ok {A C} (m : M A) (k : A -> M C) w a w1 :
  m w = (Ok a, w1) -> bind m k w = k a w1.
Proof. unfold bind. now intros ->. Qed.

Lemma bind_raise {A C} (m : M A) (k : A -> M C) w e w1 :
  m w = (Raise e, w1) -> bind m k w = (Raise e, w1).
Proof. unfold bind. now intros ->. Qed.

Lemma call_spec a w :
  exists r b,
    answer a (browser w) = (r, b)
    /\ call a w = (r, {| browser := b; disk := disk w; trace := Called a r :: trace w |}).
Proof.
  unfold call. destruct (answer a (browser w)) as [r b]. now exists r, b.
Qed.

(** *** The debug artifacts *)

Lemma png_is_not_html (tag ts : str) :
  tag ++ lit "_" ++ ts ++ lit ".png" <> tag ++ lit "_" ++ ts ++ lit ".html".
Proof.
  intros E. do 3 apply app_inv_head in E. discriminate E.
Qed.

(** [save_debug] never raises, and captures what the page gives. *)
Lemma save_debug_captures tag w :
  exists w1, save_debug tag w = (Ok tt, w1) /\ debug_captured tag w w1.
Proof.
  unfold save_debug, debug_captured, attempt, catch, bind, on_disk, ret, call.
  cbn [browser disk trace].
  set (ts := strftime _ (browser w)).
  pose proof (png_is_not_html tag ts) as Hne.
  set (shot := tag ++ lit "_" ++ ts ++ lit ".png") in *.
  set (html := tag ++ lit "_" ++ ts ++ lit ".html") in *.
  destruct (answer Screenshot (browser w)) as [[png | e1] b1]; cbn [browser disk trace];
    destruct (answer Content b1) as [[c | e2] b2]; cbn [browser disk trace];
    eexists; (split; [reflexivity |]); cbn [browser disk trace];
    eexists _, _; (split; [reflexivity |]); cbn [write_file files];
    repeat split; intros; simplify_eq;
    rewrite ?lookup_insert_eq; try done;
    try (rewrite !lookup_insert_ne by (by apply not_eq_sym)); rewrite ?lookup_insert_eq; done.
Qed.

(** *** Selector misses *)

(** The selector loops report a miss; they never raise. *)
Lemma first_match_total selectors act w :
  exists found w1, first_match selectors act w = (Ok found, w1).
Proof.
  revert w. induction selectors as [| sel rest IH]; intros w; cbn [first_match].
  - now exists false, w.
  - unfold bind at 1. unfold catch.
    destruct (bind (call (Count (Loc sel))) _ w) as [[[] | e] w1]; cbn.
    + now exists true, w1.
    + apply IH.
    + apply IH.
Qed.

(** The wait for the story cards times out: the artifacts are captured and
    [RuntimeError] is raised. *)
Lemma story_cards_miss w b :
  answer (WaitForSelector STORY_CARD_SELECTOR) (browser w) = (Raise PWTimeoutError, b) ->
  exists w1 w',
    wait_for_story_cards w = (Raise story_cards_not_found, w')
    /\ trace w1 = Called (WaitForSelector STORY_CARD_SELECTOR) (Raise PWTimeoutError) :: trace w
    /\ disk w1 = disk w
    /\ debug_captured (lit "story_cards_not_found") w1 w'.
Proof.
  intros Ha. unfold wait_for_story_cards.
  set (w1 := {| browser := b; disk := disk w;
                trace := Called (WaitForSelector STORY_CARD_SELECTOR) (Raise PWTimeoutError)
                         :: trace w |}).
  destruct (save_debug_captures (lit "story_cards_not_found") w1) as (w' & Hs & Hc).
  exists w1, w'. repeat split; [| exact Hc].
  unfold bind at 1, catch_timeout, call. rewrite Ha. fold w1.
  unfold bind, raise. now rewrite Hs.
Qed.

Lemma open_story_grid_miss w w0 b :
  (call (Goto START_URL) ;;; call (WaitForTimeout 1200)) w = (Ok tt, w0) ->
  is_login_page (page_url (browser w0)) = false ->
  answer (WaitForSelector STORY_CARD_SELECTOR) (browser w0) = (Raise PWTimeoutError, b) ->
  exists w1 w',
    open_story_grid w = (Raise story_cards_not_found, w')
    /\ trace w1 = Called (WaitForSelector STORY_CARD_SELECTOR) (Raise PWTimeoutError) :: trace w0
    /\ disk w1 = disk w0
    /\ debug_captured (lit "story_cards_not_found") w1 w'.
Proof.
  intros Hpre Hurl Ha.
  destruct (story_cards_miss w0 b Ha) as (w1 & w' & Hw & Ht & Hd & Hc).
  exists w1, w'. repeat split; try assumption.
  unfold open_story_grid.
  apply bind_ok_inv in Hpre as ([] & wa & Hg & Hwt).
  rewrite (bind_ok _ _ _ _ _ Hg), (bind_ok _ _ _ _ _ Hwt).
  unfold bind at 1, on_login_page, bind at 1, get_url, ret. rewrite Hurl. exact Hw.
Qed.

(** No user name field is found: the artifacts are captured and
    [RuntimeError] is raised. *)
Lemma username_miss cfg w w1 :
  login_fill_username cfg w = (Ok false, w1) ->
  exists w',
    login_from_username cfg w = (Raise no_username_field, w')
    /\ debug_captured (lit "login_no_username_field") w1 w'.
Proof.
  intros Hf. destruct (save_debug_captures (lit "login_no_username_field") w1) as (w' & Hs & Hc).
  exists w'. split; [| exact Hc].
  unfold login_from_username. rewrite (bind_ok _ _ _ _ _ Hf). cbn [negb].
  now rewrite (bind_ok _ _ _ _ _ Hs).
Qed.

Lemma password_miss cfg w w1 :
  login_fill_password cfg w = (Ok false, w1) ->
  exists w',
    login_from_password cfg w = (Raise no_password_field, w')
    /\ debug_captured (lit "login_no_password_field") w1 w'.
Proof.
  intros Hf. destruct (save_debug_captures (lit "login_no_password_field") w1) as (w' & Hs & Hc).
  exists w'. split; [| exact Hc].
  unfold login_from_password. rewrite (bind_ok _ _ _ _ _ Hf). cbn [negb].
  now rewrite (bind_ok _ _ _ _ _ Hs).
Qed.

(** [attempt_headless_login] on a login page, with credentials. *)
Lemma attempt_headless_login_on_login_page cfg w w0 :
  LDS_USERNAME cfg <> [] -> LDS_PASSWORD cfg <> [] ->
  (call (Goto START_URL) ;;; call (WaitForTimeout 1500)) w = (Ok tt, w0) ->
  is_login_page (page_url (browser w0)) = true ->
  attempt_headless_login cfg w = login_from_username cfg w0.
Proof.
  intros Hu Hp Hpre Hurl. unfold attempt_headless_login.
  destruct (LDS_USERNAME cfg); [done |]. destruct (LDS_PASSWORD cfg); [done |].
  apply bind_ok_inv in Hpre as ([] & wa & Hg & Hwt).
  rewrite (bind_ok _ _ _ _ _ Hg), (bind_ok _ _ _ _ _ Hwt).
  unfold bind at 1, on_login_page, bind at 1, get_url, ret. now rewrite Hurl.
Qed.

(** The wait for the heading of a story times out: the artifacts are
    captured, and the story goes on. *)
Lemma heading_miss cfg out_root w b :
  answer (WaitForSelector (lit "h1")) (browser w) = (Raise PWTimeoutError, b) ->
  exists w1 w',
    trace w1 = Called (WaitForSelector (lit "h1")) (Raise PWTimeoutError) :: trace w
    /\ disk w1 = disk w
    /\ debug_captured (lit "story_no_h1") w1 w'
    /\ download_current_story cfg out_root w
       = (td <- (scroll_to_load 18 350 ;;; guess_story_title_date) ;;
          story_from_folder cfg td.1 td.2 (story_folder_of out_root td.1 td.2)) w'.
Proof.
  intros Ha.
  set (w1 := {| browser := b; disk := disk w;
                trace := Called (WaitForSelector (lit "h1")) (Raise PWTimeoutError) :: trace w |}).
  destruct (save_debug_captures (lit "story_no_h1") w1) as (w' & Hs & Hc).
  exists w1, w'. repeat split; [exact Hc |].
  unfold download_current_story, story_heading.
  unfold bind at 1 2. unfold catch_timeout, call. rewrite Ha. fold w1. rewrite Hs.
  reflexivity.
Qed.

(** C4, as the code has it.  When the story cards do not appear after the
    grid is opened, or the login page shows no user name field or no password
    field, the script captures the debug artifacts and raises a
    [RuntimeError]; when the heading of a story page does not appear it
    captures the artifacts and goes on with the story. *)
Theorem selector_miss_handling cfg :
  (forall w w0 b,
     (call (Goto START_URL) ;;; call (WaitForTimeout 1200)) w = (Ok tt, w0) ->
     is_login_page (page_url (browser w0)) = false ->
     answer (WaitForSelector STORY_CARD_SELECTOR) (browser w0) = (Raise PWTimeoutError, b) ->
     exists w1 w',
       open_story_grid w = (Raise story_cards_not_found, w')
       /\ trace w1 = Called (WaitForSelector STORY_CARD_SELECTOR) (Raise PWTimeoutError) :: trace w0
       /\ disk w1 = disk w0
       /\ debug_captured (lit "story_cards_not_found") w1 w')
  /\ (forall w w0 w1,
        LDS_USERNAME cfg <> [] -> LDS_PASSWORD cfg <> [] ->
        (call (Goto START_URL) ;;; call (WaitForTimeout 1500)) w = (Ok tt, w0) ->
        is_login_page (page_url (browser w0)) = true ->
        login_fill_username cfg w0 = (Ok false, w1) ->
        exists w',
          attempt_headless_login cfg w = (Raise no_username_field, w')
          /\ debug_captured (lit "login_no_username_field") w1 w')
  /\ (forall w w0 w1 w2,
        LDS_USERNAME cfg <> [] -> LDS_PASSWORD cfg <> [] ->
        (call (Goto START_URL) ;;; call (WaitForTimeout 1500)) w = (Ok tt, w0) ->
        is_login_page (page_url (browser w0)) = true ->
        login_fill_username cfg w0 = (Ok true, w1) ->
        login_fill_password cfg w1 = (Ok false, w2) ->
        exists w',
          attempt_headless_login cfg w = (Raise no_password_field, w')
          /\ debug_captured (lit "login_no_password_field") w2 w')
  /\ (forall out_root w b,
        answer (WaitForSelector (lit "h1")) (browser w) = (Raise PWTimeoutError, b) ->
        exists w1 w',
          trace w1 = Called (WaitForSelector (lit "h1")) (Raise PWTimeoutError) :: trace w
          /\ disk w1 = disk w
          /\ debug_captured (lit "story_no_h1") w1 w'
          /\ download_current_story cfg out_root w
             = (td <- (scroll_to_load 18 350 ;;; guess_story_title_date) ;;
                story_from_folder cfg td.1 td.2 (story_folder_of out_root td.1 td.2)) w').
Proof.
  split; [| split; [| split]].
  - intros w w0 b. apply open_story_grid_miss.
  - intros w w0 w1 Hu Hp Hpre Hurl Hf.
    rewrite (attempt_headless_login_on_login_page cfg w w0 Hu Hp Hpre Hurl).
    now apply username_miss.
  - intros w w0 w1 w2 Hu Hp Hpre Hurl Hf Hfp.
    rewrite (attempt_headless_login_on_login_page cfg w w0 Hu Hp Hpre Hurl).
    unfold login_from_username. rewrite (bind_ok _ _ _ _ _ Hf). cbn [negb].
    now apply password_miss.
  - intros out_root w b. apply heading_miss.
Qed.

(** *** The download loop *)

Lemma download_log_get url r t :
  download_log (Called (RequestGet url) r :: t) = download_log t ++ [(url, makes_file r)].
Proof. unfold download_log. cbn [rev]. now rewrite omap_app. Qed.

Lemma download_log_wait ms r t :
  download_log (Called (WaitForTimeout ms) r :: t) = download_log t.
Proof. unfold download_log. cbn [rev]. rewrite omap_app. cbn. apply app_nil_r. Qed.

(** One attempt: never an exception, one request. *)
Lemma download_file_via_context_spec url dest w :
  exists ok w1,
    download_file_via_context url dest w = (Ok ok, w1)
    /\ download_log (trace w1) = download_log (trace w) ++ [(url, ok)].
Proof.
  unfold download_file_via_context, catch, bind, call, ret, lift, on_disk.
  destruct (answer (RequestGet url) (browser w)) as [[resp | e] b] eqn:Ha; cbn [trace].
  - destruct (resp_ok resp) eqn:Hok; cbn [negb].
    + destruct (resp_body resp) as [data | e] eqn:Hb; cbn [trace browser disk].
      * eexists true, _. split; [reflexivity |]. cbn [trace].
        rewrite download_log_get. cbn. now rewrite Hok, Hb.
      * eexists false, _. split; [reflexivity |]. cbn [trace].
        rewrite download_log_get. cbn. now rewrite Hok, Hb.
    + eexists false, _. split; [reflexivity |]. cbn [trace].
      rewrite download_log_get. cbn. now rewrite Hok.
  - eexists false, _. split; [reflexivity |]. cbn [trace].
    now rewrite download_log_get.
Qed.

(** One image: at most two attempts, the second after a failed first. *)
Lemma download_image_spec folder idx url w :
  is_ok (file_ext_from_url url) = true ->
  (forall ms b, (answer (WaitForTimeout ms) b).1 = Ok tt) ->
  exists entry attempts w1,
    download_image folder idx url w = (Ok entry, w1)
    /\ image_outcome url entry attempts
    /\ download_log (trace w1) = download_log (trace w) ++ attempts.
Proof.
  intros Hext Hwait. unfold download_image.
  destruct (file_ext_from_url url) as [ext | e]; [| discriminate]. unfold lift, bind at 1.
  destruct (download_file_via_context_spec url
              (path_join folder (zero_padded 3 (Z.of_nat idx) ++ ext)) w)
    as (ok1 & w1 & H1 & L1).
  rewrite (bind_ok _ _ _ _ _ H1). destruct ok1; cbn [negb].
  - unfold bind, ret. eexists _, [(url, true)], w1. repeat split; [now left | | exact L1].
    now eexists _, _.
  - destruct (call_spec (WaitForTimeout 600) w1) as (r & b & Ha & Hc).
    pose proof (Hwait 600 (browser w1)) as Hr. rewrite Ha in Hr. cbn in Hr. subst r.
    unfold bind at 1. unfold bind at 1. rewrite Hc.
    match goal with |- context [download_file_via_context url ?d ?w] =>
      destruct (download_file_via_context_spec url d w) as (ok2 & w2 & H2 & L2) end.
    rewrite H2. unfold ret.
    eexists _, [(url, false); (url, ok2)], w2. repeat split.
    + right. now exists ok2.
    + eexists _, _. cbn. now rewrite orb_false_r.
    + rewrite L2. cbn [trace]. rewrite download_log_wait, L1, <- app_assoc. reflexivity.
Qed.

(** C2.  In the download loop, whatever the downloads do: every image URL
    gets its entry; a first attempt that fails is followed by exactly one
    retry and one that succeeds by none; [downloaded] tells whether one of
    these attempts succeeded; and the loop ends normally.  (The time-out
    between the attempts is taken not to fail, and the URLs to be ones
    [urlparse] accepts.) *)
Theorem download_retried_once folder idx urls w :
  Forall (fun url => is_ok (file_ext_from_url url) = true) urls ->
  (forall ms b, (answer (WaitForTimeout ms) b).1 = Ok tt) ->
  exists entries attempts w',
    download_images folder idx urls w = (Ok entries, w')
    /\ Forall3 image_outcome urls entries attempts
    /\ download_log (trace w') = download_log (trace w) ++ concat attempts.
Proof.
  intros Hext Hwait. revert idx w.
  induction Hext as [| url urls Hu _ IH]; intros idx w; cbn [download_images].
  - exists [], [], w. repeat split; [constructor | now rewrite app_nil_r].
  - destruct (download_image_spec folder idx url w Hu Hwait) as (e & a & w1 & H1 & O1 & L1).
    destruct (IH (S idx) w1) as (es & as' & w' & H2 & O2 & L2).
    rewrite (bind_ok _ _ _ _ _ H1), (bind_ok _ _ _ _ _ H2). unfold ret.
    exists (e :: es), (a :: as'), w'. repeat split; [now constructor |].
    rewrite L2, L1. cbn [concat]. now rewrite app_assoc.
Qed.

(** *** What a run writes *)

Lemma call_disk a w r w1 : call a w = (r, w1) -> disk w1 = disk w.
Proof.
  unfold call. destruct (answer a (browser w)) as [r' b]. now intros [= _ <-].
Qed.

(** The end of [main] leaves the manifest of this run at [MANIFEST_PATH]. *)
Lemma finish_writes_manifest cfg out_root total t w w' :
  finish cfg out_root total t w = (Ok tt, w') ->
  MANIFEST_PATH cfg <> ZIP_NAME cfg ->
  files (disk w') !! MANIFEST_PATH cfg
  = Some (Document (manifest cfg (strftime_gmtime (lit "%Y-%m-%d %H:%M:%S") (browser w)) total t)).
Proof.
  intros Hf Hne. unfold finish in Hf.
  apply bind_ok_inv in Hf as ([] & w1 & H1 & Hf).
  apply bind_ok_inv in Hf as ([] & w2 & H2 & Hf).
  apply bind_ok_inv in Hf as ([] & w3 & H3 & Hf).
  pose proof (call_disk CloseContext _ _ _ H3) as D3.
  pose proof (call_disk CloseBrowser _ _ _ Hf) as D4. rewrite D4, D3.
  unfold zip_folder, bind, ensure_dir, on_disk in H2. injection H2 as <-.
  unfold bind, ensure_dir, on_disk in H1. injection H1 as <-.
  cbn [disk files write_file make_dirs].
  rewrite lookup_insert_ne by (by apply not_eq_sym). apply lookup_insert_eq.
Qed.

(** A run of [main] that completes has written its manifest. *)
Lemma main_writes_manifest cfg w w' :
  main cfg w = (Ok tt, w') ->
  MANIFEST_PATH cfg <> ZIP_NAME cfg ->
  exists now total t,
    files (disk w') !! MANIFEST_PATH cfg = Some (Document (manifest cfg now total t)).
Proof.
  intros Hm Hne. unfold main in Hm.
  apply bind_ok_inv in Hm as ([] & w1 & _ & Hm).
  apply bind_ok_inv in Hm as ([] & w2 & _ & Hm).
  apply bind_ok_inv in Hm as ([] & w3 & _ & Hm).
  apply bind_ok_inv in Hm as (total & w4 & _ & Hm).
  destruct (total =? 0)%nat.
  - apply bind_ok_inv in Hm as ([] & w5 & _ & Hm). discriminate Hm.
  - apply bind_ok_inv in Hm as (t & w5 & _ & Hm).
    eexists _, total, t. eapply finish_writes_manifest; [exact Hm | exact Hne].
Qed.

(** Every field of the manifest but [stories] is a scalar; [stories] is the
    list of the story records. *)
Lemma manifest_fields cfg now total t :
  exists scalars,
    manifest cfg now total t = JDict (scalars ++ [(lit "stories", JList (all_meta t))])
    /\ Forall (fun kv => is_scalar kv.2 = true) scalars.
Proof.
  eexists [_; _; _; _; _; _; _; _]. split; [reflexivity |]. repeat constructor.
Qed.

(** A story is either skipped, because the skip rule is on and its folder
    exists, and then nothing is written; or its record is written to
    [story.json]. *)
Lemma story_record_written cfg out_root w meta w' :
  download_current_story cfg out_root w = (Ok meta, w') ->
  exists title date_str w1,
    story_heading w = (Ok (title, date_str), w1)
    /\ let folder := story_folder_of out_root title date_str in
       if SKIP_EXISTING_FOLDERS cfg && path_exists folder (disk w1)
       then meta = skipped_meta (page_url (browser w1)) title date_str folder
            /\ disk w' = disk w1
       else files (disk w') !! path_join folder (lit "story.json")
            = Some (Document (JDict meta)).
Proof.
  intros Hd. unfold download_current_story in Hd.
  apply bind_ok_inv in Hd as ([title date_str] & w1 & Hh & Hs).
  exists title, date_str, w1. split; [exact Hh |]. cbn [fst snd] in *. cbn zeta.
  set (folder := story_folder_of out_root title date_str) in *.
  unfold story_from_folder in Hs.
  unfold bind at 1, exists_on_disk in Hs.
  destruct (SKIP_EXISTING_FOLDERS cfg && path_exists folder (disk w1)).
  - unfold bind, get_url, ret in Hs. now injection Hs as <- <-.
  - apply bind_ok_inv in Hs as ([] & w2 & _ & Hs).
    apply bind_ok_inv in Hs as (urls0 & w3 & _ & Hs).
    apply bind_ok_inv in Hs as (urls & w4 & _ & Hs).
    apply bind_ok_inv in Hs as (final_url & w5 & _ & Hs).
    apply bind_ok_inv in Hs as (images & w6 & _ & Hs).
    apply bind_ok_inv in Hs as ([] & w7 & Hw & Hs).
    unfold ret in Hs. injection Hs as <- <-.
    unfold on_disk in Hw. injection Hw as <-.
    cbn [disk files write_file]. apply lookup_insert_eq.
Qed.

End Run.

(** *** The scenarios *)

Import Scenarios.

Lemma completed {A W} (r : result A * W) a :
  r.1 = Ok a -> r = (Ok a, r.2).
Proof. destruct r as [x w]. cbn. now intros ->. Qed.

(** Three images: the first is fetched at the second attempt, the second at
    the first, the third not at all; the loop ends normally. *)
Lemma download_retried_once_witness :
  let urls := map lit ["https://h/img/a.jpg"; "https://h/img/b.png"; "https://h/img/c.gif"]%string in
  exists entries attempts w',
    @download_images (scripted three_images) checks_pass (lit "out/Ward picnic") 1 urls
      (start_world three_images empty_disk) = (Ok entries, w')
    /\ Forall3 image_outcome urls entries attempts
    /\ download_log (trace w') = concat attempts.
Proof.
  cbn zeta.
  apply (@download_retried_once (scripted three_images) checks_pass (lit "out/Ward picnic") 1
           _ (start_world three_images empty_disk)).
  - repeat constructor.
  - intros ms b. reflexivity.
Defined.

(** The story cards never appear; the login page has no field; the login
    page has no password field; the heading of a story never appears. *)
Lemma selector_miss_handling_witness :
  (exists w', @open_story_grid (scripted no_cards) (start_world no_cards empty_disk)
              = (Raise story_cards_not_found, w'))
  /\ (exists w', @attempt_headless_login (scripted bare_login) settings
                   (start_world bare_login empty_disk)
                 = (Raise no_username_field, w'))
  /\ (exists w', @attempt_headless_login (scripted login_without_password) settings
                   (start_world login_without_password empty_disk)
                 = (Raise no_password_field, w'))
  /\ (exists w1 w', @debug_captured (scripted no_heading) (lit "story_no_h1") w1 w').
Proof.
  split; [| split; [| split]].
  - edestruct (proj1 (@selector_miss_handling (scripted no_cards) checks_pass settings))
      as (w1 & w' & Hg & _);
      [apply completed; reflexivity | reflexivity | reflexivity |].
    exists w'. exact Hg.
  - edestruct (proj1 (proj2 (@selector_miss_handling (scripted bare_login) checks_pass settings)))
      as (w' & Hg & _);
      [discriminate | discriminate | apply completed; reflexivity | reflexivity
      | apply completed; reflexivity |].
    exists w'. exact Hg.
  - edestruct (proj1 (proj2 (proj2
                 (@selector_miss_handling (scripted login_without_password) checks_pass settings))))
      as (w' & Hg & _);
      [discriminate | discriminate | apply completed; reflexivity | reflexivity
      | apply completed; reflexivity | apply completed; reflexivity |].
    exists w'. exact Hg.
  - edestruct (proj2 (proj2 (proj2
                 (@selector_miss_handling (scripted no_heading) checks_pass settings)))
                 (OUT_DIR settings) (start_world no_heading empty_disk))
      as (w1 & w' & _ & _ & Hc & _); [reflexivity |].
    exists w1, w'. exact Hc.
Defined.

(** C4 as stated fails for the heading of a story: the wait for it times
    out, and the story is downloaded and the run completes all the same. *)
Lemma missing_heading_raises_nothing :
  let w := start_world no_heading empty_disk in
  (@answer (scripted no_heading) (WaitForSelector (lit "h1")) (browser w)).1
  = Raise PWTimeoutError
  /\ is_ok (@download_current_story (scripted no_heading) checks_pass settings
              (OUT_DIR settings) w).1 = true
  /\ (@main (scripted no_heading) checks_pass settings w).1 = Ok tt.
Proof. vm_compute. repeat split. Qed.

End UnitFacts.

(** ** The documents of both scripts *)

Module DocumentFacts.
Import Py Exn Json Files Urllib UnitUrl Unit CfmFacts UnitFacts.

Section Run.
Context `{Cfm.Outside} `{Browser} `{NetlocChecks}.

(** C6, as the code has it.  A run of [build_cfm_weekly.main] that
    completes leaves this run's summary in its file, and a run of
    [unit_history_sync.main] that completes leaves this run's manifest in its
    file (the archive being written elsewhere), whatever a previous run left
    there.  The record of a story is written to its [story.json] when the
    story is downloaded; when [SKIP_EXISTING_FOLDERS] is on, as it is by
    default, and the folder of the story exists, the story is skipped and
    nothing is written. *)
Theorem documents_rewritten cfg :
  (forall w w',
     Cfm.main w = (Ok tt, w') ->
     exists fields,
       Cfm.scrape_week (IsoWeek.iso_week_number Cfm.today) = Ok (JDict fields)
       /\ files (Cfm.disk w') !! Cfm.OUT_JSON = Some (Document (JDict fields)))
  /\ (forall w w',
        main cfg w = (Ok tt, w') ->
        MANIFEST_PATH cfg <> ZIP_NAME cfg ->
        exists now total t,
          files (disk w') !! MANIFEST_PATH cfg = Some (Document (manifest cfg now total t)))
  /\ (forall out_root w meta w',
        download_current_story cfg out_root w = (Ok meta, w') ->
        exists title date_str w1,
          story_heading w = (Ok (title, date_str), w1)
          /\ let folder := story_folder_of out_root title date_str in
             if SKIP_EXISTING_FOLDERS cfg && path_exists folder (disk w1)
             then meta = skipped_meta (page_url (browser w1)) title date_str folder
                  /\ disk w' = disk w1
             else files (disk w') !! path_join folder (lit "story.json")
                  = Some (Document (JDict meta)))
  /\ SKIP_EXISTING_FOLDERS (config_of_environ (fun _ => None)) = true.
Proof.
  split; [| split; [| split]].
  - intros w w' Hm. destruct (main_writes_payload w w' Hm) as (fields & Hs & Hf & _).
    now exists fields.
  - intros w w'. apply main_writes_manifest.
  - intros out_root w meta w'. apply story_record_written.
  - reflexivity.
Qed.

(** C7, as the code has it.  Every top-level field of the weekly summary is
    a scalar.  Every top-level field of the manifest is a scalar but the
    last, [stories], which is the list of the story records. *)
Theorem top_level_fields cfg :
  (forall w w',
     Cfm.main w = (Ok tt, w') ->
     exists fields,
       files (Cfm.disk w') !! Cfm.OUT_JSON = Some (Document (JDict fields))
       /\ Forall (fun kv => is_scalar kv.2 = true) fields)
  /\ (forall w w',
        main cfg w = (Ok tt, w') ->
        MANIFEST_PATH cfg <> ZIP_NAME cfg ->
        exists scalars stories,
          files (disk w') !! MANIFEST_PATH cfg
          = Some (Document (JDict (scalars ++ [(lit "stories", JList stories)])))
          /\ Forall (fun kv => is_scalar kv.2 = true) scalars).
Proof.
  split.
  - intros w w' Hm. destruct (main_writes_payload w w' Hm) as (fields & _ & Hf & Hs).
    now exists fields.
  - intros w w' Hm Hne.
    destruct (main_writes_manifest cfg w w' Hm Hne) as (now & total & t & Hf).
    destruct (manifest_fields cfg now total t) as (scalars & E & Hs).
    exists scalars, (all_meta t). now rewrite Hf, E.
Qed.

End Run.

(** *** The scenarios *)

Import Scenarios.

(** The summary of week 10 replaces last week's; the manifest of a run from
    an empty disk is written; by default a story whose folder exists is
    skipped. *)
Lemma documents_rewritten_witness :
  (exists fields,
     files (Cfm.disk (@Cfm.main site_up {| Cfm.disk := cfm_disk; Cfm.printed := [] |}).2)
       !! Cfm.OUT_JSON = Some (Document (JDict fields))
     /\ dict_get (lit "week_number") fields = Some (JInt 10))
  /\ (exists now total t,
        files (disk (@main (scripted three_images) checks_pass settings
                       (start_world three_images empty_disk)).2)
          !! MANIFEST_PATH settings
        = Some (Document (@manifest settings now total t))).
Proof.
  pose proof (@documents_rewritten site_up (scripted three_images) checks_pass settings)
    as (Hsummary & Hmanifest & _ & _).
  split.
  - assert (Hrun : @Cfm.main site_up {| Cfm.disk := cfm_disk; Cfm.printed := [] |}
                    = (Ok tt, (@Cfm.main site_up {| Cfm.disk := cfm_disk; Cfm.printed := [] |}).2))
      by (apply completed; reflexivity).
    destruct (Hsummary _ _ Hrun) as (fields & Hs & Hf).
    exists fields. split; [exact Hf |].
    vm_compute in Hs. injection Hs as <-. reflexivity.
  - apply (Hmanifest (start_world three_images empty_disk)).
    + apply completed. vm_compute. reflexivity.
    + vm_compute. discriminate.
Defined.

(** C6 as stated fails for [story.json]: with the default settings, a run
    that completes on a disk where the folder of the story exists leaves the
    old [story.json] as it was. *)
Lemma existing_story_is_not_rewritten :
  let r := @main (scripted three_images) checks_pass settings
             (start_world three_images earlier_run_disk) in
  r.1 = Ok tt
  /\ files (disk r.2) !! (picnic_folder ++ lit "/story.json") = Some (Document old_story)
  /\ files earlier_run_disk !! (picnic_folder ++ lit "/story.json") = Some (Document old_story).
Proof. vm_compute. repeat split. Qed.

(** The summary of week 10 holds scalars only; the manifest of a run from
    an empty disk holds scalars and, last, the list of stories. *)
Lemma top_level_fields_witness :
  (exists fields,
     files (Cfm.disk (@Cfm.main site_up {| Cfm.disk := cfm_disk; Cfm.printed := [] |}).2)
       !! Cfm.OUT_JSON = Some (Document (JDict fields))
     /\ Forall (fun kv => is_scalar kv.2 = true) fields)
  /\ (exists scalars stories,
        files (disk (@main (scripted three_images) checks_pass settings
                       (start_world three_images empty_disk)).2)
          !! MANIFEST_PATH settings
        = Some (Document (JDict (scalars ++ [(lit "stories", JList stories)])))
        /\ Forall (fun kv => is_scalar kv.2 = true) scalars).
Proof.
  pose proof (@top_level_fields site_up (scripted three_images) checks_pass settings)
    as (Hsummary & Hmanifest).
  split.
  - apply (Hsummary {| Cfm.disk := cfm_disk; Cfm.printed := [] |}).
    apply completed. reflexivity.
  - apply (Hmanifest (start_world three_images empty_disk)).
    + apply completed. vm_compute. reflexivity.
    + vm_compute. discriminate.
Defined.

(** C7 as stated fails for the manifest: its field [stories] is a list. *)
Lemma manifest_holds_a_list :
  exists fields v,
    files (disk (@main (scripted three_images) checks_pass settings
                   (start_world three_images empty_disk)).2)
      !! MANIFEST_PATH settings = Some (Document (JDict fields))
    /\ dict_get (lit "stories") fields = Some v
    /\ is_scalar v = false.
Proof. vm_compute. eexists _, _. repeat split. Qed.

(** The site is down: [main] raises and last week's summary stays. *)
Lemma fetch_failure_aborts_main_witness :
  @Cfm.fetch_fails site_down
  /\ exists e w',
       @Cfm.main site_down {| Cfm.disk := cfm_disk; Cfm.printed := [] |} = (Raise e, w')
       /\ Cfm.disk w' = cfm_disk
       /\ files (Cfm.disk w') !! Cfm.OUT_JSON = files cfm_disk !! Cfm.OUT_JSON.
Proof.
  assert (Hf : @Cfm.fetch_fails site_down) by (vm_compute; split; [discriminate | reflexivity]).
  split; [exact Hf |].
  exact (@fetch_failure_aborts_main site_down {| Cfm.disk := cfm_disk; Cfm.printed := [] |} Hf).
Defined.

End DocumentFacts.

(** ** More on the srcset helpers *)

Module SrcsetMore.
Import Py Srcset Stated PyFacts SrcsetFacts.

(** *** Which candidate the sort puts last *)

Lemma insert_by_width_not_nil x l : insert_by_width x l <> [].
Proof. destruct l as [| y l]; cbn; [done |]. now destruct (_ <=? _)%N. Qed.

Lemma last_insert_by_width x l d :
  List.last (insert_by_width x l) d
  = if forallb (fun y : candidate => (y.1 <? x.1)%N) l then x else List.last l d.
Proof.
  induction l as [| y l IH]; [reflexivity |].
  cbn [insert_by_width forallb].
  destruct (N.leb_spec x.1 y.1) as [Hle | Hlt].
  - assert (E : (y.1 <? x.1)%N = false) by (apply N.ltb_ge; lia).
    rewrite E. reflexivity.
  - assert (E : (y.1 <? x.1)%N = true) by (apply N.ltb_lt; lia).
    rewrite E. cbn [andb].
    pose proof (insert_by_width_not_nil x l) as Hne.
    destruct (insert_by_width x l) as [| z r] eqn:Ez; [done |].
    change (List.last (y :: z :: r) d) with (List.last (z :: r) d). rewrite IH.
    destruct (forallb _ l) eqn:Hf; [reflexivity |].
    destruct l; [discriminate | reflexivity].
Qed.

Lemma forallb_perm {A} (p : A -> bool) l l' :
  Permutation l l' -> forallb p l = forallb p l'.
Proof.
  induction 1; cbn; try congruence.
  - now rewrite !andb_assoc, (andb_comm (p y)).
Qed.

(** The last of the sorted list: the head, if it is wider than all that
    follow, and else the last of the sorted rest. *)
Lemma last_url_cons x l :
  last_url (x :: l)
  = if forallb (fun y : candidate => (y.1 <? x.1)%N) l then x.2 else last_url l.
Proof.
  unfold last_url. change (sort_by_width (x :: l)) with (insert_by_width x (sort_by_width l)).
  rewrite last_insert_by_width.
  rewrite (forallb_perm _ _ _ (sort_by_width_perm l)).
  now destruct (forallb _ l).
Qed.

(** The candidate returned is the last one of the largest width. *)
Lemma last_url_split l :
  l <> [] ->
  exists pre c post,
    l = pre ++ c :: post /\ last_url l = c.2
    /\ Forall (fun x : candidate => (x.1 <= c.1)%N) pre
    /\ Forall (fun x : candidate => (x.1 < c.1)%N) post.
Proof.
  induction l as [| x l IH]; [done |]. intros _. rewrite last_url_cons.
  destruct (forallb _ l) eqn:Hf.
  - exists [], x, l. repeat split; [constructor |].
    apply Forall_forall. intros y Hy. rewrite forallb_forall in Hf.
    apply N.ltb_lt, Hf. now apply list_elem_of_In.
  - destruct l as [| y l']; [discriminate |].
    destruct (IH ltac:(done)) as (pre & c & post & E & Hc & Hpre & Hpost).
    exists (x :: pre), c, post.
    split; [cbn [app]; now rewrite E |]. split; [exact Hc |]. split; [| exact Hpost].
    constructor; [| exact Hpre].
    rewrite E in Hf. apply not_true_iff_false in Hf.
    destruct (N.le_gt_cases x.1 c.1) as [Hle | Hgt]; [exact Hle |].
    exfalso. apply Hf. apply forallb_forall. intros z Hz. apply N.ltb_lt.
    apply in_app_or in Hz as [Hz | [<- | Hz]].
    + rewrite Forall_forall in Hpre. apply list_elem_of_In, Hpre in Hz. lia.
    + exact Hgt.
    + rewrite Forall_forall in Hpost. apply list_elem_of_In, Hpost in Hz. lia.
Qed.

(** *** The pieces of a srcset *)

Lemma split_on_free sep s : Forall (fun p => sep ∉ p) (split_on sep s).
Proof.
  induction s as [| c s IH]; cbn [split_on].
  - constructor; [apply not_elem_of_nil | constructor].
  - destruct (Ascii.eqb_spec c sep) as [-> | Hne].
    + constructor; [apply not_elem_of_nil | exact IH].
    + destruct (split_on sep s) as [| p ps]; [repeat constructor |].
      * apply not_elem_of_cons. split; [congruence | apply not_elem_of_nil].
      * inversion IH as [| ? ? Hp Hps]; subst. constructor; [| exact Hps].
        apply not_elem_of_cons. split; [congruence | exact Hp].
Qed.

Lemma strip_within s : exists a b, s = a ++ strip s ++ b.
Proof.
  unfold strip.
  destruct (drop_while_spec is_space s) as (a & Ha & _).
  destruct (drop_while_end_spec is_space (drop_while is_space s)) as (b & Hb & _).
  exists a, b. now rewrite <- Hb.
Qed.

Lemma strip_head s c t : strip s = c :: t -> is_space c = false.
Proof.
  unfold strip. intros E.
  destruct (drop_while_spec is_space s) as (a & _ & _ & Hd).
  destruct (drop_while_end_spec is_space (drop_while is_space s)) as (b & Hb & _).
  rewrite E in Hb. rewrite Hb in Hd. exact Hd.
Qed.

Lemma split_ws_aux_not_nil cur s : cur <> [] -> split_ws_aux cur s <> [].
Proof.
  revert cur. induction s as [| c s IH]; intros cur Hc; cbn [split_ws_aux].
  - now destruct cur.
  - destruct (is_space c); [now destruct cur | now apply IH].
Qed.

Lemma split_ws_aux_tokens (P : ascii -> Prop) cur s :
  Forall P cur -> Forall (fun c => is_space c = false -> P c) s ->
  Forall (fun tok => tok <> [] /\ Forall P tok) (split_ws_aux cur s).
Proof.
  revert cur. induction s as [| c s IH]; intros cur Hc Hs; cbn [split_ws_aux].
  - destruct cur as [| x cur]; [constructor |]. constructor; [| constructor].
    split; [| now apply Forall_rev].
    intros E. apply (f_equal (@length _)) in E. rewrite length_rev in E. discriminate.
  - inversion Hs as [| ? ? Hc0 Hs']; subst.
    destruct (is_space c) eqn:Ec.
    + destruct cur as [| x cur]; [now apply IH |].
      constructor; [| now apply IH]. split; [| now apply Forall_rev].
      intros E. apply (f_equal (@length _)) in E. rewrite length_rev in E. discriminate.
    + apply IH; [| exact Hs']. constructor; [now apply Hc0 | exact Hc].
Qed.

(** A token holds characters of the string, none of them white space. *)
Lemma split_ws_tokens (P : ascii -> Prop) s :
  Forall P s ->
  Forall (fun tok => tok <> [] /\ Forall (fun c => is_space c = false /\ P c) tok) (split_ws s).
Proof.
  intros Hs. apply split_ws_aux_tokens; [constructor |].
  eapply Forall_impl; [exact Hs |]. cbn. auto.
Qed.

Lemma parts_spec srcset p :
  In p (parts srcset) <->
  exists part, In part (split_on "," srcset) /\ p = strip part /\ p <> [].
Proof.
  unfold parts. rewrite in_flat_map. split.
  - intros (part & Hin & Hp). exists part. split; [exact Hin |].
    destruct (strip part) as [| c t]; [destruct Hp |]. destruct Hp as [<- | []]. done.
  - intros (part & Hin & -> & Hne). exists part. split; [exact Hin |].
    destruct (strip part); [done | now left].
Qed.

(** An entry is not blank, starts with a character that is not white space,
    and holds no comma. *)
Lemma parts_shape srcset p :
  In p (parts srcset) ->
  (exists c t, p = c :: t /\ is_space c = false) /\ Forall (fun c => c <> ","%char) p.
Proof.
  intros (part & Hin & -> & Hne)%parts_spec. split.
  - destruct (strip part) as [| c t] eqn:E; [done |]. exists c, t. split; [done |].
    exact (strip_head _ _ _ E).
  - pose proof (split_on_free "," srcset) as Hf. rewrite Forall_forall in Hf.
    apply list_elem_of_In, Hf in Hin.
    destruct (strip_within part) as (a & b & E).
    apply Forall_forall. intros c Hc ->. apply Hin. rewrite E.
    apply elem_of_app. right. apply elem_of_app. now left.
Qed.

Lemma ranked_list_parts srcset :
  ranked_list srcset
  = flat_map (fun p => match match_width p with
                       | Some c => [c]
                       | None => match split_ws p with [] => [] | tok0 :: _ => [(0%N, tok0)] end
                       end) (parts srcset).
Proof. reflexivity. Qed.

Lemma first_token_shape (P : ascii -> Prop) p c t :
  p = c :: t -> is_space c = false -> Forall P p ->
  exists tok0 toks, split_ws p = tok0 :: toks /\ tok0 <> []
                    /\ Forall (fun c => is_space c = false /\ P c) tok0.
Proof.
  intros -> Hc HP.
  pose proof (split_ws_tokens P (c :: t) HP) as Ht.
  assert (Hne : split_ws (c :: t) <> []).
  { unfold split_ws. cbn [split_ws_aux]. rewrite Hc. now apply split_ws_aux_not_nil. }
  destruct (split_ws (c :: t)) as [| tok0 toks]; [done |].
  inversion Ht as [| ? ? [H1 H2] _]; subst. now exists tok0, toks.
Qed.

(** Every candidate either helper collects is a token of the srcset. *)
Lemma ranked_token srcset n url :
  In (n, url) (ranked_list srcset) ->
  url <> [] /\ Forall (fun c => is_space c = false /\ c <> ","%char) url.
Proof.
  rewrite ranked_list_parts, in_flat_map. intros (p & Hp & Hc).
  destruct (parts_shape _ _ Hp) as ((c & t & E & Hsp) & Hcomma).
  destruct (match_width p) as [[n' url'] |] eqn:Hm.
  - destruct Hc as [[= -> ->] | []].
    apply match_width_spec in Hm as (ws & ds & rest & Ep & Hne & Hns & _).
    split; [exact Hne |]. rewrite Ep, Forall_app in Hcomma. destruct Hcomma as [Hu _].
    apply Forall_forall. intros x Hx. rewrite Forall_forall in Hns, Hu. auto.
  - destruct (first_token_shape _ p c t E Hsp Hcomma) as (tok0 & toks & Es & Hne & Ht).
    rewrite Es in Hc. destruct Hc as [[= <- <-] | []]. done.
Qed.

Lemma ranked_list_nil srcset : ranked_list srcset = [] <-> parts srcset = [].
Proof.
  rewrite ranked_list_parts. split; [| now intros ->].
  destruct (parts srcset) as [| p ps] eqn:E; [done |]. intros Hr. exfalso.
  assert (Hp : In p (parts srcset)) by (rewrite E; now left).
  destruct (parts_shape _ _ Hp) as ((c & t & Ep & Hsp) & Hcomma).
  cbn [flat_map] in Hr. apply app_eq_nil in Hr as [Hr _].
  destruct (match_width p); [discriminate |].
  destruct (first_token_shape _ p c t Ep Hsp Hcomma) as (tok0 & toks & Es & _).
  rewrite Es in Hr. discriminate.
Qed.

Lemma last_url_all_zero l :
  (forall c : candidate, In c l -> c.1 = 0%N) ->
  last_url l = (List.last l (0%N, [])).2.
Proof.
  intros Hz. destruct l as [| x l]; [reflexivity |].
  destruct (last_url_split (x :: l)) as (pre & c & post & E & -> & _ & Hpost); [done |].
  rewrite E. destruct post as [| y post].
  - now rewrite List.last_last.
  - exfalso. inversion Hpost as [| ? ? Hy _]; subst.
    rewrite (Hz c) in Hy; [lia |]. rewrite E. apply in_or_app. right. now left.
Qed.

(** X1.  When several candidates share the largest width, both
    helpers return the one listed last: the candidate returned is at least
    as wide as every candidate before it and wider than every candidate
    after it. *)
Theorem srcset_last_of_the_widest srcset :
  (declared_list srcset <> [] ->
   exists pre c post,
     declared_list srcset = pre ++ c :: post
     /\ _largest_from_srcset srcset = c.2
     /\ Forall (fun x : candidate => (x.1 <= c.1)%N) pre
     /\ Forall (fun x : candidate => (x.1 < c.1)%N) post)
  /\ (ranked_list srcset <> [] ->
      exists pre c post,
        ranked_list srcset = pre ++ c :: post
        /\ pick_largest_from_srcset srcset = c.2
        /\ Forall (fun x : candidate => (x.1 <= c.1)%N) pre
        /\ Forall (fun x : candidate => (x.1 < c.1)%N) post).
Proof.
  split; intros Hne.
  - rewrite _largest_from_srcset_eq.
    destruct (last_url_split _ Hne) as (pre & c & post & E & Hc & Hpre & Hpost).
    exists pre, c, post. destruct (declared_list srcset); [done |]. done.
  - rewrite pick_largest_from_srcset_eq.
    destruct (last_url_split _ Hne) as (pre & c & post & E & Hc & Hpre & Hpost).
    exists pre, c, post. destruct (ranked_list srcset); [done |]. done.
Qed.

(** Two candidates of width 100: the second is returned, by both helpers. *)
Lemma srcset_last_of_the_widest_witness :
  _largest_from_srcset (lit "a 100w, b 100w, c 50w") = lit "b"
  /\ pick_largest_from_srcset (lit "a 100w, b 100w, c 50w") = lit "b"
  /\ exists pre c post,
       declared_list (lit "a 100w, b 100w, c 50w") = pre ++ c :: post
       /\ _largest_from_srcset (lit "a 100w, b 100w, c 50w") = c.2
       /\ Forall (fun x : candidate => (x.1 <= c.1)%N) pre
       /\ Forall (fun x : candidate => (x.1 < c.1)%N) post.
Proof.
  split; [reflexivity |]. split; [reflexivity |].
  apply (proj1 (srcset_last_of_the_widest (lit "a 100w, b 100w, c 50w"))).
  vm_compute. discriminate.
Defined.

(** X2.  When no entry of the srcset declares a width,
    [pick_largest_from_srcset] returns the first token of the last entry
    (its docstring says the first URL): all entries rank as width 0 and the
    stable sort leaves them in order. *)
Theorem pick_largest_without_widths srcset :
  (forall n u, ~ declares srcset n u) ->
  pick_largest_from_srcset srcset
  = match last (parts srcset) with Some p => first_token p | None => [] end.
Proof.
  intros Hnone.
  assert (Hm : forall p, In p (parts srcset) -> match_width p = None).
  { intros p (part & Hin & -> & _)%parts_spec.
    destruct (match_width (strip part)) as [[n u] |] eqn:E; [| reflexivity].
    exfalso. apply (Hnone n u). exists part. split; [exact Hin |].
    now apply match_width_spec. }
  assert (Hr : ranked_list srcset = map (fun p => (0%N, first_token p)) (parts srcset)).
  { rewrite ranked_list_parts. rewrite flat_map_concat_map.
    assert (G : forall ps, (forall p, In p ps -> In p (parts srcset)) ->
              concat (map (fun p => match match_width p with
                                    | Some c => [c]
                                    | None => match split_ws p with
                                              | [] => []
                                              | tok0 :: _ => [(0%N, tok0)]
                                              end
                                    end) ps)
              = map (fun p => (0%N, first_token p)) ps).
    { induction ps as [| p ps IH]; intros Hps; [reflexivity |].
      cbn [map concat]. rewrite IH by (intros q Hq; apply Hps; now right).
      rewrite (Hm p) by (apply Hps; now left).
      destruct (parts_shape srcset p) as ((c & t & E & Hsp) & Hcomma); [apply Hps; now left |].
      destruct (first_token_shape _ p c t E Hsp Hcomma) as (tok0 & toks & Es & _).
      unfold first_token. now rewrite Es. }
    now apply G. }
  rewrite pick_largest_from_srcset_eq, Hr.
  destruct (parts srcset) as [| p ps] using rev_ind; [reflexivity |].
  rewrite last_snoc, map_app. cbn [map].
  destruct (map _ ps ++ [(0%N, first_token p)]) as [| x l] eqn:E.
  { now apply app_eq_nil in E as [_ E]. }
  rewrite <- E. rewrite last_url_all_zero.
  - now rewrite List.last_last.
  - intros c [Hc | [<- | []]]%in_app_or; [| reflexivity].
    apply in_map_iff in Hc as (q & <- & _). reflexivity.
Qed.

(** Two entries with pixel densities, no widths: the second is returned. *)
Lemma pick_largest_without_widths_witness :
  pick_largest_from_srcset (lit "a.jpg 1x, b.jpg 2x") = lit "b.jpg"
  /\ last (parts (lit "a.jpg 1x, b.jpg 2x")) = Some (lit "b.jpg 2x").
Proof.
  split; [| reflexivity].
  rewrite (pick_largest_without_widths (lit "a.jpg 1x, b.jpg 2x")); [reflexivity |].
  intros n u H. apply declares_declared_list in H. vm_compute in H. exact H.
Defined.

(** X3.  The URL either helper returns holds no white space
    and no comma: it is one token of one entry of the srcset. *)
Theorem srcset_result_is_a_token srcset :
  Forall (fun c => is_space c = false /\ c <> ","%char) (_largest_from_srcset srcset)
  /\ Forall (fun c => is_space c = false /\ c <> ","%char) (pick_largest_from_srcset srcset).
Proof.
  split.
  - rewrite _largest_from_srcset_eq.
    destruct (declared_list srcset) as [| x l] eqn:E; [constructor |].
    destruct (last_url_max (x :: l)) as (n & Hin & _); [done |].
    rewrite <- E in Hin |- *. apply declared_in_ranked in Hin.
    now apply ranked_token in Hin.
  - rewrite pick_largest_from_srcset_eq.
    destruct (ranked_list srcset) as [| x l] eqn:E; [constructor |].
    destruct (last_url_max (x :: l)) as (n & Hin & _); [done |].
    rewrite <- E in Hin |- *. now apply ranked_token in Hin.
Qed.

(** X4.  [_largest_from_srcset] returns the empty string
    exactly when the srcset declares no candidate, and
    [pick_largest_from_srcset] exactly when the srcset has no entry that is
    not blank; so a helper that finds a candidate never hands its caller an
    empty URL. *)
Theorem srcset_result_empty_iff srcset :
  (_largest_from_srcset srcset = [] <-> forall n u, ~ declares srcset n u)
  /\ (pick_largest_from_srcset srcset = [] <-> parts srcset = []).
Proof.
  split.
  - rewrite _largest_from_srcset_eq. split.
    + intros Hr n u Hd. apply declares_declared_list in Hd.
      destruct (declared_list srcset) as [| x l] eqn:E; [destruct Hd |].
      destruct (last_url_max (x :: l)) as (m & Hin & _); [done |].
      rewrite <- E in Hin at 2.
      apply declared_in_ranked, ranked_token in Hin as [Hne _]. now rewrite Hr in Hne.
    + intros Hnone. destruct (declared_list srcset) as [| [n u] l] eqn:E; [reflexivity |].
      exfalso. apply (Hnone n u). apply declares_declared_list. rewrite E. now left.
  - rewrite pick_largest_from_srcset_eq, <- ranked_list_nil. split.
    + intros Hr. destruct (ranked_list srcset) as [| x l] eqn:E; [reflexivity |].
      destruct (last_url_max (x :: l)) as (m & Hin & _); [done |].
      rewrite <- E in Hin at 2.
      apply ranked_token in Hin as [Hne _]. now rewrite Hr in Hne.
    + now intros ->.
Qed.

End SrcsetMore.

(** ** More on folder names *)

Module NameMore.
Import Py SafeName PyFacts SafeNameFacts Files Unit.

Lemma sub_runs_aux_none cls rep in_run s :
  Forall (fun c => cls c = false) s -> sub_runs_aux cls rep in_run s = s.
Proof.
  intros Hs. revert in_run. induction Hs as [| c s Hc _ IH]; intros in_run; [reflexivity |].
  cbn [sub_runs_aux]. rewrite Hc. now rewrite IH.
Qed.

(** Single spaces are left as they are by the first substitution. *)
Lemma collapse_single in_run s :
  Forall (fun c => is_space c = true -> c = " "%char) s ->
  ws_runs_single s = true ->
  (in_run = true -> match s with c :: _ => is_space c = false | [] => True end) ->
  sub_runs_aux is_space [" "%char] in_run s = s.
Proof.
  intros Hs. revert in_run. induction Hs as [| c s Hc _ IH]; intros in_run Hw Hr; [reflexivity |].
  cbn [sub_runs_aux]. destruct (is_space c) eqn:Ec.
  - destruct in_run; [specialize (Hr eq_refl); cbn in Hr; congruence |].
    rewrite (Hc eq_refl) in *. cbn [app]. f_equal. apply IH.
    + destruct s; [reflexivity |]. cbn [ws_runs_single] in Hw. now apply andb_true_iff in Hw.
    + intros _. destruct s as [| c' s]; [exact I |]. cbn [ws_runs_single] in Hw.
      apply andb_true_iff in Hw as [Hw _]. cbn in Hw.
      now destruct (is_space c').
  - f_equal. apply IH; [| discriminate].
    destruct s; [reflexivity |]. cbn [ws_runs_single] in Hw. now apply andb_true_iff in Hw.
Qed.

Lemma drop_while_end_keeps p s :
  match rev s with c :: _ => p c = false | [] => True end -> drop_while_end p s = s.
Proof.
  intros Hl. unfold drop_while_end. destruct (rev s) as [| c r] eqn:E.
  - apply (f_equal (@rev _)) in E. rewrite rev_involutive in E. now subst.
  - cbn [drop_while]. rewrite Hl, <- E. apply rev_involutive.
Qed.

Lemma tidy_char c s :
  tidy s -> c ∈ s -> c <> " "%char -> is_space c = false /\ mem c windows_unsafe = false.
Proof.
  intros (H1 & _ & H3) Hin Hc. rewrite Forall_forall in H1, H3. split; [| now apply H3].
  destruct (is_space c) eqn:E; [| reflexivity]. now apply H1 in E.
Qed.

(** On a name that is already clean and short enough, [safe_name] only
    removes trailing spaces and periods. *)
Lemma safe_name_on_tidy s c t max_len :
  tidy s -> s = c :: t -> mem c [" "; "."]%char = false ->
  match rev s with x :: _ => x <> " "%char | [] => True end ->
  Z.of_nat (length s) <= max_len ->
  safe_name s max_len = strip_chars [" "; "."]%char s
  /\ exists t', strip_chars [" "; "."]%char s = c :: t'.
Proof.
  intros HT -> Hc Hlast Hlen.
  assert (Hc' : c <> " "%char /\ c <> "."%char) by now apply not_space_or_period.
  assert (Hcs : is_space c = false).
  { apply (tidy_char c (c :: t) HT); [left | tauto]. }
  assert (Hls : match rev (c :: t) with x :: _ => is_space x = false | [] => True end).
  { destruct (rev (c :: t)) as [| x r] eqn:E; [exact I |].
    apply (tidy_char x (c :: t) HT); [| exact Hlast].
    apply list_elem_of_In, in_rev. rewrite E. now left. }
  assert (E1 : strip (c :: t) = c :: t).
  { unfold strip. cbn [drop_while]. rewrite Hcs. now apply drop_while_end_keeps. }
  assert (E2 : sub_runs is_space [" "%char] (c :: t) = c :: t).
  { destruct HT as (H1 & H2 & _). now apply collapse_single. }
  assert (E3 : sub_runs (fun x => mem x windows_unsafe) ["-"%char] (c :: t) = c :: t).
  { apply sub_runs_aux_none. now destruct HT as (_ & _ & H3). }
  assert (E4 : exists t', strip_chars [" "; "."]%char (c :: t) = c :: t'
                          /\ (length t' <= length t)%nat).
  { unfold strip_chars. cbn [drop_while]. rewrite Hc.
    rewrite drop_while_end_cons by exact Hc. eexists. split; [reflexivity |].
    apply drop_while_end_length. }
  destruct E4 as (t' & E4 & Hlen').
  split; [| now exists t'].
  unfold safe_name. rewrite E1, E2, E3, E4. cbn [length] in *.
  destruct (Z.gtb_spec (Z.of_nat (S (length t'))) max_len); [lia | reflexivity].
Qed.

(** What [safe_name] returns, for use below. *)
Lemma safe_name_shape name max_len :
  1 <= max_len ->
  exists c t,
    safe_name name max_len = c :: t
    /\ mem c [" "; "."]%char = false
    /\ tidy (c :: t)
    /\ match rev (c :: t) with x :: _ => x <> " "%char | [] => True end
    /\ Z.of_nat (length (c :: t)) <= max_len.
Proof.
  intros Hmax.
  assert (E : safe_name name max_len
              = let n := match cleaned name with [] => lit "Untitled" | _ => cleaned name end in
                if Z.of_nat (length n) >? max_len then rstrip (slice_to max_len n) else n)
    by reflexivity.
  rewrite E. clear E. cbn zeta.
  destruct (named_good name) as (HT & (c & t & Hn & Hc) & Hl). cbn zeta in *.
  set (n := match cleaned name with [] => lit "Untitled" | _ => cleaned name end) in *.
  clearbody n.
  assert (Hcs : is_space c = false).
  { apply (tidy_char c n HT); [rewrite Hn; left | now apply not_space_or_period]. }
  destruct (Z.gtb_spec (Z.of_nat (length n)) max_len) as [Hgt | Hle].
  - unfold slice_to. destruct (Z.ltb_spec max_len 0) as [? | _]; [lia |].
    destruct (Z.to_nat max_len) as [| k] eqn:Ek; [lia |].
    assert (Hr : rstrip (take (S k) n) = c :: drop_while_end is_space (take k t)).
    { rewrite Hn. cbn [take]. unfold rstrip. now rewrite drop_while_end_cons. }
    exists c, (drop_while_end is_space (take k t)). rewrite <- Hr.
    split; [reflexivity |]. split; [exact Hc |]. split; [| split].
    + destruct (drop_while_end_spec is_space (take (S k) n)) as (b & Hb & _).
      apply (tidy_prefix _ (b ++ drop (S k) n)). rewrite app_assoc. unfold rstrip.
      rewrite <- Hb. now rewrite take_drop.
    + destruct (drop_while_end_spec is_space (take (S k) n)) as (_ & _ & _ & He).
      fold (rstrip (take (S k) n)) in He.
      destruct (rev (rstrip (take (S k) n))); [exact I |]. now intros ->.
    + unfold rstrip. pose proof (drop_while_end_length is_space (take (S k) n)) as Hlen.
      rewrite length_take in Hlen. lia.
  - exists c, t. rewrite <- Hn.
    split; [reflexivity |]. split; [exact Hc |]. split; [exact HT |]. split; [| exact Hle].
    destruct (rev n); [exact I |]. now apply not_space_or_period in Hl.
Qed.

Lemma last_of_rev (s : str) x r : rev s = x :: r -> last s = Some x.
Proof.
  intros E. apply (f_equal (@rev _)) in E. rewrite rev_involutive in E. subst s.
  cbn [rev]. apply last_snoc.
Qed.

(** What [strip(" .")] leaves: a piece of the string with no space or period
    at its end, and the string itself if it has none at either end. *)
Lemma strip_chars_spec cs s :
  (exists a b, s = a ++ strip_chars cs s ++ b)
  /\ match rev (strip_chars cs s) with x :: _ => mem x cs = false | [] => True end.
Proof.
  unfold strip_chars.
  destruct (drop_while_spec (fun c => mem c cs) s) as (a & Ha & _).
  destruct (drop_while_end_spec (fun c => mem c cs) (drop_while (fun c => mem c cs) s))
    as (b & Hb & _ & He).
  split; [| exact He]. exists a, b. now rewrite <- Hb.
Qed.

Lemma strip_chars_keeps cs c t :
  mem c cs = false ->
  match rev (c :: t) with x :: _ => mem x cs = false | [] => True end ->
  strip_chars cs (c :: t) = c :: t.
Proof.
  intros Hc Hl. unfold strip_chars. cbn [drop_while]. rewrite Hc.
  now apply drop_while_end_keeps.
Qed.

(** X5.  A name that is already safe comes back unchanged: if it
    holds none of the nine unsafe characters, no white space but single
    spaces, neither starts nor ends with a space or a period, is not empty
    and is at most [max_len] long, [safe_name] returns it as it is. *)
Theorem safe_name_keeps_safe_names name max_len :
  tidy name ->
  (forall c, head name = Some c -> c <> " "%char /\ c <> "."%char) ->
  (forall c, last name = Some c -> c <> " "%char /\ c <> "."%char) ->
  name <> [] ->
  Z.of_nat (length name) <= max_len ->
  safe_name name max_len = name.
Proof.
  intros HT Hh Hl Hne Hlen. destruct name as [| c t]; [done |].
  assert (Hc : mem c [" "; "."]%char = false).
  { destruct (Hh c eq_refl) as [H1 H2]. cbn.
    destruct (Ascii.eqb_spec c " "); [done |]. now destruct (Ascii.eqb_spec c "."). }
  assert (Hr : match rev (c :: t) with x :: _ => mem x [" "; "."]%char = false | [] => True end).
  { destruct (rev (c :: t)) as [| x r] eqn:E; [exact I |].
    destruct (Hl x (last_of_rev _ _ _ E)) as [H1 H2]. cbn.
    destruct (Ascii.eqb_spec x " "); [done |]. now destruct (Ascii.eqb_spec x "."). }
  destruct (safe_name_on_tidy (c :: t) c t max_len HT eq_refl Hc) as [-> _]; [| exact Hlen |].
  - destruct (rev (c :: t)); [exact I |]. now apply not_space_or_period in Hr.
  - now apply strip_chars_keeps.
Qed.

(** A folder name as the script builds it. *)
Lemma safe_name_keeps_safe_names_witness :
  safe_name (lit "Ward picnic - 4 March 2026") 90 = lit "Ward picnic - 4 March 2026".
Proof.
  apply safe_name_keeps_safe_names.
  - unfold lit. cbn [list_ascii_of_string]. split; [| split].
    + repeat (apply Forall_cons_2;
              [intros Hs; vm_compute in Hs; first [discriminate Hs | reflexivity] |]).
      apply Forall_nil_2.
    + vm_compute. reflexivity.
    + repeat (apply Forall_cons_2; [vm_compute; reflexivity |]). apply Forall_nil_2.
  - intros c [= <-]. split; discriminate.
  - intros c [= <-]. split; discriminate.
  - discriminate.
  - vm_compute. discriminate.
Defined.

(** X6.  [safe_name] applied to its own result removes at most
    the spaces and periods that the cut has left at the end, and a third
    application changes nothing: [download_current_story] applies it to a
    name built from an earlier result. *)
Theorem safe_name_twice name max_len :
  1 <= max_len ->
  let r := safe_name name max_len in
  safe_name r max_len = strip_chars [" "; "."]%char r
  /\ safe_name (safe_name r max_len) max_len = safe_name r max_len.
Proof.
  intros Hmax. cbn zeta.
  destruct (safe_name_shape name max_len Hmax) as (c & t & -> & Hc & HT & Hl & Hlen).
  destruct (safe_name_on_tidy (c :: t) c t max_len HT eq_refl Hc Hl Hlen) as [E1 (t' & E2)].
  split; [exact E1 |]. rewrite E1, E2.
  destruct (strip_chars_spec [" "; "."]%char (c :: t)) as [(a & b & Hab) He].
  rewrite E2 in Hab, He.
  assert (HT' : tidy (c :: t')) by (apply (tidy_infix a _ b); now rewrite <- Hab).
  assert (Hlen' : Z.of_nat (length (c :: t')) <= max_len).
  { apply (f_equal (@length _)) in Hab. rewrite !length_app in Hab. lia. }
  destruct (safe_name_on_tidy (c :: t') c t' max_len HT' eq_refl Hc) as [-> _]; [| exact Hlen' |].
  - destruct (rev (c :: t')); [exact I |]. now apply not_space_or_period in He.
  - now apply strip_chars_keeps.
Qed.

(** A cut that ends on a period: the second application removes it. *)
Lemma safe_name_twice_witness :
  safe_name (lit "ab.cd") 3 = lit "ab."
  /\ safe_name (safe_name (lit "ab.cd") 3) 3 = lit "ab"
  /\ safe_name (safe_name (safe_name (lit "ab.cd") 3) 3) 3 = safe_name (safe_name (lit "ab.cd") 3) 3.
Proof.
  split; [reflexivity |]. split; [reflexivity |].
  apply (proj2 (safe_name_twice (lit "ab.cd") 3 ltac:(lia))).
Defined.

(** X7.  The folder of a story lies directly in the output
    directory whatever the title and the date text are: its last component
    is not empty, is at most 90 characters long, holds no slash or
    backslash, and does not start with a period or a space, so that it is
    neither [.] nor [..]. *)
Theorem story_folder_is_a_child out_root title date_str :
  exists base,
    story_folder_of out_root title date_str = out_root ++ "/"%char :: base
    /\ base <> [] /\ (length base <= 90)%nat
    /\ ("/"%char ∉ base) /\ ("\"%char ∉ base)
    /\ (forall c, head base = Some c -> c <> "."%char /\ c <> " "%char).
Proof.
  unfold story_folder_of, path_join, default_max_len.
  set (base := match date_str with
               | [] => safe_name title 90
               | _ => safe_name (safe_name title 90 ++ lit " - " ++ date_str) 90
               end).
  assert (H : exists name, base = safe_name name 90) by (subst base; destruct date_str; eauto).
  destruct H as (name & Hb). exists base. split; [reflexivity |]. rewrite Hb.
  destruct (safe_name_shape name 90 ltac:(lia)) as (c & t & -> & Hc & (_ & _ & HU) & _ & Hlen).
  rewrite Forall_forall in HU.
  split; [done |]. split; [cbn [length] in *; lia |].
  split; [intros Hin; now apply HU in Hin |].
  split; [intros Hin; now apply HU in Hin |].
  intros c' [= <-]. apply not_space_or_period in Hc. tauto.
Qed.

End NameMore.

(** ** More on the URL helpers *)

Module UrlMore.
Import Py Exn Urllib UnitUrl UrllibFacts UnitUrlFacts.

(** *** What the loop removes *)

Lemma filter_twice {A} (f g : A -> bool) l :
  List.filter f (List.filter g l) = List.filter (fun x => g x && f x) l.
Proof.
  induction l as [| x l IH]; [reflexivity |]. cbn [List.filter].
  destruct (g x); cbn [List.filter andb]; [now rewrite IH | exact IH].
Qed.

Lemma filter_all {A} (f : A -> bool) l :
  (forall x, In x l -> f x = true) -> List.filter f l = l.
Proof. intros Hf. apply forallb_filter_id, forallb_forall, Hf. Qed.

Lemma drop_loop_filter l (d0 : qdict) c0 :
  fold_left (fun '(d, changed) k =>
               if is_remove_key k then (dict_pop k d, true) else (d, changed))
            l (d0, c0)
  = (List.filter (fun kv => negb (is_remove_key kv.1 && bool_decide (kv.1 ∈ l))) d0,
     c0 || existsb is_remove_key l).
Proof.
  revert d0 c0. induction l as [| k l IH]; intros d0 c0; cbn [fold_left existsb].
  - rewrite orb_false_r. f_equal. symmetry. apply filter_all.
    intros kv _. rewrite bool_decide_eq_false_2 by apply not_elem_of_nil.
    now rewrite andb_false_r.
  - destruct (is_remove_key k) eqn:Hk; rewrite IH.
    + rewrite orb_true_r. cbn [orb]. f_equal. unfold dict_pop.
      rewrite filter_twice. apply filter_ext. intros kv.
      destruct (bool_decide_reflect (kv.1 = k)) as [E | Hne]; cbn [negb andb].
      * rewrite E, Hk. rewrite (bool_decide_eq_true_2 (k ∈ k :: l)) by left. reflexivity.
      * f_equal. f_equal. apply bool_decide_ext. rewrite elem_of_cons. tauto.
    + cbn [orb]. f_equal. apply filter_ext. intros kv.
      destruct (bool_decide_reflect (kv.1 = k)) as [E | Hne].
      * rewrite E, Hk. reflexivity.
      * f_equal. f_equal. apply bool_decide_ext. rewrite elem_of_cons. tauto.
Qed.

(** The loop removes exactly the parameters whose name, in lower case, is
    one of the names to remove, and tells whether there was one. *)
Lemma drop_remove_keys_filter qs :
  drop_remove_keys qs
  = (List.filter (fun kv => negb (is_remove_key kv.1)) qs,
     existsb is_remove_key (dict_keys qs)).
Proof.
  unfold drop_remove_keys. rewrite drop_loop_filter. cbn [orb]. f_equal.
  apply filter_ext_in. intros kv Hin.
  rewrite (bool_decide_eq_true_2 (kv.1 ∈ dict_keys qs)); [now rewrite andb_true_r |].
  unfold dict_keys. apply list_elem_of_fmap. exists kv. split; [done | now apply list_elem_of_In].
Qed.

(** *** Dictionaries as [parse_qs] builds them *)

Lemma dict_append_new k v (d : qdict) :
  k ∉ dict_keys d -> dict_append k v d = d ++ [(k, [v])].
Proof.
  unfold dict_keys. induction d as [| [k' vs] d IH]; intros Hk; cbn [dict_append app]; [done |].
  cbn [map fst] in Hk. apply not_elem_of_cons in Hk as [Hne Hk].
  rewrite bool_decide_eq_false_2 by congruence. now rewrite IH.
Qed.

Lemma dict_append_last k v (d : qdict) vs :
  k ∉ dict_keys d -> dict_append k v (d ++ [(k, vs)]) = d ++ [(k, vs ++ [v])].
Proof.
  unfold dict_keys. induction d as [| [k' vs'] d IH]; intros Hk; cbn [dict_append app].
  - now rewrite bool_decide_eq_true_2.
  - cbn [map fst] in Hk. apply not_elem_of_cons in Hk as [Hne Hk].
    rewrite bool_decide_eq_false_2 by congruence. now rewrite IH.
Qed.

Lemma fold_values k vs (d : qdict) l :
  k ∉ dict_keys d ->
  fold_left (fun d nv => dict_append nv.1 nv.2 d) (map (pair k) vs) (d ++ [(k, l)])
  = d ++ [(k, l ++ vs)].
Proof.
  intros Hk. revert l. induction vs as [| v vs IH]; intros l; cbn [map fold_left fst snd].
  - now rewrite app_nil_r.
  - rewrite dict_append_last by exact Hk. rewrite IH. now rewrite <- app_assoc.
Qed.

(** Adding the pairs of a dictionary, name by name and value by value,
    builds the dictionary again. *)
Lemma fold_pairs (d acc : qdict) :
  NoDup (dict_keys d) -> Forall (fun kv => kv.2 <> []) d ->
  (forall k, k ∈ dict_keys d -> k ∉ dict_keys acc) ->
  fold_left (fun d nv => dict_append nv.1 nv.2 d)
            (flat_map (fun kv => map (pair kv.1) kv.2) d) acc
  = acc ++ d.
Proof.
  revert acc. induction d as [| [k vs] d IH]; intros acc Hnd Hne Hdis; cbn [flat_map].
  - now rewrite app_nil_r.
  - cbn [dict_keys map fst] in Hnd. apply NoDup_cons in Hnd as [Hk Hnd].
    apply Forall_cons in Hne as [Hvs Hne]. cbn [fst snd] in *.
    destruct vs as [| v vs]; [done |].
    rewrite fold_left_app. cbn [map fold_left fst snd].
    assert (Hka : k ∉ dict_keys acc) by (apply Hdis; left).
    rewrite (dict_append_new k v acc Hka), (fold_values k vs acc [v] Hka).
    rewrite IH; [now rewrite <- app_assoc | exact Hnd | exact Hne |].
    intros k' Hk'. unfold dict_keys. rewrite map_app. cbn [map fst].
    rewrite not_elem_of_app, not_elem_of_cons. repeat split.
    + apply Hdis. now right.
    + intros ->. now apply Hk.
    + apply not_elem_of_nil.
Qed.

Lemma dict_append_keys_eq k v (d : qdict) :
  dict_keys (dict_append k v d)
  = if bool_decide (k ∈ dict_keys d) then dict_keys d else dict_keys d ++ [k].
Proof.
  unfold dict_keys. induction d as [| [k' vs] d IH]; cbn [dict_append map fst].
  - now rewrite bool_decide_eq_false_2 by apply not_elem_of_nil.
  - destruct (bool_decide_reflect (k' = k)) as [-> | Hne]; cbn [map fst].
    + now rewrite bool_decide_eq_true_2 by left.
    + rewrite IH. destruct (bool_decide_reflect (k ∈ map fst d)) as [Hin | Hnin].
      * now rewrite bool_decide_eq_true_2 by (now right).
      * rewrite bool_decide_eq_false_2; [reflexivity |].
        rewrite not_elem_of_cons. split; [congruence | exact Hnin].
Qed.

Lemma dict_append_values k v (d : qdict) :
  Forall (fun kv => kv.2 <> []) d -> Forall (fun kv => kv.2 <> []) (dict_append k v d).
Proof.
  induction 1 as [| [k' vs] d Hvs Hd IH]; cbn [dict_append].
  - constructor; [discriminate | constructor].
  - destruct (bool_decide (k' = k)); constructor; try assumption.
    cbn. now destruct vs.
Qed.

(** [parse_qs] gives every name once, with at least one value. *)
Lemma parse_qs_wf q :
  NoDup (dict_keys (parse_qs q)) /\ Forall (fun kv => kv.2 <> []) (parse_qs q).
Proof.
  unfold parse_qs.
  assert (G : forall l (d : qdict),
             NoDup (dict_keys d) /\ Forall (fun kv => kv.2 <> []) d ->
             NoDup (dict_keys (fold_left (fun d nv => dict_append nv.1 nv.2 d) l d))
             /\ Forall (fun kv => kv.2 <> []) (fold_left (fun d nv => dict_append nv.1 nv.2 d) l d)).
  { induction l as [| nv l IH]; intros d [Hn Hv]; cbn [fold_left]; [done |].
    apply IH. split; [| now apply dict_append_values].
    rewrite dict_append_keys_eq. case_bool_decide; [exact Hn |].
    apply NoDup_app. split; [exact Hn |]. split; [| apply NoDup_singleton].
    intros x Hx ->%list_elem_of_singleton. done. }
  apply G. split; constructor.
Qed.

Lemma filter_wf (f : ustr * list ustr -> bool) (d : qdict) :
  NoDup (dict_keys d) /\ Forall (fun kv => kv.2 <> []) d ->
  NoDup (dict_keys (List.filter f d)) /\ Forall (fun kv => kv.2 <> []) (List.filter f d).
Proof.
  intros [Hn Hv]. split.
  - unfold dict_keys in *. induction d as [| kv d IH]; [constructor |].
    cbn [map] in Hn. apply NoDup_cons in Hn as [Hk Hn].
    apply Forall_cons in Hv as [_ Hv]. cbn [List.filter].
    destruct (f kv); [| now apply IH]. cbn [map]. apply NoDup_cons. split; [| now apply IH].
    intros Hin. apply Hk. apply list_elem_of_fmap in Hin as (kv' & -> & Hin).
    apply list_elem_of_fmap. exists kv'. split; [done |].
    apply list_elem_of_In. apply list_elem_of_In, filter_In in Hin. tauto.
  - apply Forall_forall. intros kv Hin. rewrite Forall_forall in Hv. apply Hv.
    apply list_elem_of_In. apply list_elem_of_In, filter_In in Hin. tauto.
Qed.

(** *** Reading an encoded dictionary *)

Lemma sequence_app {A} (l1 l2 : list (result A)) r :
  sequence (l1 ++ l2) = Ok r ->
  exists r1 r2, sequence l1 = Ok r1 /\ sequence l2 = Ok r2 /\ r = r1 ++ r2.
Proof.
  revert r. induction l1 as [| [a | e] l1 IH]; intros r; cbn [app sequence].
  - intros Hr. now exists [], r.
  - destruct (sequence (l1 ++ l2)) as [r' |] eqn:E; [| discriminate]. intros [= <-].
    destruct (IH r' eq_refl) as (r1 & r2 & -> & H2 & ->). now exists (a :: r1), r2.
  - discriminate.
Qed.

(** Each item of an encoded query is the encoding of one pair. *)
Lemma urlencode_pairs (d : qdict) items :
  sequence
    (flat_map (fun kv =>
                 match quote_plus kv.1 with
                 | Raise e => [Raise e]
                 | Ok k =>
                     map (fun elt =>
                            match quote_plus elt with
                            | Ok v => Ok (k ++ "="%char :: v)
                            | Raise e => Raise e
                            end) kv.2
                 end) d) = Ok items ->
  Forall2 (fun item (nv : ustr * ustr) =>
             exists qk qv, quote_plus nv.1 = Ok qk /\ quote_plus nv.2 = Ok qv
                           /\ item = qk ++ "="%char :: qv)
          items (flat_map (fun kv => map (pair kv.1) kv.2) d).
Proof.
  revert items. induction d as [| [k vs] d IH]; intros items; cbn [flat_map fst snd].
  - intros [= <-]. constructor.
  - intros (r1 & r2 & H1 & H2 & ->)%sequence_app.
    apply Forall2_app; [| now apply IH]. clear IH H2.
    destruct (quote_plus k) as [qk | e] eqn:Hk; [| discriminate].
    revert r1 H1. induction vs as [| v vs IHv]; intros r1; cbn [map sequence].
    + intros [= <-]. constructor.
    + destruct (quote_plus v) as [qv | e] eqn:Hv; [| discriminate].
      destruct (sequence _) as [r' |] eqn:E; [| discriminate]. intros [= <-].
      constructor; [| now apply IHv]. exists qk, qv. done.
Qed.

Lemma parse_items items (ps : list (ustr * ustr)) :
  Forall2 (fun item (nv : ustr * ustr) =>
             exists qk qv, quote_plus nv.1 = Ok qk /\ quote_plus nv.2 = Ok qv
                           /\ item = qk ++ "="%char :: qv)
          items ps ->
  parse_qsl (join ["&"%char] items) = ps.
Proof.
  intros HF.
  assert (Hamp : Forall (fun s => "&"%char ∉ s) items).
  { induction HF as [| item nv items ps (qk & qv & Hk & Hv & ->) _ IH]; constructor; [| exact IH].
    apply quote_plus_chars in Hk, Hv.
    apply not_elem_of_app. split; [now apply (quoted_char_not qk) |].
    apply not_elem_of_cons. split; [discriminate | now apply (quoted_char_not qv)]. }
  destruct items as [| i0 items'].
  { inversion HF. reflexivity. }
  unfold parse_qsl. destruct (join ["&"%char] (i0 :: items')) as [| c0 rest] eqn:Hj.
  { exfalso. inversion HF as [| ? ? ? ? (qk & qv & _ & _ & ->) _]; subst.
    destruct items'; cbn [join] in Hj; now destruct qk. }
  rewrite <- Hj, split_on_join by done. clear Hj Hamp.
  induction HF as [| item nv items ps (qk & qv & Hk & Hv & ->) _ IH]; [reflexivity |].
  cbn [flat_map]. rewrite IH.
  assert (Heq : "="%char ∉ qk) by (apply (quoted_char_not qk); [reflexivity | exact (quote_plus_chars _ _ Hk)]).
  rewrite (split_first_at "=" qk qv Heq).
  rewrite (unquote_plus_quote_plus _ _ Hk), (unquote_plus_quote_plus _ _ Hv).
  destruct nv. now destruct qk.
Qed.

(** Encoding a dictionary that [parse_qs] could have built and reading the
    result gives the dictionary again. *)
Lemma parse_qs_urlencode (d : qdict) nq :
  NoDup (dict_keys d) -> Forall (fun kv => kv.2 <> []) d ->
  urlencode d = Ok nq -> parse_qs nq = d.
Proof.
  intros Hn Hv. unfold urlencode.
  destruct (sequence _) as [items |] eqn:Hs; [| discriminate]. intros [= <-].
  unfold parse_qs. rewrite (parse_items _ _ (urlencode_pairs _ _ Hs)).
  rewrite fold_pairs; [reflexivity | exact Hn | exact Hv |].
  intros k _. apply not_elem_of_nil.
Qed.

(** *** Recognising a login page *)

Lemma starts_with_app needle s q :
  starts_with needle s = true -> starts_with needle (s ++ q) = true.
Proof.
  revert s. induction needle as [| c n IH]; intros s; [reflexivity |].
  destruct s as [| x s]; [discriminate |]. cbn [starts_with app].
  intros [-> Hn]%andb_true_iff. now rewrite (IH _ Hn).
Qed.

Lemma contains_app needle p s q :
  contains needle s = true -> contains needle (p ++ s ++ q) = true.
Proof.
  intros Hs.
  assert (Hr : contains needle (s ++ q) = true).
  { clear p. induction s as [| x s IH].
    - destruct needle; [now destruct q | discriminate].
    - cbn [contains app] in *. apply orb_true_iff in Hs as [Hs | Hs].
      + change (x :: s ++ q) with ((x :: s) ++ q). now rewrite (starts_with_app _ _ _ Hs).
      + rewrite (IH Hs). apply orb_true_r. }
  induction p as [| x p IH]; [exact Hr |].
  cbn [app contains]. rewrite IH. apply orb_true_r.
Qed.

Lemma lower_char_twice c : lower_char (lower_char c) = lower_char c.
Proof. destruct c as [[] [] [] [] [] [] [] []]; reflexivity. Qed.

(** X8.  [is_login_page] ignores the case of the letters, and
    a URL that contains a URL recognised as a login page is recognised as
    well: adding a path, a query or a prefix never hides a login page. *)
Theorem is_login_page_monotone p u q :
  is_login_page (lower u) = is_login_page u
  /\ (is_login_page u = true -> is_login_page (p ++ u ++ q) = true).
Proof.
  split.
  - unfold is_login_page. replace (lower (lower u)) with (lower u); [reflexivity |].
    unfold lower. rewrite map_map. apply map_ext. intros c. now rewrite lower_char_twice.
  - unfold is_login_page. unfold lower. rewrite !map_app. fold (lower p) (lower u) (lower q).
    intros Hu. repeat (apply orb_true_iff in Hu as [Hu | Hu]).
    + now rewrite (contains_app _ (lower p) _ (lower q) Hu).
    + rewrite (contains_app _ (lower p) _ (lower q) Hu). now rewrite orb_true_r.
    + rewrite (contains_app _ (lower p) _ (lower q) Hu). now rewrite !orb_true_r.
    + apply andb_true_iff in Hu as [H1 H2].
      rewrite (contains_app _ (lower p) _ (lower q) H1), (contains_app _ (lower p) _ (lower q) H2).
      now rewrite !orb_true_r.
Qed.

(** A sign-in address with a return address after it. *)
Lemma is_login_page_monotone_witness :
  is_login_page (lit "https://id.example.org/SignIn?next=" ++ lit "/Login" ++ lit "&x=1") = true.
Proof.
  apply (proj2 (is_login_page_monotone (lit "https://id.example.org/SignIn?next=")
                  (lit "/Login") (lit "&x=1"))).
  reflexivity.
Defined.

Section WithChecks.
Context `{NetlocChecks}.

(** X9.  Stripping loses no other parameter: when [urlparse]
    and [urlencode] succeed and the result parses, the query of the result
    reads as the parameters of the input whose name is not one of the names
    to remove, with all their values and in their order. *)
Theorem strip_keeps_other_parameters u pu pv :
  urlparse u = Ok pu ->
  is_ok (urlencode (drop_remove_keys (parse_qs (query pu))).1) = true ->
  urlparse (strip_downscaling_params u) = Ok pv ->
  parse_qs (query pv)
  = List.filter (fun kv => negb (is_remove_key kv.1)) (parse_qs (query pu)).
Proof.
  intros Hu Henc Hv. unfold strip_downscaling_params in Hv.
  rewrite Hu in Hv. rewrite drop_remove_keys_filter in Henc, Hv. cbn [fst] in Henc.
  destruct (existsb is_remove_key (dict_keys (parse_qs (query pu)))) eqn:Hex; cbn [negb] in Hv.
  - destruct (urlencode _) as [nq | e] eqn:He; [| discriminate].
    rewrite (rebuilt_url_query u pu nq pv Hu (urlencode_plain _ _ He) Hv).
    destruct (filter_wf (fun kv => negb (is_remove_key kv.1)) _ (parse_qs_wf (query pu)))
      as [Hn Hvs].
    now apply parse_qs_urlencode.
  - rewrite Hu in Hv. injection Hv as <-. symmetry. apply filter_all.
    intros kv Hin. apply negb_true_iff.
    destruct (is_remove_key kv.1) eqn:Hk; [| reflexivity].
    rewrite <- Hex. symmetry. apply existsb_exists. exists kv.1. split; [| exact Hk].
    unfold dict_keys. now apply in_map.
Qed.

(** X10.  For a URL with a network location, stripping the
    downscaling parameters does not change the file extension chosen for the
    download. *)
Theorem strip_keeps_extension u :
  (forall pu, urlparse u = Ok pu -> netloc pu <> []) ->
  file_ext_from_url (strip_downscaling_params u) = file_ext_from_url u.
Proof.
  intros Hnet.
  destruct (strip_cases u) as [-> | (pu & d & nq & Hu & Hd & He & ->)]; [reflexivity |].
  unfold file_ext_from_url.
  rewrite (urlparse_rebuilt u pu nq Hu (Hnet pu Hu) (urlencode_plain _ _ He)), Hu.
  reflexivity.
Qed.

End WithChecks.

(** A URL with a repeated parameter, an escaped value and two parameters to
    remove. *)
Lemma strip_keeps_other_parameters_witness :
  let u := lit "https://cdn.example.org/a.jpg?W=200&id=7&tag=x%20y&q=80&id=8#top" in
  exists pv,
    @urlparse Scenarios.checks_pass (@strip_downscaling_params Scenarios.checks_pass u) = Ok pv
    /\ parse_qs (query pv)
       = [(to_ustr (lit "id"), [to_ustr (lit "7"); to_ustr (lit "8")]);
          (to_ustr (lit "tag"), [to_ustr (lit "x y")])].
Proof.
  eexists. split; [vm_compute; reflexivity |].
  rewrite (@strip_keeps_other_parameters Scenarios.checks_pass
             (lit "https://cdn.example.org/a.jpg?W=200&id=7&tag=x%20y&q=80&id=8#top")
             {| scheme := lit "https"; netloc := lit "cdn.example.org"; path := lit "/a.jpg";
                params := []; query := lit "W=200&id=7&tag=x%20y&q=80&id=8";
                fragment := lit "top" |}
             _ ltac:(vm_compute; reflexivity) ltac:(vm_compute; reflexivity)
             ltac:(vm_compute; reflexivity)).
  vm_compute. reflexivity.
Defined.

(** An upper-case extension behind a width. *)
Lemma strip_keeps_extension_witness :
  @file_ext_from_url Scenarios.checks_pass
    (@strip_downscaling_params Scenarios.checks_pass (lit "https://h/img/a.PNG?w=100"))
  = Ok (lit ".png").
Proof.
  rewrite (@strip_keeps_extension Scenarios.checks_pass (lit "https://h/img/a.PNG?w=100")).
  - reflexivity.
  - intros pu Hpu. vm_compute in Hpu. injection Hpu as <-. discriminate.
Defined.

End UrlMore.

(** ** The lists of image URLs *)

Module ListMore.
Import Py Exn Json Files Urllib UnitUrl Unit UnitFacts.

(** *** Removing duplicates *)

Lemma str_in_spec (u : str) l : str_in u l = true <-> u ∈ l.
Proof. unfold str_in. apply bool_decide_eq_true. Qed.

Lemma dedupe_aux_elem seen l u :
  u ∈ dedupe_aux seen l <-> u ∈ l /\ u <> [] /\ u ∉ seen.
Proof.
  revert seen. induction l as [| v l IH]; intros seen; cbn [dedupe_aux].
  - split; [intros Hin; now apply not_elem_of_nil in Hin |].
    intros [Hin _]. now apply not_elem_of_nil in Hin.
  - destruct (non_empty v) eqn:Hv; cbn [andb].
    + destruct (str_in v seen) eqn:Hs; cbn [negb].
      * rewrite IH, elem_of_cons. apply str_in_spec in Hs. split; [tauto |].
        intros [[-> | Hin] [Hne Hns]]; tauto.
      * rewrite elem_of_cons, IH, !elem_of_cons.
        assert (Hs' : v ∉ seen) by (intros Hin; apply str_in_spec in Hin; congruence).
        split.
        -- intros [-> | (Hin & Hne & Hns)]; [| tauto].
           split; [now left |]. split; [now destruct v | exact Hs'].
        -- intros [[-> | Hin] [Hne Hns]]; [now left |].
           destruct (decide (u = v)) as [-> | Huv]; [now left | right]. tauto.
    + rewrite IH, elem_of_cons. destruct v; [| discriminate]. split; [tauto |].
      intros [[-> | Hin] [Hne Hns]]; tauto.
Qed.

Lemma dedupe_aux_NoDup seen l : NoDup (dedupe_aux seen l).
Proof.
  revert seen. induction l as [| v l IH]; intros seen; cbn [dedupe_aux]; [constructor |].
  destruct (non_empty v && negb (str_in v seen)); [| apply IH].
  apply NoDup_cons. split; [| apply IH].
  rewrite dedupe_aux_elem. intros (_ & _ & Hns). apply Hns. left.
Qed.

Lemma dedupe_aux_sublist seen l : sublist (dedupe_aux seen l) l.
Proof.
  revert seen. induction l as [| v l IH]; intros seen; cbn [dedupe_aux]; [constructor |].
  destruct (non_empty v && negb (str_in v seen)).
  - apply sublist_skip, IH.
  - apply sublist_cons, IH.
Qed.

Lemma dedupe_aux_ext s1 s2 l :
  (forall x : str, x ∈ s1 <-> x ∈ s2) -> dedupe_aux s1 l = dedupe_aux s2 l.
Proof.
  revert s1 s2. induction l as [| v l IH]; intros s1 s2 Hs; cbn [dedupe_aux]; [reflexivity |].
  assert (E : str_in v s1 = str_in v s2) by (unfold str_in; apply bool_decide_ext, Hs).
  rewrite E. destruct (non_empty v && negb (str_in v s2)).
  - f_equal. apply IH. intros x. rewrite !elem_of_cons, Hs. tauto.
  - now apply IH.
Qed.

(** Seeing one more URL first removes it from the result and nothing else. *)
Lemma dedupe_aux_seen u seen l :
  dedupe_aux (u :: seen) l
  = List.filter (fun v => negb (bool_decide (v = u))) (dedupe_aux seen l).
Proof.
  revert seen. induction l as [| v l IH]; intros seen; cbn [dedupe_aux]; [reflexivity |].
  destruct (non_empty v) eqn:Hv; cbn [andb]; [| apply IH].
  unfold str_in at 1. destruct (bool_decide_reflect (v = u)) as [-> | Hne].
  - rewrite bool_decide_eq_true_2 by left. cbn [negb].
    destruct (str_in u seen) eqn:Hs; cbn [negb]; [apply IH |].
    cbn [List.filter]. rewrite bool_decide_eq_true_2 by reflexivity. cbn [negb].
    symmetry. apply forallb_filter_id, forallb_forall. intros x Hx.
    apply negb_true_iff, bool_decide_eq_false. intros ->.
    apply list_elem_of_In, dedupe_aux_elem in Hx as (_ & _ & Hx). apply Hx. left.
  - destruct (str_in v seen) eqn:Hs.
    + rewrite bool_decide_eq_true_2; [apply IH |]. right. now apply str_in_spec.
    + rewrite bool_decide_eq_false_2.
      2:{ rewrite not_elem_of_cons. split; [exact Hne |].
          intros Hin. apply str_in_spec in Hin. congruence. }
      cbn [negb List.filter]. rewrite bool_decide_eq_false_2 by exact Hne. cbn [negb].
      f_equal. rewrite <- (IH (v :: seen)). apply dedupe_aux_ext.
      intros x. rewrite !elem_of_cons. tauto.
Qed.

(** X11.  The loop that removes duplicates from the image URLs
    (after the lightbox and after the DOM scrape) returns each URL of its
    input that is not empty exactly once, in the order of the input, and the
    occurrence it keeps of a URL is the first. *)
Theorem dedupe_spec l :
  NoDup (dedupe l)
  /\ (forall u, u ∈ dedupe l <-> u ∈ l /\ u <> [])
  /\ sublist (dedupe l) l
  /\ (forall u l', u <> [] ->
        dedupe (u :: l') = u :: List.filter (fun v => negb (bool_decide (v = u))) (dedupe l')).
Proof.
  unfold dedupe. split; [apply dedupe_aux_NoDup |]. split; [| split].
  - intros u. rewrite dedupe_aux_elem. split; [tauto |].
    intros [Hin Hne]. split; [exact Hin |]. split; [exact Hne | apply not_elem_of_nil].
  - apply dedupe_aux_sublist.
  - intros u l' Hu. cbn [dedupe_aux]. destruct u; [done |]. cbn [non_empty andb].
    unfold str_in. rewrite bool_decide_eq_false_2 by apply not_elem_of_nil. cbn [negb].
    f_equal. apply dedupe_aux_seen.
Qed.

(** *** The URLs read off the page *)

Lemma str_leb_total a b : str_leb a b = false -> str_leb b a = true.
Proof.
  revert b. induction a as [| x a IH]; intros [| y b]; cbn [str_leb]; try done.
  intros [H1 H2]%orb_false_iff. apply N.ltb_ge in H1.
  destruct (N.ltb_spec (code y) (code x)) as [Hlt | Hge]; [reflexivity |].
  assert (E : code x = code y) by lia. rewrite E, N.eqb_refl in *. cbn in *. now apply IH.
Qed.

Lemma str_leb_trans a b c : str_leb a b = true -> str_leb b c = true -> str_leb a c = true.
Proof.
  revert b c. induction a as [| x a IH]; intros [| y b] [| z c]; cbn [str_leb]; try done.
  intros H1 H2. apply orb_true_iff in H1, H2. apply orb_true_iff.
  destruct H1 as [H1 | [H1 H1']%andb_true_iff], H2 as [H2 | [H2 H2']%andb_true_iff];
    rewrite ?N.ltb_lt, ?N.eqb_eq in *.
  - left. lia.
  - left. lia.
  - left. lia.
  - right. apply andb_true_iff. rewrite N.eqb_eq. split; [lia | now apply (IH b)].
Qed.

Lemma insert_sorted_perm u l : Permutation (insert_sorted u l) (u :: l).
Proof.
  induction l as [| v l IH]; cbn [insert_sorted]; [reflexivity |].
  destruct (str_leb u v); [reflexivity |]. rewrite IH. apply perm_swap.
Qed.

Lemma sorted_perm l : Permutation (sorted l) l.
Proof.
  induction l as [| u l IH]; [reflexivity |].
  change (sorted (u :: l)) with (insert_sorted u (sorted l)).
  rewrite insert_sorted_perm. now constructor.
Qed.

Lemma insert_sorted_ascending u l :
  StronglySorted (fun a b => str_leb a b = true) l ->
  StronglySorted (fun a b => str_leb a b = true) (insert_sorted u l).
Proof.
  induction 1 as [| v l Hl IH Hv]; cbn [insert_sorted]; [repeat constructor |].
  destruct (str_leb u v) eqn:E.
  - constructor; [now constructor |]. constructor; [exact E |].
    eapply Forall_impl; [exact Hv |]. cbn. intros x Hx. now apply (str_leb_trans u v).
  - constructor; [exact IH |].
    apply Forall_forall. intros x Hx.
    rewrite (insert_sorted_perm u l) in Hx. apply elem_of_cons in Hx as [-> | Hx].
    + now apply str_leb_total.
    + rewrite Forall_forall in Hv. now apply Hv.
Qed.

Lemma sorted_ascending l : StronglySorted (fun a b => str_leb a b = true) (sorted l).
Proof.
  induction l as [| u l IH]; [constructor |].
  change (sorted (u :: l)) with (insert_sorted u (sorted l)). now apply insert_sorted_ascending.
Qed.

Lemma unique_spec l : NoDup (unique l) /\ forall u : str, u ∈ unique l <-> u ∈ l.
Proof.
  induction l as [| v l [IH1 IH2]]; cbn [unique]; [split; [constructor | done] |].
  destruct (str_in v l) eqn:E.
  - apply str_in_spec in E. split; [exact IH1 |].
    intros u. rewrite IH2, elem_of_cons. split; [tauto |]. intros [-> | Hin]; done.
  - assert (Hv : v ∉ l) by (intros Hin; apply str_in_spec in Hin; congruence).
    split.
    + apply NoDup_cons. split; [now rewrite IH2 | exact IH1].
    + intros u. rewrite !elem_of_cons, IH2. tauto.
Qed.

Lemma traverse_Ok {A C} (f : A -> result C) l r :
  traverse f l = Ok r -> Forall2 (fun a c => f a = Ok c) l r.
Proof.
  revert r. induction l as [| a l IH]; intros r; cbn [traverse].
  - intros [= <-]. constructor.
  - destruct (f a) as [c | e] eqn:Ea; [| discriminate].
    destruct (traverse f l) as [r' | e]; [| discriminate]. intros [= <-].
    constructor; [exact Ea | now apply IH].
Qed.

Section Page.
Context `{Browser}.

Lemma url_of_item_not_empty item us : url_of_item item = Ok us -> Forall (fun u => u <> []) us.
Proof.
  unfold url_of_item. destruct item as [| c item]; [intros [= <-]; constructor |].
  destruct (normalize_img_url _) as [[| x u] | e]; intros [= <-]; repeat constructor. done.
Qed.

(** X12.  The URLs [extract_image_urls_from_dom] returns are in
    strictly ascending order, so that none occurs twice; none is empty, and
    none is a [data:] or [blob:] URL, in whatever case these words are
    written. *)
Theorem dom_urls_sorted_distinct w urls w' :
  extract_image_urls_from_dom w = (Ok urls, w') ->
  StronglySorted (fun a b => str_leb a b = true /\ a <> b) urls
  /\ Forall (fun u => u <> []
                      /\ starts_with (lit "data:") (lower u) = false
                      /\ starts_with (lit "blob:") (lower u) = false) urls.
Proof.
  unfold extract_image_urls_from_dom.
  set (f := fun u : str => negb (starts_with (lit "data:") (lower u)
                                 || starts_with (lit "blob:") (lower u))).
  assert (Hf : forall u, f u = true ->
                 starts_with (lit "data:") (lower u) = false
                 /\ starts_with (lit "blob:") (lower u) = false).
  { intros u Hu. now apply negb_true_iff, orb_false_iff in Hu. }
  clearbody f.
  intros (raw & w1 & _ & Hrest)%bind_ok_inv.
  apply bind_ok_inv in Hrest as (out & w2 & Hout & Hret).
  unfold lift in Hout. injection Hout as Hout _. injection Hret as <- _.
  set (cleaned := List.filter f (unique (concat out))).
  assert (Hc : NoDup cleaned
               /\ Forall (fun u => u <> []
                                   /\ starts_with (lit "data:") (lower u) = false
                                   /\ starts_with (lit "blob:") (lower u) = false) cleaned).
  { split.
    - apply NoDup_ListNoDup, List.NoDup_filter, NoDup_ListNoDup. apply unique_spec.
    - apply Forall_forall. intros u Hu. apply list_elem_of_In, filter_In in Hu as [Hu Hfu].
      split; [| now apply Hf].
      apply list_elem_of_In in Hu. apply (proj1 (proj2 (unique_spec _) u)) in Hu.
      apply list_elem_of_In in Hu. apply in_concat in Hu as (us & Hus & Hu).
      apply traverse_Ok in Hout.
      assert (G : exists item, url_of_item item = Ok us).
      { clear -Hout Hus. induction Hout as [| a c l r Hac _ IH]; [destruct Hus |].
        destruct Hus as [-> | Hus]; [now exists a | now apply IH]. }
      destruct G as (item & Hitem). apply url_of_item_not_empty in Hitem.
      rewrite Forall_forall in Hitem. now apply Hitem, list_elem_of_In. }
  destruct Hc as [Hnd Hall]. split.
  - pose proof (sorted_ascending cleaned) as Hs.
    assert (Hnd' : NoDup (sorted cleaned)) by (now rewrite (sorted_perm cleaned)).
    clear -Hs Hnd'. induction Hs as [| a l Hl IH Ha]; [constructor |].
    apply NoDup_cons in Hnd' as [Hnin Hnd']. constructor; [now apply IH |].
    apply Forall_forall. intros b Hb. rewrite Forall_forall in Ha.
    split; [now apply Ha |]. intros ->. done.
  - apply Forall_forall. intros u Hu. rewrite (sorted_perm cleaned) in Hu.
    rewrite Forall_forall in Hall. now apply Hall.
Qed.

End Page.

(** A page with a repeated address, a srcset and an inline image. *)
Lemma dom_urls_sorted_distinct_witness :
  let urls := map lit ["https://cdn.example.org/c.gif?w=10";
                       "https://unithistory.churchofjesuschrist.org/img/a2.jpg";
                       "https://unithistory.churchofjesuschrist.org/img/b.png"]%string in
  (@extract_image_urls_from_dom (Scenarios.scripted Scenarios.mixed_sources)
     (Scenarios.start_world Scenarios.mixed_sources Scenarios.empty_disk)).1 = Ok urls
  /\ StronglySorted (fun a b => str_leb a b = true /\ a <> b) urls.
Proof.
  cbn zeta. split; [vm_compute; reflexivity |].
  pose proof (completed
                (@extract_image_urls_from_dom (Scenarios.scripted Scenarios.mixed_sources)
                   (Scenarios.start_world Scenarios.mixed_sources Scenarios.empty_disk))
                (map lit ["https://cdn.example.org/c.gif?w=10";
                          "https://unithistory.churchofjesuschrist.org/img/a2.jpg";
                          "https://unithistory.churchofjesuschrist.org/img/b.png"]%string)
                ltac:(vm_compute; reflexivity)) as E.
  exact (proj1 (dom_urls_sorted_distinct _ _ _ E)).
Defined.

End ListMore.

(** ** More on the run of unit_history_sync.py *)

Module RunMore.
Import Py Exn Json Files Urllib UnitUrl Unit UnitFacts PyFacts.

Section Run.
Context `{Browser} `{NetlocChecks}.

(** *** Calls that cannot abort the run *)

(** X13.  [save_debug] never raises, whatever the page does; it
    makes no directory and writes no file but its screenshot and its HTML
    dump, and the HTML file exists afterwards. *)
Theorem save_debug_only_its_files tag w :
  let ts := strftime (lit "%Y%m%d-%H%M%S") (browser w) in
  let shot := tag ++ lit "_" ++ ts ++ lit ".png" in
  let html := tag ++ lit "_" ++ ts ++ lit ".html" in
  exists w',
    save_debug tag w = (Ok tt, w')
    /\ dirs (disk w') = dirs (disk w)
    /\ (forall p, p <> shot -> p <> html -> files (disk w') !! p = files (disk w) !! p)
    /\ (exists c, files (disk w') !! html = Some (Text c)).
Proof.
  cbn zeta.
  unfold save_debug, attempt, catch, bind, on_disk, ret, call.
  cbn [browser disk trace].
  set (ts := strftime _ (browser w)).
  pose proof (png_is_not_html tag ts) as Hne.
  set (shot := tag ++ lit "_" ++ ts ++ lit ".png") in *.
  set (html := tag ++ lit "_" ++ ts ++ lit ".html") in *.
  destruct (answer Screenshot (browser w)) as [[png | e1] b1]; cbn [browser disk trace];
    destruct (answer Content b1) as [[c | e2] b2]; cbn [browser disk trace];
    eexists; (split; [reflexivity |]); cbn [browser disk trace write_file files dirs];
    (split; [reflexivity |]);
    (split; [intros p H1 H2; now rewrite ?lookup_insert_ne by (by apply not_eq_sym) |]);
    eexists; apply lookup_insert_eq.
Qed.

(** X14.  [download_file_via_context] never raises.  It returns
    [True] exactly when the response is OK and its body can be read, and then
    the destination holds that body; in every other case it returns [False]
    and leaves all files as they were. *)
Theorem download_writes_only_on_success url dest w :
  exists ok w',
    download_file_via_context url dest w = (Ok ok, w')
    /\ ok = makes_file (answer (RequestGet url) (browser w)).1
    /\ (ok = false -> disk w' = disk w)
    /\ (ok = true ->
        exists resp data,
          (answer (RequestGet url) (browser w)).1 = Ok resp
          /\ resp_body resp = Ok data
          /\ disk w' = write_file dest (Bytes data) (disk w)).
Proof.
  unfold download_file_via_context, catch, bind, call, ret, lift, on_disk, makes_file.
  destruct (answer (RequestGet url) (browser w)) as [[resp | e] b] eqn:Ha; cbn [fst].
  - destruct (resp_ok resp) eqn:Hok; cbn [negb andb].
    + destruct (resp_body resp) as [data | e] eqn:Hb; cbn [trace browser disk is_ok].
      * eexists true, _. split; [reflexivity |]. split; [reflexivity |].
        split; [discriminate |]. intros _. now exists resp, data.
      * eexists false, _. split; [reflexivity |]. split; [reflexivity |].
        split; [reflexivity | discriminate].
    + eexists false, _. split; [reflexivity |]. split; [reflexivity |].
      split; [reflexivity | discriminate].
  - eexists false, _. split; [reflexivity |]. split; [reflexivity |].
    split; [reflexivity | discriminate].
Qed.

Lemma strip_length s : (length (strip s) <= length s)%nat.
Proof.
  destruct (SrcsetMore.strip_within s) as (a & b & E).
  apply (f_equal (@length _)) in E. rewrite !length_app in E. lia.
Qed.

(** One read of a text, any failure giving the empty text. *)
Lemma read_text_total (l : locator) (f : str -> str) w :
  exists t w',
    catch (t <- call (InnerText l) ;; ret (f t)) (ret []) w = (Ok t, w')
    /\ disk w' = disk w.
Proof.
  unfold catch, bind, ret.
  destruct (call (InnerText l) w) as [[t | e] w1] eqn:E;
    pose proof (call_disk _ _ _ _ E) as D; eauto.
Qed.

Lemma first_text_total card selectors w :
  exists r w',
    first_text card selectors w = (Ok r, w')
    /\ disk w' = disk w
    /\ (forall t, r = Some t -> t <> []).
Proof.
  revert w. induction selectors as [| sel rest IH]; intros w; cbn [first_text].
  - exists None, w. unfold ret. repeat split. discriminate.
  - destruct (read_text_total (First (Sub card sel)) strip w) as (t & w1 & E & D).
    rewrite (bind_ok _ _ _ _ _ E). destruct t as [| c t].
    + destruct (IH w1) as (r & w' & E' & D' & P). exists r, w'. repeat split; try done.
      congruence.
    + eexists (Some (c :: t)), w1. unfold ret. repeat split; [exact D |].
      intros t' [= <-]. discriminate.
Qed.

(** X15.  [get_card_title] never raises and never returns an
    empty title: when no heading, bold text, label or text of the card can
    be read it returns [Untitled].  It touches no file. *)
Theorem get_card_title_total card w :
  exists t w',
    get_card_title card w = (Ok t, w') /\ t <> [] /\ disk w' = disk w.
Proof.
  unfold get_card_title.
  destruct (first_text_total card (map lit ["h2"; "h3"; "[role='heading']"]%string) w)
    as (r1 & w1 & E1 & D1 & P1).
  rewrite (bind_ok _ _ _ _ _ E1). destruct r1 as [t1 |].
  { exists t1, w1. unfold ret. repeat split; [now apply P1 | exact D1]. }
  destruct (first_text_total card (map lit ["strong"; "b"]%string) w1)
    as (r2 & w2 & E2 & D2 & P2).
  rewrite (bind_ok _ _ _ _ _ E2). destruct r2 as [t2 |].
  { exists t2, w2. unfold ret. repeat split; [now apply P2 | congruence]. }
  assert (E3 : exists a w3,
             catch (a <- call (GetAttribute card (lit "aria-label")) ;;
                    ret (strip (default [] a))) (ret []) w2 = (Ok a, w3)
             /\ disk w3 = disk w2).
  { unfold catch, bind, ret.
    destruct (call (GetAttribute card (lit "aria-label")) w2) as [[a | e] w3] eqn:E;
      pose proof (call_disk _ _ _ _ E) as D; eauto. }
  destruct E3 as (a & w3 & E3 & D3). rewrite (bind_ok _ _ _ _ _ E3).
  destruct a as [| c a].
  2:{ eexists _, w3. unfold ret. repeat split; [discriminate | congruence]. }
  destruct (read_text_total card (fun txt => sub_runs is_space [" "%char] (strip txt)) w3)
    as (txt & w4 & E4 & D4).
  rewrite (bind_ok _ _ _ _ _ E4). destruct txt as [| c txt].
  - eexists _, w4. unfold ret. repeat split; [discriminate | congruence].
  - eexists _, w4. unfold ret. repeat split; [discriminate | congruence].
Qed.

(** X16.  [guess_story_title_date] never raises; the title it
    returns is not empty ([Untitled] when the heading cannot be read or is
    blank), and the date text is at most 40 characters long (empty when no
    month name is found).  It touches no file. *)
Theorem guess_story_title_date_total w :
  exists title date_str w',
    guess_story_title_date w = (Ok (title, date_str), w')
    /\ title <> [] /\ (length date_str <= 40)%nat /\ disk w' = disk w.
Proof.
  unfold guess_story_title_date.
  assert (E1 : exists title w1,
             catch (t <- call (InnerText (First (Loc (lit "h1")))) ;;
                    ret (match strip t with [] => lit "Untitled" | t' => t' end))
                   (ret (lit "Untitled")) w = (Ok title, w1)
             /\ title <> [] /\ disk w1 = disk w).
  { unfold catch, bind, ret.
    destruct (call (InnerText (First (Loc (lit "h1")))) w) as [[t | e] w1] eqn:E;
      pose proof (call_disk _ _ _ _ E) as D.
    - eexists _, w1. split; [reflexivity |]. split; [| exact D]. now destruct (strip t).
    - eexists _, w1. split; [reflexivity |]. split; [discriminate | exact D]. }
  destruct E1 as (title & w1 & E1 & Ht & D1). rewrite (bind_ok _ _ _ _ _ E1).
  assert (E2 : exists date_str w2,
             catch (d <- call (InnerText (First (Loc month_selector))) ;;
                    let d := strip d in
                    ret (if (40 <? length d)%nat then strip (take 40 d) else d))
                   (ret []) w1 = (Ok date_str, w2)
             /\ (length date_str <= 40)%nat /\ disk w2 = disk w1).
  { unfold catch, bind, ret.
    destruct (call (InnerText (First (Loc month_selector))) w1) as [[d | e] w2] eqn:E;
      pose proof (call_disk _ _ _ _ E) as D.
    - eexists _, w2. split; [reflexivity |]. split; [| exact D]. cbn zeta.
      destruct (Nat.ltb_spec 40 (length (strip d))) as [Hlt | Hle]; [| exact Hle].
      etransitivity; [apply strip_length |]. rewrite length_take. lia.
    - eexists _, w2. split; [reflexivity |]. split; [cbn; lia | exact D]. }
  destruct E2 as (date_str & w2 & E2 & Hd & D2). rewrite (bind_ok _ _ _ _ _ E2).
  exists title, date_str, w2. unfold ret. repeat split; [exact Ht | exact Hd | congruence].
Qed.

(** *** The thumbnails *)

Lemma click_first_close_total selectors w :
  exists w', click_first_close selectors w = (Ok tt, w') /\ disk w' = disk w.
Proof.
  revert w. induction selectors as [| sel rest IH]; intros w; cbn [click_first_close].
  - exists w. now unfold ret.
  - unfold bind at 1, catch, bind, ret.
    destruct (call (Count (First (Loc sel))) w) as [[n | e] w1] eqn:E1;
      pose proof (call_disk _ _ _ _ E1) as D1.
    + destruct (0 <? n)%nat.
      * destruct (call (Click (First (Loc sel))) w1) as [[[] | e] w2] eqn:E2;
          pose proof (call_disk _ _ _ _ E2) as D2.
        -- destruct (call (WaitForTimeout 250) w2) as [[[] | e] w3] eqn:E3;
             pose proof (call_disk _ _ _ _ E3) as D3.
           ++ exists w3. split; [reflexivity | congruence].
           ++ destruct (IH w3) as (w' & -> & D'). exists w'. split; [reflexivity | congruence].
        -- destruct (IH w2) as (w' & -> & D'). exists w'. split; [reflexivity | congruence].
      * destruct (IH w1) as (w' & -> & D'). exists w'. split; [reflexivity | congruence].
    + destruct (IH w1) as (w' & -> & D'). exists w'. split; [reflexivity | congruence].
Qed.

(** [_try_close_lightbox] never raises. *)
Lemma _try_close_lightbox_total w :
  exists w', _try_close_lightbox w = (Ok tt, w') /\ disk w' = disk w.
Proof.
  unfold _try_close_lightbox, attempt.
  assert (E : exists w1, catch (call (KeyboardPress (lit "Escape")) ;;; call (WaitForTimeout 250))
                               (ret tt) w = (Ok tt, w1) /\ disk w1 = disk w).
  { unfold catch, bind, ret.
    destruct (call (KeyboardPress (lit "Escape")) w) as [[[] | e] w1] eqn:E1;
      pose proof (call_disk _ _ _ _ E1) as D1; [| eauto].
    destruct (call (WaitForTimeout 250) w1) as [[[] | e] w2] eqn:E2;
      pose proof (call_disk _ _ _ _ E2) as D2; eexists; split; try reflexivity; congruence. }
  destruct E as (w1 & E & D). rewrite (bind_ok _ _ _ _ _ E).
  destruct (click_first_close_total close_selectors w1) as (w' & E' & D').
  exists w'. split; [exact E' | congruence].
Qed.

Lemma lightbox_best_total selectors best w :
  exists b w', lightbox_best selectors best w = (Ok b, w') /\ disk w' = disk w.
Proof.
  revert best w. induction selectors as [| sel rest IH]; intros best w; cbn [lightbox_best].
  - exists best, w. now unfold ret.
  - destruct (call (Count (First (Loc sel))) w) as [[[| n] | e] w1] eqn:E1;
      pose proof (call_disk _ _ _ _ E1) as D1;
      try (destruct (IH best w1) as (b & w' & -> & D'); exists b, w';
           split; [reflexivity | congruence]).
    destruct (call (GetAttribute (First (Loc sel)) (lit "srcset")) w1) as [[srcset | e] w2] eqn:E2;
      pose proof (call_disk _ _ _ _ E2) as D2;
      try (destruct (IH best w2) as (b & w' & -> & D'); exists b, w';
           split; [reflexivity | congruence]).
    set (step1 := match strip (default [] srcset) with [] => _ | _ => _ end).
    destruct step1 as [[r | e] b1];
      try (destruct (IH b1 w2) as (b & w' & -> & D'); exists b, w';
           split; [reflexivity | congruence]).
    destruct b1 as [| c b1]; [| exists (c :: b1), w2; split; [reflexivity | congruence]].
    destruct (call (GetAttribute (First (Loc sel)) (lit "src")) w2) as [[src | e] w3] eqn:E3;
      pose proof (call_disk _ _ _ _ E3) as D3;
      try (destruct (IH [] w3) as (b & w' & -> & D'); exists b, w';
           split; [reflexivity | congruence]).
    destruct (normalize_img_url (default [] src)) as [[| c b'] | e]; cbn [non_empty];
      try (destruct (IH [] w3) as (b & w' & -> & D'); exists b, w';
           split; [reflexivity | congruence]).
    exists (c :: b'), w3. split; [reflexivity | congruence].
Qed.

Lemma open_thumbnail_total thumbs idx w :
  exists r w', open_thumbnail thumbs idx w = (Ok r, w') /\ disk w' = disk w.
Proof.
  unfold open_thumbnail.
  set (opened := (call (ScrollIntoView (Nth thumbs idx)) ;;; _)).
  assert (Ho : exists r w1, opened w = (r, w1) /\ disk w1 = disk w).
  { subst opened. unfold bind, catch, ret.
    destruct (call (ScrollIntoView (Nth thumbs idx)) w) as [[[] | e] w1] eqn:E1;
      pose proof (call_disk _ _ _ _ E1) as D1; [| eauto].
    destruct (call (WaitForTimeout 150) w1) as [[[] | e] w2] eqn:E2;
      pose proof (call_disk _ _ _ _ E2) as D2; [| eexists _, _; split; [reflexivity | congruence]].
    destruct (call (Click (Nth thumbs idx)) w2) as [[[] | e] w3] eqn:E3;
      pose proof (call_disk _ _ _ _ E3) as D3; [eexists _, _; split; [reflexivity | congruence] |].
    destruct (call (Click (Sub (Nth thumbs idx) (lit "xpath=.."))) w3) as [[[] | e'] w4] eqn:E4;
      pose proof (call_disk _ _ _ _ E4) as D4; eexists _, _; split; try reflexivity; congruence. }
  destruct Ho as (r & w1 & -> & D1).
  assert (Hclose : forall (found : option str) w2, disk w2 = disk w ->
            exists r w', (_try_close_lightbox ;;; ret found) w2 = (Ok r, w') /\ disk w' = disk w).
  { intros found w2 D2. destruct (_try_close_lightbox_total w2) as (w' & E & D').
    rewrite (bind_ok _ _ _ _ _ E). exists found, w'. split; [reflexivity | congruence]. }
  destruct r as [[] | e]; [| eauto | now apply Hclose].
  assert (Hb : exists r w2, (call (WaitForTimeout 350) ;;; lightbox_best lightbox_img_selectors []) w1
                            = (r, w2) /\ disk w2 = disk w).
  { unfold bind. destruct (call (WaitForTimeout 350) w1) as [[[] | e] w2] eqn:E2;
      pose proof (call_disk _ _ _ _ E2) as D2; [| eexists _, _; split; [reflexivity | congruence]].
    destruct (lightbox_best_total lightbox_img_selectors [] w2) as (b & w3 & -> & D3).
    eexists _, _. split; [reflexivity | congruence]. }
  destruct Hb as (r & w2 & -> & D2).
  destruct r as [best | e]; [| now apply Hclose].
  assert (Hc : exists r w3, (_try_close_lightbox ;;; call (WaitForTimeout 150)) w2 = (r, w3)
                            /\ disk w3 = disk w).
  { destruct (_try_close_lightbox_total w2) as (w3 & E & D3). rewrite (bind_ok _ _ _ _ _ E).
    destruct (call (WaitForTimeout 150) w3) as [r w4] eqn:E4.
    pose proof (call_disk _ _ _ _ E4) as D4. exists r, w4. split; [reflexivity | congruence]. }
  destruct Hc as (r & w3 & -> & D3).
  destruct r as [[] | e]; [eauto | now apply Hclose].
Qed.

(** X17.  A failure at one thumbnail, be it in scrolling to it,
    clicking it, reading the lightbox or closing it, never aborts the
    collection: the loop over the thumbnails returns normally, with at most
    one URL for each thumbnail, and touches no file. *)
Theorem open_thumbnails_total thumbs indices w :
  exists urls w',
    open_thumbnails thumbs indices w = (Ok urls, w')
    /\ (length urls <= length indices)%nat
    /\ disk w' = disk w.
Proof.
  revert w. induction indices as [| idx rest IH]; intros w; cbn [open_thumbnails].
  - exists [], w. unfold ret. repeat split. cbn. lia.
  - destruct (open_thumbnail_total thumbs idx w) as (u & w1 & E1 & D1).
    rewrite (bind_ok _ _ _ _ _ E1).
    destruct (IH w1) as (more & w' & E2 & Hlen & D2).
    rewrite (bind_ok _ _ _ _ _ E2). unfold ret.
    eexists _, w'. split; [reflexivity |]. split; [| congruence].
    destruct u; cbn [length]; lia.
Qed.

(** *** The record of a story *)

Lemma download_image_entry folder idx url entry w w' :
  download_image folder idx url w = (Ok entry, w') ->
  exists ext ok,
    file_ext_from_url url = Ok ext
    /\ entry = image_entry idx url
                 (path_join folder (zero_padded 3 (Z.of_nat idx) ++ ext)) ok.
Proof.
  unfold download_image.
  intros (ext & w1 & Hext & Hrest)%bind_ok_inv.
  unfold lift in Hext. injection Hext as Hext _.
  apply bind_ok_inv in Hrest as (ok1 & w2 & _ & Hrest).
  apply bind_ok_inv in Hrest as (ok2 & w3 & _ & Hrest).
  unfold ret in Hrest. injection Hrest as <- _. now exists ext, ok2.
Qed.

(** The entries of the download loop: one for each URL, numbered from
    [idx] on, with the file named after the number. *)
Lemma download_images_entries folder idx urls entries w w' :
  download_images folder idx urls w = (Ok entries, w') ->
  length entries = length urls
  /\ forall k url, urls !! k = Some url ->
       exists ext ok,
         file_ext_from_url url = Ok ext
         /\ entries !! k
            = Some (image_entry (idx + k) url
                      (path_join folder (zero_padded 3 (Z.of_nat (idx + k)) ++ ext)) ok).
Proof.
  revert idx entries w w'.
  induction urls as [| url rest IH]; intros idx entries w w'; cbn [download_images].
  - unfold ret. intros [= <- _]. split; [reflexivity |]. intros k url Hk. discriminate.
  - intros (entry & w1 & He & Hrest)%bind_ok_inv.
    apply bind_ok_inv in Hrest as (more & w2 & Hm & Hret).
    unfold ret in Hret. injection Hret as <- _.
    destruct (IH _ _ _ _ Hm) as [Hlen Hk].
    split; [cbn [length]; now rewrite Hlen |].
    intros [| k] u; cbn [lookup list_lookup].
    + intros [= <-]. destruct (download_image_entry _ _ _ _ _ _ He) as (ext & ok & Hx & ->).
      exists ext, ok. now rewrite Nat.add_0_r.
    + intros Hu. destruct (Hk k u Hu) as (ext & ok & Hx & Hent).
      exists ext, ok. split; [exact Hx |]. now rewrite Nat.add_succ_r.
Qed.

Lemma collect_deduped w urls w' :
  collect_fullsize_urls_via_lightbox w = (Ok urls, w') -> exists l, urls = dedupe l.
Proof.
  unfold collect_fullsize_urls_via_lightbox.
  intros (thumbs & w1 & _ & Hrest)%bind_ok_inv.
  destruct thumbs as [thumbs |]; [| unfold ret in Hrest; injection Hrest as <- _; now exists []].
  apply bind_ok_inv in Hrest as (n & w2 & _ & Hrest).
  destruct (n =? 0)%nat; [unfold ret in Hrest; injection Hrest as <- _; now exists [] |].
  apply bind_ok_inv in Hrest as (count & w3 & _ & Hrest).
  apply bind_ok_inv in Hrest as (indices & w4 & _ & Hrest).
  apply bind_ok_inv in Hrest as (full_urls & w5 & _ & Hrest).
  unfold ret in Hrest. injection Hrest as <- _. eauto.
Qed.

(** X18.  The record of a story that is downloaded is
    consistent: no image URL is empty or listed twice, [image_count_found]
    is the number of entries of [images], and the entry of the k-th URL has
    the index k, counted from 1, that URL, and the file name made of the
    index on three digits and the extension of the URL; the record is what
    [story.json] holds. *)
Theorem story_record_consistent cfg title date_str folder w meta w' :
  story_from_folder cfg title date_str folder w = (Ok meta, w') ->
  SKIP_EXISTING_FOLDERS cfg && path_exists folder (disk w) = false ->
  exists final_url urls entries,
    meta = story_meta final_url title date_str folder (length urls) entries
    /\ files (disk w') !! path_join folder (lit "story.json") = Some (Document (JDict meta))
    /\ NoDup urls /\ Forall (fun u => u <> []) urls
    /\ length entries = length urls
    /\ forall k url, urls !! k = Some url ->
         exists ext ok,
           file_ext_from_url url = Ok ext
           /\ entries !! k
              = Some (image_entry (S k) url
                        (path_join folder (zero_padded 3 (Z.of_nat (S k)) ++ ext)) ok).
Proof.
  unfold story_from_folder. intros Hs Hskip.
  apply bind_ok_inv in Hs as (there & w0 & Hthere & Hs).
  unfold exists_on_disk in Hthere. injection Hthere as <- <-. rewrite Hskip in Hs.
  apply bind_ok_inv in Hs as ([] & w1 & _ & Hs).
  apply bind_ok_inv in Hs as (urls0 & w2 & Hcollect & Hs).
  apply bind_ok_inv in Hs as (urls & w3 & Hurls & Hs).
  apply bind_ok_inv in Hs as (final_url & w4 & _ & Hs).
  apply bind_ok_inv in Hs as (entries & w5 & Hdl & Hs).
  apply bind_ok_inv in Hs as ([] & w6 & Hwrite & Hs).
  unfold ret in Hs. injection Hs as <- <-.
  unfold on_disk in Hwrite. injection Hwrite as <-.
  assert (Hd : exists l, urls = dedupe l).
  { destruct urls0 as [| u0 urls0].
    - apply bind_ok_inv in Hurls as (dom_urls & w7 & _ & Hurls).
      unfold ret in Hurls. injection Hurls as <- _. eauto.
    - unfold ret in Hurls. injection Hurls as <- _. exact (collect_deduped _ _ _ Hcollect). }
  destruct Hd as (l & ->).
  destruct (download_images_entries _ _ _ _ _ _ Hdl) as [Hlen Hk].
  exists final_url, (dedupe l), entries.
  split; [reflexivity |]. split; [cbn [disk files write_file]; apply lookup_insert_eq |].
  split; [apply ListMore.dedupe_aux_NoDup |]. split.
  - apply Forall_forall. intros u Hu. apply ListMore.dedupe_aux_elem in Hu. tauto.
  - split; [exact Hlen |]. intros k url Hu. exact (Hk k url Hu).
Qed.

(** *** The manifest *)

(** What the loop over the cards keeps: each story recorded is counted once,
    as downloaded or as skipped, and no card gives more than one record. *)
Lemma stories_counts cfg out_root indices t w t' w' :
  stories cfg out_root indices t w = (Ok t', w') ->
  processed t' + skipped t' - (processed t + skipped t)
  = Z.of_nat (length (all_meta t')) - Z.of_nat (length (all_meta t))
  /\ (length (all_meta t) <= length (all_meta t') <= length (all_meta t) + length indices)%nat
  /\ processed t <= processed t' /\ skipped t <= skipped t'.
Proof.
  revert t w. induction indices as [| i rest IH]; intros t w; cbn [stories].
  - unfold ret. intros [= <- _]. cbn [length]. lia.
  - intros ([] & w1 & _ & Hs)%bind_ok_inv.
    apply bind_ok_inv in Hs as (n & w2 & _ & Hs).
    destruct (n <=? i)%nat.
    { unfold ret in Hs. injection Hs as <- _. cbn [length]. lia. }
    apply bind_ok_inv in Hs as (card_title & w3 & _ & Hs).
    apply bind_ok_inv in Hs as (clicked & w4 & _ & Hs).
    apply bind_ok_inv in Hs as (clicked' & w5 & _ & Hs).
    destruct clicked'; cbn [negb] in Hs.
    2:{ apply bind_ok_inv in Hs as ([] & w6 & _ & Hs).
        destruct (IH _ _ Hs) as (H1 & H2 & H3 & H4). cbn [length]. lia. }
    apply bind_ok_inv in Hs as (login & w6 & _ & Hs).
    destruct login.
    { apply bind_ok_inv in Hs as ([] & w7 & _ & Hs). discriminate Hs. }
    apply bind_ok_inv in Hs as (meta & w7 & _ & Hs).
    destruct (truthy _); destruct (IH _ _ Hs) as (H1 & H2 & H3 & H4);
      cbn [all_meta processed skipped] in *; rewrite length_app in *; cbn [length] in *; lia.
Qed.

(** X19.  In the manifest of a run that completes, the
    number of stories downloaded and the number of stories skipped add up to
    the number of story records, which is at most the number of cards found
    on the grid; that number is at least 1. *)
Theorem manifest_counts_add_up cfg w w' :
  main cfg w = (Ok tt, w') ->
  MANIFEST_PATH cfg <> ZIP_NAME cfg ->
  exists now total t,
    files (disk w') !! MANIFEST_PATH cfg = Some (Document (manifest cfg now total t))
    /\ processed t + skipped t = Z.of_nat (length (all_meta t))
    /\ 0 <= processed t /\ 0 <= skipped t
    /\ (length (all_meta t) <= total)%nat /\ (1 <= total)%nat.
Proof.
  intros Hm Hne. unfold main in Hm.
  apply bind_ok_inv in Hm as ([] & w1 & _ & Hm).
  apply bind_ok_inv in Hm as ([] & w2 & _ & Hm).
  apply bind_ok_inv in Hm as ([] & w3 & _ & Hm).
  apply bind_ok_inv in Hm as (total & w4 & _ & Hm).
  destruct (Nat.eqb_spec total 0) as [-> | Htotal].
  - apply bind_ok_inv in Hm as ([] & w5 & _ & Hm). discriminate Hm.
  - apply bind_ok_inv in Hm as (t & w5 & Hst & Hm).
    destruct (stories_counts _ _ _ _ _ _ _ Hst) as (H1 & H2 & H3 & H4).
    cbn [all_meta processed skipped length] in *. rewrite length_seq in H2.
    eexists _, total, t.
    split; [eapply finish_writes_manifest; [exact Hm | exact Hne] |]. lia.
Qed.

(** *** Runs that end early *)

Lemma on_login_page_spec w :
  on_login_page w = (Ok (is_login_page (page_url (browser w))), w).
Proof. reflexivity. Qed.

(** X20.  When the address of the page is a login page after the grid
    has been asked for, [open_story_grid] captures the debug artifacts and
    raises [Redirected to login]; it does not wait for the story cards. *)
Theorem redirect_to_login_handling w w0 :
  (call (Goto START_URL) ;;; call (WaitForTimeout 1200)) w = (Ok tt, w0) ->
  is_login_page (page_url (browser w0)) = true ->
  exists w',
    open_story_grid w = (Raise redirected_to_login, w')
    /\ debug_captured (lit "redirected_to_login") w0 w'.
Proof.
  intros Hgo Hlogin. unfold open_story_grid.
  apply bind_ok_inv in Hgo as ([] & w1 & H1 & H2).
  rewrite (bind_ok _ _ _ _ _ H1), (bind_ok _ _ _ _ _ H2).
  rewrite (bind_ok _ _ _ _ _ (on_login_page_spec w0)), Hlogin.
  destruct (save_debug_captures (lit "redirected_to_login") w0) as (w' & Hs & Hd).
  exists w'. split; [| exact Hd]. now rewrite (bind_ok _ _ _ _ _ Hs).
Qed.

(** X21.  When the grid opens and the count of the story cards is
    zero, [main] captures the debug artifacts and raises [Found zero cards];
    it goes no further. *)
Theorem zero_cards_handling cfg w w0 :
  (ensure_dir (OUT_DIR cfg) ;;; open_context cfg ;;; open_story_grid ;;; get_story_card_count) w
  = (Ok 0%nat, w0) ->
  exists w',
    main cfg w = (Raise zero_cards, w')
    /\ debug_captured (lit "zero_cards") w0 w'.
Proof.
  intros Hgo. unfold main.
  apply bind_ok_inv in Hgo as ([] & w1 & H1 & Hgo).
  apply bind_ok_inv in Hgo as ([] & w2 & H2 & Hgo).
  apply bind_ok_inv in Hgo as ([] & w3 & H3 & H4).
  rewrite (bind_ok _ _ _ _ _ H1), (bind_ok _ _ _ _ _ H2), (bind_ok _ _ _ _ _ H3),
    (bind_ok _ _ _ _ _ H4).
  cbn [Nat.eqb].
  destruct (save_debug_captures (lit "zero_cards") w0) as (w' & Hs & Hd).
  exists w'. split; [| exact Hd]. now rewrite (bind_ok _ _ _ _ _ Hs).
Qed.

Lemma no_credentials_raise cfg w :
  LDS_USERNAME cfg = [] \/ LDS_PASSWORD cfg = [] ->
  attempt_headless_login cfg w = (Raise no_credentials, w).
Proof.
  unfold attempt_headless_login. intros [-> | ->]; [reflexivity |].
  now destruct (LDS_USERNAME cfg).
Qed.

(** X22.  Without a stored state and without a user name or
    without a password, [main] never gets to the site: it raises, after at
    most launching the browser and opening a context and a page, and it
    writes no file.  The exception is [No storage_state provided ...] unless
    one of these three calls has raised. *)
Theorem main_without_credentials cfg w :
  STORAGE_STATE_B64 cfg = [] ->
  LDS_USERNAME cfg = [] \/ LDS_PASSWORD cfg = [] ->
  exists e w' pre,
    main cfg w = (Raise e, w')
    /\ files (disk w') = files (disk w)
    /\ map Stated.called_action (trace w') = pre ++ map Stated.called_action (trace w)
    /\ pre `suffix_of` [NewPage; NewContext None; Launch (HEADLESS cfg)]
    /\ (e = no_credentials \/ exists a, head (trace w') = Some (Called a (Raise e))).
Proof.
  intros Hstate Hcred. unfold main, open_context. rewrite Hstate.
  unfold bind at 1. unfold ensure_dir at 1, on_disk at 1.
  set (w1 := {| browser := browser w; disk := make_dirs (OUT_DIR cfg) (disk w); trace := trace w |}).
  destruct (call_spec (Launch (HEADLESS cfg)) w1) as (r1 & b1 & _ & E1).
  unfold bind at 1. unfold bind at 1. rewrite E1.
  set (w2 := {| browser := b1; disk := disk w1; trace := _ :: trace w1 |}) in *.
  destruct r1 as [[] | e1].
  2:{ exists e1, w2, [Launch (HEADLESS cfg)]. split; [reflexivity |]. split; [reflexivity |].
      split; [reflexivity |]. split; [now exists [NewPage; NewContext None] |].
      right. now eexists. }
  destruct (call_spec (NewContext None) w2) as (r2 & b2 & _ & E2).
  unfold bind at 1. rewrite E2.
  set (w3 := {| browser := b2; disk := disk w2; trace := _ :: trace w2 |}) in *.
  destruct r2 as [[] | e2].
  2:{ exists e2, w3, [NewContext None; Launch (HEADLESS cfg)].
      split; [reflexivity |]. split; [reflexivity |].
      split; [reflexivity |]. split; [now exists [NewPage] |]. right. now eexists. }
  destruct (call_spec NewPage w3) as (r3 & b3 & _ & E3).
  unfold bind at 1. rewrite E3.
  set (w4 := {| browser := b3; disk := disk w3; trace := _ :: trace w3 |}) in *.
  destruct r3 as [[] | e3].
  2:{ exists e3, w4, [NewPage; NewContext None; Launch (HEADLESS cfg)].
      split; [reflexivity |]. split; [reflexivity |].
      split; [reflexivity |]. split; [now exists [] |]. right. now eexists. }
  unfold bind at 1. rewrite (no_credentials_raise cfg w4 Hcred).
  exists no_credentials, w4, [NewPage; NewContext None; Launch (HEADLESS cfg)].
  split; [reflexivity |]. split; [reflexivity |].
  split; [reflexivity |]. split; [now exists [] |]. now left.
Qed.


End Run.

Import Scenarios.

Lemma completed' {A W} (r : result A * W) e : r.1 = Raise e -> r = (Raise e, r.2).
Proof. destruct r as [[a | e'] w]; cbn; congruence. Qed.

(** The story of the picnic, downloaded to an empty disk: three images. *)
Lemma story_record_consistent_witness :
  exists meta w' final_url (urls : list str) entries,
    @story_from_folder (scripted three_images) checks_pass settings
      (lit "Ward picnic") [] picnic_folder (start_world three_images empty_disk) = (Ok meta, w')
    /\ meta = story_meta final_url (lit "Ward picnic") [] picnic_folder (length urls) entries
    /\ NoDup urls /\ length entries = length urls.
Proof.
  pose proof (completed
                (@story_from_folder (scripted three_images) checks_pass settings
                   (lit "Ward picnic") [] picnic_folder (start_world three_images empty_disk))
                _ ltac:(vm_compute; reflexivity)) as E.
  destruct (@story_record_consistent (scripted three_images) checks_pass settings
              _ _ _ _ _ _ E ltac:(vm_compute; reflexivity))
    as (final_url & urls & entries & Hm & _ & Hn & _ & Hl & _).
  eexists _, _, final_url, urls, entries. split; [exact E |]. split; [exact Hm |]. now split.
Defined.

(** A run over one card, from an empty disk. *)
Lemma manifest_counts_add_up_witness :
  exists now total t,
    files (disk (@main (scripted three_images) checks_pass settings
                   (start_world three_images empty_disk)).2)
      !! MANIFEST_PATH settings = Some (Document (@manifest settings now total t))
    /\ processed t + skipped t = Z.of_nat (length (all_meta t))
    /\ (length (all_meta t) <= total)%nat.
Proof.
  pose proof (completed
                (@main (scripted three_images) checks_pass settings
                   (start_world three_images empty_disk)) tt
                ltac:(vm_compute; reflexivity)) as E.
  destruct (@manifest_counts_add_up (scripted three_images) checks_pass settings _ _ E
              ltac:(vm_compute; discriminate))
    as (now & total & t & Hf & Hc & _ & _ & Hl & _).
  exists now, total, t. split; [exact Hf |]. split; [exact Hc | exact Hl].
Defined.

(** The site answers with its login page. *)
Lemma redirect_to_login_handling_witness :
  exists w', @open_story_grid (scripted bare_login) (start_world bare_login empty_disk)
             = (Raise redirected_to_login, w').
Proof.
  pose proof (completed
                ((call (Goto START_URL) ;;; call (WaitForTimeout 1200))
                   (start_world bare_login empty_disk)) tt
                ltac:(vm_compute; reflexivity)) as E.
  destruct (@redirect_to_login_handling (scripted bare_login) _ _ E ltac:(vm_compute; reflexivity))
    as (w' & Hw & _).
  exists w'. exact Hw.
Defined.

(** The grid loads and shows no card. *)
Lemma zero_cards_handling_witness :
  exists w', @main (scripted empty_grid) checks_pass settings (start_world empty_grid empty_disk)
             = (Raise zero_cards, w').
Proof.
  pose proof (completed
                ((ensure_dir (OUT_DIR settings) ;;; open_context settings ;;;
                  open_story_grid ;;; get_story_card_count)
                   (start_world empty_grid empty_disk)) 0%nat
                ltac:(vm_compute; reflexivity)) as E.
  destruct (@zero_cards_handling (scripted empty_grid) checks_pass settings _ _ E) as (w' & Hw & _).
  exists w'. exact Hw.
Defined.

(** No variable of the environment is set. *)
Lemma main_without_credentials_witness :
  exists w', @main (scripted three_images) checks_pass no_settings
               (start_world three_images empty_disk)
             = (Raise (no_credentials), w')
             /\ files (disk w') = ∅.
Proof.
  destruct (@main_without_credentials (scripted three_images) checks_pass no_settings
              (start_world three_images empty_disk) eq_refl (or_introl eq_refl))
    as (e & w' & pre & Hm & Hf & _).
  exists (@main (scripted three_images) checks_pass no_settings
            (start_world three_images empty_disk)).2.
  split; [apply completed'; vm_compute; reflexivity |].
  rewrite Hm. exact Hf.
Defined.

End RunMore.

(** ** More on build_cfm_weekly.py and on the settings *)

Module CfmMore.
Import Py Exn Json Files IsoWeek Cfm IsoWeekFacts CfmFacts.

Lemma zero_padded_week n :
  1 <= n <= 52 ->
  exists d1 d2,
    zero_padded 2 n = [d1; d2] /\ is_digit d1 = true /\ is_digit d2 = true
    /\ Z.of_N (int_of_digits [d1; d2]) = n.
Proof.
  intros Hn.
  assert (Hall : forallb (fun n => match zero_padded 2 n with
                                   | [d1; d2] => is_digit d1 && is_digit d2
                                                 && (Z.of_N (int_of_digits [d1; d2]) =? n)
                                   | _ => false
                                   end) (map Z.of_nat (seq 1 52)) = true)
    by (vm_compute; reflexivity).
  rewrite forallb_forall in Hall. specialize (Hall n).
  assert (Hin : In n (map Z.of_nat (seq 1 52))).
  { apply in_map_iff. exists (Z.to_nat n). split; [lia |]. apply in_seq. lia. }
  apply Hall in Hin. destruct (zero_padded 2 n) as [| d1 [| d2 [| ? ?]]]; try discriminate.
  apply andb_true_iff in Hin as [[H1 H2]%andb_true_iff H3]. apply Z.eqb_eq in H3.
  now exists d1, d2.
Qed.

Section Run.
Context `{Outside}.

(** X23.  On any date, the page [main] fetches is that of a week
    written on two digits, from 01 to 52: the summary of a run that completes
    records as [source_url] the base address, the path of the manual, the two
    digits of [week_number] and the language parameter. *)
Theorem week_url_shape (w w' : world) :
  valid_date today = true ->
  main w = (Ok tt, w') ->
  exists d1 d2 wk fields,
    files (disk w') !! OUT_JSON = Some (Document (JDict fields))
    /\ dict_get (lit "week_number") fields = Some (JInt wk)
    /\ 1 <= wk <= 52
    /\ dict_get (lit "source_url") fields
       = Some (JStr (BASE ++ MANUAL_PATH_prefix ++ [d1; d2] ++ MANUAL_PATH_suffix))
    /\ is_digit d1 = true /\ is_digit d2 = true
    /\ Z.of_N (int_of_digits [d1; d2]) = wk
    /\ is_ok (requests_get (BASE ++ MANUAL_PATH_prefix ++ [d1; d2] ++ MANUAL_PATH_suffix)) = true.
Proof.
  intros Hvalid Hmain.
  destruct (main_writes_payload w w' Hmain) as (fields & Hscrape & Hfile & _).
  pose proof (isocalendar_week_range today Hvalid) as Hrange.
  assert (Hwk : 1 <= iso_week_number today <= 52) by (unfold iso_week_number; lia).
  destruct (zero_padded_week _ Hwk) as (d1 & d2 & Hpad & Hd1 & Hd2 & Hint).
  exists d1, d2, (iso_week_number today), fields.
  unfold scrape_week, MANUAL_PATH in Hscrape. rewrite Hpad in Hscrape.
  destruct (requests_get _) as [r | e] eqn:Hget; [| discriminate].
  destruct (raise_for_status r); [| discriminate].
  injection Hscrape as <-.
  repeat split; try assumption; try reflexivity; lia.
Qed.

End Run.

(** The run of 4 March 2026: week 10. *)
Lemma week_url_shape_witness :
  exists fields,
    files (disk (@main Scenarios.site_up {| disk := Scenarios.cfm_disk; printed := [] |}).2)
      !! OUT_JSON = Some (Document (JDict fields))
    /\ dict_get (lit "week_number") fields = Some (JInt 10)
    /\ dict_get (lit "source_url") fields
       = Some (JStr (lit "https://www.churchofjesuschrist.org/study/manual/come-follow-me-for-home-and-church-old-testament-2026/10?lang=eng")).
Proof.
  destruct (@week_url_shape Scenarios.site_up {| disk := Scenarios.cfm_disk; printed := [] |}
              (@main Scenarios.site_up {| disk := Scenarios.cfm_disk; printed := [] |}).2
              eq_refl ltac:(vm_compute; reflexivity))
    as (d1 & d2 & wk & fields & Hf & _).
  eexists. split; [vm_compute; reflexivity |]. split; vm_compute; reflexivity.
Defined.

End CfmMore.

Module SettingsMore.
Import Py Exn Urllib Unit.

Lemma blank_or_unset (environ : str -> option str) name dflt :
  (forall v, environ name = Some v -> strip v = []) ->
  strip dflt = dflt -> dflt <> [] ->
  getenv_path environ name dflt = dflt.
Proof.
  intros Hblank Hd Hne. unfold getenv_path.
  destruct (environ name) as [v |] eqn:E; cbn [from_option id].
  - now rewrite (Hblank v eq_refl).
  - rewrite Hd. now destruct dflt.
Qed.

Lemma getenv_path_not_nil (environ : str -> option str) name dflt :
  dflt <> [] -> getenv_path environ name dflt <> [].
Proof.
  intros Hne. unfold getenv_path. now destruct (strip _).
Qed.

(** X24.  How blank settings are read.  The three paths are never
    empty: a path variable that is unset or holds white space only gives the
    default path.  A flag that is unset is on, whereas a flag that is set to
    white space only is off. *)
Theorem blank_settings environ :
  let cfg := config_of_environ environ in
  (OUT_DIR cfg <> [] /\ ZIP_NAME cfg <> [] /\ MANIFEST_PATH cfg <> [])
  /\ ((forall v, environ (lit "OUT_DIR") = Some v -> strip v = []) ->
      OUT_DIR cfg = lit "unit-history/events")
  /\ ((forall v, environ (lit "ZIP_NAME") = Some v -> strip v = []) ->
      ZIP_NAME cfg = lit "unit-history/unit_history_export.zip")
  /\ ((forall v, environ (lit "MANIFEST_PATH") = Some v -> strip v = []) ->
      MANIFEST_PATH cfg = lit "unit-history/manifest.json")
  /\ (environ (lit "HEADLESS") = None -> HEADLESS cfg = true)
  /\ (environ (lit "SKIP_EXISTING_FOLDERS") = None -> SKIP_EXISTING_FOLDERS cfg = true)
  /\ (forall v, environ (lit "HEADLESS") = Some v -> strip v = [] -> HEADLESS cfg = false)
  /\ (forall v, environ (lit "SKIP_EXISTING_FOLDERS") = Some v -> strip v = [] ->
        SKIP_EXISTING_FOLDERS cfg = false).
Proof.
  cbn zeta. unfold config_of_environ.
  cbn [OUT_DIR ZIP_NAME MANIFEST_PATH HEADLESS SKIP_EXISTING_FOLDERS].
  split; [repeat split; now apply getenv_path_not_nil |].
  split; [intros Hb; now apply blank_or_unset |].
  split; [intros Hb; now apply blank_or_unset |].
  split; [intros Hb; now apply blank_or_unset |].
  unfold getenv_flag.
  split; [now intros -> |]. split; [now intros -> |].
  split; intros v -> Hv; cbn [from_option id]; now rewrite Hv.
Qed.

(** A run with [OUT_DIR] and [HEADLESS] set to blanks. *)
Lemma blank_settings_witness :
  let environ := fun name : str =>
    if bool_decide (name = lit "OUT_DIR") then Some (lit "   ")
    else if bool_decide (name = lit "HEADLESS") then Some (lit " ")
    else None in
  OUT_DIR (config_of_environ environ) = lit "unit-history/events"
  /\ HEADLESS (config_of_environ environ) = false
  /\ SKIP_EXISTING_FOLDERS (config_of_environ environ) = true.
Proof.
  cbn zeta.
  pose proof (blank_settings (fun name : str =>
                if bool_decide (name = lit "OUT_DIR") then Some (lit "   ")
                else if bool_decide (name = lit "HEADLESS") then Some (lit " ")
                else None)) as (_ & H1 & _ & _ & _ & H5 & H6 & _).
  split; [apply H1; intros v [= <-]; reflexivity |].
  split; [apply (H6 (lit " ")); reflexivity | apply H5; reflexivity].
Defined.

End SettingsMore.

(** ** The names of the image files *)

Module FileMore.
Import Py Exn Json Files Urllib UnitUrl Unit UnitFacts PyFacts.

(** *** Decimal notation *)

Lemma to_uint_head p : forall d, Pos.to_uint p <> Decimal.D0 d.
Proof.
  intros d E.
  assert (Hn : Decimal.unorm (Pos.to_uint p) = Pos.to_uint p).
  { rewrite <- (DecimalPos.Unsigned.to_of (Pos.to_uint p)).
    now rewrite DecimalPos.Unsigned.of_to. }
  rewrite E, DecimalFacts.unorm_D0 in Hn.
  assert (Hd' : d <> Decimal.Nil -> False).
  { intros Hne. pose proof (DecimalFacts.nb_digits_unorm d Hne) as Hd.
    rewrite Hn in Hd. cbn [Decimal.nb_digits] in Hd. lia. }
  destruct d; [| apply Hd'; discriminate ..].
  now apply (DecimalPos.Unsigned.to_uint_nonzero p).
Qed.

Lemma string_of_uint_digits d :
  Forall (fun c => is_digit c = true) (list_ascii_of_string (NilEmpty.string_of_uint d)).
Proof.
  induction d; cbn [NilEmpty.string_of_uint list_ascii_of_string]; constructor;
    try reflexivity; assumption.
Qed.

(** The decimal notation of a positive number consists of digits and does
    not start with a zero. *)
Lemma decimal_positive n :
  0 < n ->
  exists c t, decimal n = c :: t /\ c <> "0"%char
              /\ Forall (fun c => is_digit c = true) (c :: t).
Proof.
  intros Hn. destruct n as [| p | p]; try lia. unfold decimal, lit.
  cbn [Z.to_int NilZero.string_of_int].
  pose proof (to_uint_head p) as Hh. pose proof (DecimalPos.Unsigned.to_uint_nonnil p) as Hnil.
  pose proof (string_of_uint_digits (Pos.to_uint p)) as Hd.
  destruct (Pos.to_uint p) as [| d | d | d | d | d | d | d | d | d | d];
    try done; [now destruct (Hh d) | ..];
    cbn [NilZero.string_of_uint NilEmpty.string_of_uint list_ascii_of_string] in *;
    eexists _, _; (split; [reflexivity |]); (split; [discriminate | exact Hd]).
Qed.

Lemma decimal_inj a b : decimal a = decimal b -> a = b.
Proof.
  unfold decimal, lit. intros E.
  apply (f_equal string_of_list_ascii) in E. rewrite !string_of_list_ascii_of_string in E.
  assert (G : forall z, NilZero.int_of_string (NilZero.string_of_int (Z.to_int z))
                        = Some (Z.to_int z)).
  { intros z. apply NilZero.isi; destruct z; cbn; try discriminate;
      intros [= E']; now apply (DecimalPos.Unsigned.to_uint_nonnil _ E'). }
  pose proof (G a) as Ha. rewrite E, G in Ha. injection Ha as Ha.
  symmetry. now apply DecimalZ.to_int_inj.
Qed.

Lemma zeros_then_nonzero x y (c c' : ascii) t t' :
  c <> "0"%char -> c' <> "0"%char ->
  replicate x "0"%char ++ c :: t = replicate y "0"%char ++ c' :: t' ->
  c :: t = c' :: t'.
Proof.
  intros Hc Hc'. revert y. induction x as [| x IH]; intros [| y]; cbn [replicate app].
  - done.
  - intros [= -> _]. done.
  - intros [= <- _]. done.
  - intros [= E]. now apply (IH y).
Qed.

(** [f"{n:03d}"] tells positive numbers apart. *)
Lemma zero_padded_inj width a b :
  0 < a -> 0 < b -> zero_padded width a = zero_padded width b -> a = b.
Proof.
  intros Ha Hb. unfold zero_padded.
  destruct (Z.leb_spec 0 a); [| lia]. destruct (Z.leb_spec 0 b); [| lia].
  destruct (decimal_positive a Ha) as (c & t & Ea & Hc & _).
  destruct (decimal_positive b Hb) as (c' & t' & Eb & Hc' & _).
  intros E. apply decimal_inj. rewrite Ea, Eb in *.
  exact (zeros_then_nonzero _ _ _ _ _ _ Hc Hc' E).
Qed.

Lemma zero_padded_digits width n :
  0 < n -> Forall (fun c => is_digit c = true) (zero_padded width n).
Proof.
  intros Hn. unfold zero_padded. destruct (Z.leb_spec 0 n); [| lia].
  destruct (decimal_positive n Hn) as (c & t & -> & _ & Hd).
  apply Forall_app. split; [| exact Hd]. apply Forall_replicate. reflexivity.
Qed.

(** *** The extension *)

Lemma digits_then_dot a b t t' :
  Forall (fun c => is_digit c = true) a -> Forall (fun c => is_digit c = true) b ->
  a ++ "."%char :: t = b ++ "."%char :: t' -> a = b.
Proof.
  intros Ha Hb E. apply (f_equal (span is_digit)) in E.
  rewrite !span_unique in E by (assumption || reflexivity). now injection E.
Qed.

Section Loop.
Context `{Browser} `{NetlocChecks}.

(** The extension chosen for a file starts with a dot. *)
Lemma file_ext_from_url_dot url ext :
  file_ext_from_url url = Ok ext -> exists t, ext = "."%char :: t.
Proof.
  unfold file_ext_from_url. destruct (urlparse url) as [pu | e]; [| discriminate].
  intros [= <-]. destruct (str_in _ image_exts) eqn:E; [| now eexists].
  apply ListMore.str_in_spec in E. revert E.
  generalize (lower (splitext_ext (path pu))). intros x Hx.
  unfold image_exts, lit in Hx. cbn [map list_ascii_of_string] in Hx.
  repeat (apply elem_of_cons in Hx as [-> | Hx]; [now eexists |]).
  now apply elem_of_nil in Hx.
Qed.

(** X25.  The download loop of a story gives every image a file
    name of its own: two different entries of the list it returns never name
    the same file, whatever the URLs and their extensions are. *)
Theorem image_files_distinct folder urls entries w w' :
  download_images folder 1 urls w = (Ok entries, w') ->
  forall j k ij ik uj uk dj dk okj okk,
    entries !! j = Some (image_entry ij uj dj okj) ->
    entries !! k = Some (image_entry ik uk dk okk) ->
    j <> k -> dj <> dk.
Proof.
  intros Hdl. destruct (RunMore.download_images_entries _ _ _ _ _ _ Hdl) as [Hlen Hent].
  assert (Hfile : forall k ik uk dk okk,
             entries !! k = Some (image_entry ik uk dk okk) ->
             exists t, dk = path_join folder (zero_padded 3 (Z.of_nat (S k)) ++ "."%char :: t)).
  { intros k ik uk dk okk Hk.
    destruct (lookup_lt_is_Some_2 urls k) as [url Hu].
    { rewrite <- Hlen. eapply lookup_lt_Some, Hk. }
    destruct (Hent k url Hu) as (ext & ok & Hext & Hk').
    destruct (file_ext_from_url_dot _ _ Hext) as (t & ->).
    rewrite Hk in Hk'. unfold image_entry in Hk'.
    exists t. now injection Hk' as _ _ -> _. }
  intros j k ij ik uj uk dj dk okj okk Hj Hk Hne E.
  destruct (Hfile _ _ _ _ _ Hj) as (tj & ->). destruct (Hfile _ _ _ _ _ Hk) as (tk & ->).
  unfold path_join in E. apply app_inv_head in E. injection E as E.
  apply digits_then_dot in E; [| apply zero_padded_digits; lia ..].
  apply zero_padded_inj in E; lia.
Qed.

End Loop.

Import Scenarios.

(** Two images of the picnic, saved under the folder of the story. *)
Lemma image_files_distinct_witness :
  exists entries w',
    @download_images (scripted three_images) checks_pass picnic_folder 1
      [lit "https://cdn.example.org/a.jpg"; lit "https://cdn.example.org/b.png"]
      (start_world three_images empty_disk) = (Ok entries, w')
    /\ forall ij ik uj uk dj dk okj okk,
         entries !! 0%nat = Some (image_entry ij uj dj okj) ->
         entries !! 1%nat = Some (image_entry ik uk dk okk) -> dj <> dk.
Proof.
  pose proof (completed
                (@download_images (scripted three_images) checks_pass picnic_folder 1
                   [lit "https://cdn.example.org/a.jpg"; lit "https://cdn.example.org/b.png"]
                   (start_world three_images empty_disk))
                _ ltac:(vm_compute; reflexivity)) as E.
  eexists _, _. split; [exact E |].
  intros ij ik uj uk dj dk okj okk Hj Hk.
  exact (@image_files_distinct (scripted three_images) checks_pass _ _ _ _ _ E
           0%nat 1%nat ij ik uj uk dj dk okj okk Hj Hk ltac:(discriminate)).
Defined.

End FileMore.
